(** * Worm Defense: the combat and wave simulation of [GameScene.ts]

    A shallow embedding of the Phaser scene [GameScene] (file
    [src/phaser/scenes/GameScene.ts]) together with the part of the
    engine contract the scene relies on: game objects with an [active]
    flag, arcade groups with a children array, the scene clock with its
    timer events, and [console.warn].

    Game objects are referred to through handles (natural numbers); the
    store [ents] maps a handle to the object's fields.  Coordinates and
    times are integers (pixels, milliseconds).  Velocities, rotation and
    scale are left to the physics engine: objects change position through
    the [Moved] event only. *)

From Stdlib Require Import ZArith QArith Qround Lia Lqa.
From stdpp Require Import gmap strings list.
Local Open Scope Z_scope.

(** ** Constants of the scene *)

Definition INVULNERABLE_MS_AFTER_HIT : Z := 700.
Definition HEART_HEAL_AMOUNT : Z := 28.

(** [width] and [height] of the game configuration ([createPhaserGame]). *)
Definition scale_width : Z := 900.
Definition scale_height : Z := 505.

(** ** Game objects *)

(** What [obj.destroy] is: absent or not callable, the engine's
    [GameObject.destroy], or a method that raises. *)
Inductive DestroyFn : Type :=
| NotAFunction
| Destroys
| Throws (err : string).

Record Entity : Type := mkEntity {
  active : bool;
  pos_x : Z;
  pos_y : Z;
  body : bool;                 (* the object has an arcade body *)
  hasHit : option bool;        (* getData('hasHit'); None is undefined *)
  isShooter : option bool;     (* getData('isShooter') *)
  tint : option Z;
  onDestroy : option nat;      (* timer removed by the once('destroy') handler *)
  destroyFn : DestroyFn
}.

Definition set_active (v : bool) (e : Entity) : Entity :=
  {| active := v; pos_x := pos_x e; pos_y := pos_y e; body := body e;
     hasHit := hasHit e; isShooter := isShooter e; tint := tint e;
     onDestroy := onDestroy e; destroyFn := destroyFn e |}.
Definition set_pos (vx vy : Z) (e : Entity) : Entity :=
  {| active := active e; pos_x := vx; pos_y := vy; body := body e;
     hasHit := hasHit e; isShooter := isShooter e; tint := tint e;
     onDestroy := onDestroy e; destroyFn := destroyFn e |}.
Definition set_hasHit (v : option bool) (e : Entity) : Entity :=
  {| active := active e; pos_x := pos_x e; pos_y := pos_y e; body := body e;
     hasHit := v; isShooter := isShooter e; tint := tint e;
     onDestroy := onDestroy e; destroyFn := destroyFn e |}.
Definition set_isShooter (v : option bool) (e : Entity) : Entity :=
  {| active := active e; pos_x := pos_x e; pos_y := pos_y e; body := body e;
     hasHit := hasHit e; isShooter := v; tint := tint e;
     onDestroy := onDestroy e; destroyFn := destroyFn e |}.
Definition set_tint (v : option Z) (e : Entity) : Entity :=
  {| active := active e; pos_x := pos_x e; pos_y := pos_y e; body := body e;
     hasHit := hasHit e; isShooter := isShooter e; tint := v;
     onDestroy := onDestroy e; destroyFn := destroyFn e |}.
Definition set_onDestroy (v : option nat) (e : Entity) : Entity :=
  {| active := active e; pos_x := pos_x e; pos_y := pos_y e; body := body e;
     hasHit := hasHit e; isShooter := isShooter e; tint := tint e;
     onDestroy := v; destroyFn := destroyFn e |}.

(** A sprite or image as the engine creates it. *)
Definition newObject (px py : Z) : Entity :=
  {| active := true; pos_x := px; pos_y := py; body := true;
     hasHit := None; isShooter := None; tint := None;
     onDestroy := None; destroyFn := Destroys |}.

(** ** Timer events of the scene clock *)

(** The callbacks the scene registers.  [SpawnTick] and [CheckWave] close
    over the variables [count] and [spawned] of one call of [spawnWave];
    [count] is constant, [spawned] lives in the cell [cell] of the state. *)
Inductive Callback : Type :=
| InvulnerableOff
| SpawnTick (cell : nat) (count : Z)
| CheckWave (cell : nat) (count : Z)
| NextWave
| EnemyShoot (enemy : nat)
| HeartTick.

Global Instance Callback_eq_dec : EqDecision Callback.
Proof. solve_decision. Defined.

Record TimerEvent : Type := mkTimer {
  delay : Z;
  loop : bool;
  elapsed : Z;
  callback : Callback
}.

Definition set_elapsed (v : Z) (t : TimerEvent) : TimerEvent :=
  {| delay := delay t; loop := loop t; elapsed := v; callback := callback t |}.

(** ** What the scene draws on game over *)

Inductive Widget : Type :=
| GameOverPanel
| GameOverTitle
| FinalScore (n : Z)
| RestartButton.

(** ** The scene *)

Record State : Type := mkState {
  ents : gmap nat Entity;                (* game objects by handle *)
  nextId : nat;                          (* next fresh handle *)
  worm : nat;                            (* this.worm *)
  enemies : list nat;                    (* children of this.enemies *)
  playerBullets : list nat;
  enemyBullets : list nat;
  hearts : list nat;
  gameStarted : bool;
  isGameOver : bool;
  invulnerable : bool;
  lastPlayerShotAt : Z;
  score : Z;
  health : Z;
  maxHealth : Z;
  lives : Z;
  wave : Z;
  enemiesPerWave : Z;
  timers : gmap nat TimerEvent;          (* active timer events of this.time *)
  nextTimer : nat;                       (* next fresh timer handle *)
  spawned : gmap nat Z;                  (* the variable spawned of each spawnWave call *)
  rnd : list Q;                          (* coming values of Math.random() *)
  console : list (list string);          (* console.warn calls, oldest first *)
  display : list Widget;
  scoreText : Z;
  healthText : Z;
  livesText : Z                          (* number of hearts shown *)
}.

Definition set_ents (v : gmap nat Entity) (s : State) : State :=
  {| ents := v; nextId := nextId s; worm := worm s; enemies := enemies s;
     playerBullets := playerBullets s; enemyBullets := enemyBullets s;
     hearts := hearts s; gameStarted := gameStarted s;
     isGameOver := isGameOver s; invulnerable := invulnerable s;
     lastPlayerShotAt := lastPlayerShotAt s; score := score s;
     health := health s; maxHealth := maxHealth s; lives := lives s;
     wave := wave s; enemiesPerWave := enemiesPerWave s; timers := timers s;
     nextTimer := nextTimer s; spawned := spawned s; rnd := rnd s;
     console := console s; display := display s; scoreText := scoreText s;
     healthText := healthText s; livesText := livesText s |}.
Definition set_nextId (v : nat) (s : State) : State :=
  {| ents := ents s; nextId := v; worm := worm s; enemies := enemies s;
     playerBullets := playerBullets s; enemyBullets := enemyBullets s;
     hearts := hearts s; gameStarted := gameStarted s;
     isGameOver := isGameOver s; invulnerable := invulnerable s;
     lastPlayerShotAt := lastPlayerShotAt s; score := score s;
     health := health s; maxHealth := maxHealth s; lives := lives s;
     wave := wave s; enemiesPerWave := enemiesPerWave s; timers := timers s;
     nextTimer := nextTimer s; spawned := spawned s; rnd := rnd s;
     console := console s; display := display s; scoreText := scoreText s;
     healthText := healthText s; livesText := livesText s |}.
Definition set_enemies (v : list nat) (s : State) : State :=
  {| ents := ents s; nextId := nextId s; worm := worm s; enemies := v;
     playerBullets := playerBullets s; enemyBullets := enemyBullets s;
     hearts := hearts s; gameStarted := gameStarted s;
     isGameOver := isGameOver s; invulnerable := invulnerable s;
     lastPlayerShotAt := lastPlayerShotAt s; score := score s;
     health := health s; maxHealth := maxHealth s; lives := lives s;
     wave := wave s; enemiesPerWave := enemiesPerWave s; timers := timers s;
     nextTimer := nextTimer s; spawned := spawned s; rnd := rnd s;
     console := console s; display := display s; scoreText := scoreText s;
     healthText := healthText s; livesText := livesText s |}.
Definition set_playerBullets (v : list nat) (s : State) : State :=
  {| ents := ents s; nextId := nextId s; worm := worm s; enemies := enemies s;
     playerBullets := v; enemyBullets := enemyBullets s; hearts := hearts s;
     gameStarted := gameStarted s; isGameOver := isGameOver s;
     invulnerable := invulnerable s; lastPlayerShotAt := lastPlayerShotAt s;
     score := score s; health := health s; maxHealth := maxHealth s;
     lives := lives s; wave := wave s; enemiesPerWave := enemiesPerWave s;
     timers := timers s; nextTimer := nextTimer s; spawned := spawned s;
     rnd := rnd s; console := console s; display := display s;
     scoreText := scoreText s; healthText := healthText s;
     livesText := livesText s |}.
Definition set_enemyBullets (v : list nat) (s : State) : State :=
  {| ents := ents s; nextId := nextId s; worm := worm s; enemies := enemies s;
     playerBullets := playerBullets s; enemyBullets := v; hearts := hearts s;
     gameStarted := gameStarted s; isGameOver := isGameOver s;
     invulnerable := invulnerable s; lastPlayerShotAt := lastPlayerShotAt s;
     score := score s; health := health s; maxHealth := maxHealth s;
     lives := lives s; wave := wave s; enemiesPerWave := enemiesPerWave s;
     timers := timers s; nextTimer := nextTimer s; spawned := spawned s;
     rnd := rnd s; console := console s; display := display s;
     scoreText := scoreText s; healthText := healthText s;
     livesText := livesText s |}.
Definition set_hearts (v : list nat) (s : State) : State :=
  {| ents := ents s; nextId := nextId s; worm := worm s; enemies := enemies s;
     playerBullets := playerBullets s; enemyBullets := enemyBullets s;
     hearts := v; gameStarted := gameStarted s; isGameOver := isGameOver s;
     invulnerable := invulnerable s; lastPlayerShotAt := lastPlayerShotAt s;
     score := score s; health := health s; maxHealth := maxHealth s;
     lives := lives s; wave := wave s; enemiesPerWave := enemiesPerWave s;
     timers := timers s; nextTimer := nextTimer s; spawned := spawned s;
     rnd := rnd s; console := console s; display := display s;
     scoreText := scoreText s; healthText := healthText s;
     livesText := livesText s |}.
Definition set_gameStarted (v : bool) (s : State) : State :=
  {| ents := ents s; nextId := nextId s; worm := worm s; enemies := enemies s;
     playerBullets := playerBullets s; enemyBullets := enemyBullets s;
     hearts := hearts s; gameStarted := v; isGameOver := isGameOver s;
     invulnerable := invulnerable s; lastPlayerShotAt := lastPlayerShotAt s;
     score := score s; health := health s; maxHealth := maxHealth s;
     lives := lives s; wave := wave s; enemiesPerWave := enemiesPerWave s;
     timers := timers s; nextTimer := nextTimer s; spawned := spawned s;
     rnd := rnd s; console := console s; display := display s;
     scoreText := scoreText s; healthText := healthText s;
     livesText := livesText s |}.
Definition set_isGameOver (v : bool) (s : State) : State :=
  {| ents := ents s; nextId := nextId s; worm := worm s; enemies := enemies s;
     playerBullets := playerBullets s; enemyBullets := enemyBullets s;
     hearts := hearts s; gameStarted := gameStarted s; isGameOver := v;
     invulnerable := invulnerable s; lastPlayerShotAt := lastPlayerShotAt s;
     score := score s; health := health s; maxHealth := maxHealth s;
     lives := lives s; wave := wave s; enemiesPerWave := enemiesPerWave s;
     timers := timers s; nextTimer := nextTimer s; spawned := spawned s;
     rnd := rnd s; console := console s; display := display s;
     scoreText := scoreText s; healthText := healthText s;
     livesText := livesText s |}.
Definition set_invulnerable (v : bool) (s : State) : State :=
  {| ents := ents s; nextId := nextId s; worm := worm s; enemies := enemies s;
     playerBullets := playerBullets s; enemyBullets := enemyBullets s;
     hearts := hearts s; gameStarted := gameStarted s;
     isGameOver := isGameOver s; invulnerable := v;
     lastPlayerShotAt := lastPlayerShotAt s; score := score s;
     health := health s; maxHealth := maxHealth s; lives := lives s;
     wave := wave s; enemiesPerWave := enemiesPerWave s; timers := timers s;
     nextTimer := nextTimer s; spawned := spawned s; rnd := rnd s;
     console := console s; display := display s; scoreText := scoreText s;
     healthText := healthText s; livesText := livesText s |}.
Definition set_lastPlayerShotAt (v : Z) (s : State) : State :=
  {| ents := ents s; nextId := nextId s; worm := worm s; enemies := enemies s;
     playerBullets := playerBullets s; enemyBullets := enemyBullets s;
     hearts := hearts s; gameStarted := gameStarted s;
     isGameOver := isGameOver s; invulnerable := invulnerable s;
     lastPlayerShotAt := v; score := score s; health := health s;
     maxHealth := maxHealth s; lives := lives s; wave := wave s;
     enemiesPerWave := enemiesPerWave s; timers := timers s;
     nextTimer := nextTimer s; spawned := spawned s; rnd := rnd s;
     console := console s; display := display s; scoreText := scoreText s;
     healthText := healthText s; livesText := livesText s |}.
Definition set_score (v : Z) (s : State) : State :=
  {| ents := ents s; nextId := nextId s; worm := worm s; enemies := enemies s;
     playerBullets := playerBullets s; enemyBullets := enemyBullets s;
     hearts := hearts s; gameStarted := gameStarted s;
     isGameOver := isGameOver s; invulnerable := invulnerable s;
     lastPlayerShotAt := lastPlayerShotAt s; score := v; health := health s;
     maxHealth := maxHealth s; lives := lives s; wave := wave s;
     enemiesPerWave := enemiesPerWave s; timers := timers s;
     nextTimer := nextTimer s; spawned := spawned s; rnd := rnd s;
     console := console s; display := display s; scoreText := scoreText s;
     healthText := healthText s; livesText := livesText s |}.
Definition set_health (v : Z) (s : State) : State :=
  {| ents := ents s; nextId := nextId s; worm := worm s; enemies := enemies s;
     playerBullets := playerBullets s; enemyBullets := enemyBullets s;
     hearts := hearts s; gameStarted := gameStarted s;
     isGameOver := isGameOver s; invulnerable := invulnerable s;
     lastPlayerShotAt := lastPlayerShotAt s; score := score s; health := v;
     maxHealth := maxHealth s; lives := lives s; wave := wave s;
     enemiesPerWave := enemiesPerWave s; timers := timers s;
     nextTimer := nextTimer s; spawned := spawned s; rnd := rnd s;
     console := console s; display := display s; scoreText := scoreText s;
     healthText := healthText s; livesText := livesText s |}.
Definition set_lives (v : Z) (s : State) : State :=
  {| ents := ents s; nextId := nextId s; worm := worm s; enemies := enemies s;
     playerBullets := playerBullets s; enemyBullets := enemyBullets s;
     hearts := hearts s; gameStarted := gameStarted s;
     isGameOver := isGameOver s; invulnerable := invulnerable s;
     lastPlayerShotAt := lastPlayerShotAt s; score := score s;
     health := health s; maxHealth := maxHealth s; lives := v; wave := wave s;
     enemiesPerWave := enemiesPerWave s; timers := timers s;
     nextTimer := nextTimer s; spawned := spawned s; rnd := rnd s;
     console := console s; display := display s; scoreText := scoreText s;
     healthText := healthText s; livesText := livesText s |}.
Definition set_wave (v : Z) (s : State) : State :=
  {| ents := ents s; nextId := nextId s; worm := worm s; enemies := enemies s;
     playerBullets := playerBullets s; enemyBullets := enemyBullets s;
     hearts := hearts s; gameStarted := gameStarted s;
     isGameOver := isGameOver s; invulnerable := invulnerable s;
     lastPlayerShotAt := lastPlayerShotAt s; score := score s;
     health := health s; maxHealth := maxHealth s; lives := lives s;
     wave := v; enemiesPerWave := enemiesPerWave s; timers := timers s;
     nextTimer := nextTimer s; spawned := spawned s; rnd := rnd s;
     console := console s; display := display s; scoreText := scoreText s;
     healthText := healthText s; livesText := livesText s |}.
Definition set_enemiesPerWave (v : Z) (s : State) : State :=
  {| ents := ents s; nextId := nextId s; worm := worm s; enemies := enemies s;
     playerBullets := playerBullets s; enemyBullets := enemyBullets s;
     hearts := hearts s; gameStarted := gameStarted s;
     isGameOver := isGameOver s; invulnerable := invulnerable s;
     lastPlayerShotAt := lastPlayerShotAt s; score := score s;
     health := health s; maxHealth := maxHealth s; lives := lives s;
     wave := wave s; enemiesPerWave := v; timers := timers s;
     nextTimer := nextTimer s; spawned := spawned s; rnd := rnd s;
     console := console s; display := display s; scoreText := scoreText s;
     healthText := healthText s; livesText := livesText s |}.
Definition set_timers (v : gmap nat TimerEvent) (s : State) : State :=
  {| ents := ents s; nextId := nextId s; worm := worm s; enemies := enemies s;
     playerBullets := playerBullets s; enemyBullets := enemyBullets s;
     hearts := hearts s; gameStarted := gameStarted s;
     isGameOver := isGameOver s; invulnerable := invulnerable s;
     lastPlayerShotAt := lastPlayerShotAt s; score := score s;
     health := health s; maxHealth := maxHealth s; lives := lives s;
     wave := wave s; enemiesPerWave := enemiesPerWave s; timers := v;
     nextTimer := nextTimer s; spawned := spawned s; rnd := rnd s;
     console := console s; display := display s; scoreText := scoreText s;
     healthText := healthText s; livesText := livesText s |}.
Definition set_nextTimer (v : nat) (s : State) : State :=
  {| ents := ents s; nextId := nextId s; worm := worm s; enemies := enemies s;
     playerBullets := playerBullets s; enemyBullets := enemyBullets s;
     hearts := hearts s; gameStarted := gameStarted s;
     isGameOver := isGameOver s; invulnerable := invulnerable s;
     lastPlayerShotAt := lastPlayerShotAt s; score := score s;
     health := health s; maxHealth := maxHealth s; lives := lives s;
     wave := wave s; enemiesPerWave := enemiesPerWave s; timers := timers s;
     nextTimer := v; spawned := spawned s; rnd := rnd s; console := console s;
     display := display s; scoreText := scoreText s;
     healthText := healthText s; livesText := livesText s |}.
Definition set_spawned (v : gmap nat Z) (s : State) : State :=
  {| ents := ents s; nextId := nextId s; worm := worm s; enemies := enemies s;
     playerBullets := playerBullets s; enemyBullets := enemyBullets s;
     hearts := hearts s; gameStarted := gameStarted s;
     isGameOver := isGameOver s; invulnerable := invulnerable s;
     lastPlayerShotAt := lastPlayerShotAt s; score := score s;
     health := health s; maxHealth := maxHealth s; lives := lives s;
     wave := wave s; enemiesPerWave := enemiesPerWave s; timers := timers s;
     nextTimer := nextTimer s; spawned := v; rnd := rnd s;
     console := console s; display := display s; scoreText := scoreText s;
     healthText := healthText s; livesText := livesText s |}.
Definition set_rnd (v : list Q) (s : State) : State :=
  {| ents := ents s; nextId := nextId s; worm := worm s; enemies := enemies s;
     playerBullets := playerBullets s; enemyBullets := enemyBullets s;
     hearts := hearts s; gameStarted := gameStarted s;
     isGameOver := isGameOver s; invulnerable := invulnerable s;
     lastPlayerShotAt := lastPlayerShotAt s; score := score s;
     health := health s; maxHealth := maxHealth s; lives := lives s;
     wave := wave s; enemiesPerWave := enemiesPerWave s; timers := timers s;
     nextTimer := nextTimer s; spawned := spawned s; rnd := v;
     console := console s; display := display s; scoreText := scoreText s;
     healthText := healthText s; livesText := livesText s |}.
Definition set_console (v : list (list string)) (s : State) : State :=
  {| ents := ents s; nextId := nextId s; worm := worm s; enemies := enemies s;
     playerBullets := playerBullets s; enemyBullets := enemyBullets s;
     hearts := hearts s; gameStarted := gameStarted s;
     isGameOver := isGameOver s; invulnerable := invulnerable s;
     lastPlayerShotAt := lastPlayerShotAt s; score := score s;
     health := health s; maxHealth := maxHealth s; lives := lives s;
     wave := wave s; enemiesPerWave := enemiesPerWave s; timers := timers s;
     nextTimer := nextTimer s; spawned := spawned s; rnd := rnd s;
     console := v; display := display s; scoreText := scoreText s;
     healthText := healthText s; livesText := livesText s |}.
Definition set_display (v : list Widget) (s : State) : State :=
  {| ents := ents s; nextId := nextId s; worm := worm s; enemies := enemies s;
     playerBullets := playerBullets s; enemyBullets := enemyBullets s;
     hearts := hearts s; gameStarted := gameStarted s;
     isGameOver := isGameOver s; invulnerable := invulnerable s;
     lastPlayerShotAt := lastPlayerShotAt s; score := score s;
     health := health s; maxHealth := maxHealth s; lives := lives s;
     wave := wave s; enemiesPerWave := enemiesPerWave s; timers := timers s;
     nextTimer := nextTimer s; spawned := spawned s; rnd := rnd s;
     console := console s; display := v; scoreText := scoreText s;
     healthText := healthText s; livesText := livesText s |}.
Definition set_scoreText (v : Z) (s : State) : State :=
  {| ents := ents s; nextId := nextId s; worm := worm s; enemies := enemies s;
     playerBullets := playerBullets s; enemyBullets := enemyBullets s;
     hearts := hearts s; gameStarted := gameStarted s;
     isGameOver := isGameOver s; invulnerable := invulnerable s;
     lastPlayerShotAt := lastPlayerShotAt s; score := score s;
     health := health s; maxHealth := maxHealth s; lives := lives s;
     wave := wave s; enemiesPerWave := enemiesPerWave s; timers := timers s;
     nextTimer := nextTimer s; spawned := spawned s; rnd := rnd s;
     console := console s; display := display s; scoreText := v;
     healthText := healthText s; livesText := livesText s |}.
Definition set_healthText (v : Z) (s : State) : State :=
  {| ents := ents s; nextId := nextId s; worm := worm s; enemies := enemies s;
     playerBullets := playerBullets s; enemyBullets := enemyBullets s;
     hearts := hearts s; gameStarted := gameStarted s;
     isGameOver := isGameOver s; invulnerable := invulnerable s;
     lastPlayerShotAt := lastPlayerShotAt s; score := score s;
     health := health s; maxHealth := maxHealth s; lives := lives s;
     wave := wave s; enemiesPerWave := enemiesPerWave s; timers := timers s;
     nextTimer := nextTimer s; spawned := spawned s; rnd := rnd s;
     console := console s; display := display s; scoreText := scoreText s;
     healthText := v; livesText := livesText s |}.
Definition set_livesText (v : Z) (s : State) : State :=
  {| ents := ents s; nextId := nextId s; worm := worm s; enemies := enemies s;
     playerBullets := playerBullets s; enemyBullets := enemyBullets s;
     hearts := hearts s; gameStarted := gameStarted s;
     isGameOver := isGameOver s; invulnerable := invulnerable s;
     lastPlayerShotAt := lastPlayerShotAt s; score := score s;
     health := health s; maxHealth := maxHealth s; lives := lives s;
     wave := wave s; enemiesPerWave := enemiesPerWave s; timers := timers s;
     nextTimer := nextTimer s; spawned := spawned s; rnd := rnd s;
     console := console s; display := display s; scoreText := scoreText s;
     healthText := healthText s; livesText := v |}.

(** ** Computations of the scene: state and exceptions *)

Inductive Result (A : Type) : Type :=
| Ok (a : A) (s : State)
| Threw (err : string) (s : State).
Arguments Ok {A} a s.
Arguments Threw {A} err s.

Definition M (A : Type) : Type := State → Result A.

Definition ret {A : Type} (a : A) : M A := λ s, Ok a s.
Definition bind {A B : Type} (m : M A) (k : A → M B) : M B :=
  λ s, match m s with
       | Ok a s' => k a s'
       | Threw err s' => Threw err s'
       end.
Definition get : M State := λ s, Ok s s.
Definition modify (f : State → State) : M unit := λ s, Ok tt (f s).
Definition throw {A : Type} (err : string) : M A := λ s, Threw err s.

(** try { m } catch (err) { handler err } *)
Definition try_catch (m : M unit) (handler : string → M unit) : M unit :=
  λ s, match m s with
       | Ok a s' => Ok a s'
       | Threw err s' => handler err s'
       end.

Declare Scope game_scope.
Delimit Scope game_scope with game.
Notation "'let*' x ':=' m 'in' k" := (bind m (λ x, k))
  (at level 10, x name, m at level 100, k at level 200) : game_scope.
Notation "m '>>' k" := (bind m (λ _, k))
  (at level 90, right associativity) : game_scope.
Local Open Scope game_scope.

(** The state a computation ends in, whether it returned or raised. *)
Definition final {A : Type} (r : Result A) : State :=
  match r with Ok _ s => s | Threw _ s => s end.
Definition returns {A : Type} (r : Result A) : bool :=
  match r with Ok _ _ => true | Threw _ _ => false end.

(** Iteration over a fixed list. *)
Fixpoint forEach {A : Type} (l : list A) (f : A → M unit) : M unit :=
  match l with
  | [] => ret tt
  | a :: l' => f a >> forEach l' f
  end.

(** [for (const x of arr)] on an array that the body may change: the
    array iterator reads [arr[i]] on the array as it is when round [i]
    starts and stops when [i] is past its end.  [fuel] bounds the number
    of rounds. *)
Fixpoint forOfFrom (fuel : nat) (arr : State → list nat) (i : nat)
    (f : nat → M unit) : M unit :=
  match fuel with
  | O => throw "for-of: out of fuel"
  | S fuel' => λ s,
      match arr s !! i with
      | None => Ok tt s
      | Some a => (f a >> forOfFrom fuel' arr (S i) f) s
      end
  end.

(** The scene's loops run over [group.getChildren()].  With [live] the
    call hands out the group's own children array (Phaser 3 keeps the
    children in a [Structs.Set] and returns its [entries]), so a child
    destroyed by the body leaves the array under the iterator; without,
    it hands out a copy. *)
Definition forOf (live : bool) (arr : State → list nat) (f : nat → M unit)
    : M unit :=
  λ s, if live then forOfFrom (S (length (arr s))) arr 0 f s
       else forEach (arr s) f s.

(** ** The engine as the scene uses it *)

Definition warn (args : list string) : M unit :=
  modify (λ s, set_console (console s ++ [args]) s).

(** [obj?.active] as a condition; an unknown handle has no properties. *)
Definition is_active (s : State) (o : nat) : bool :=
  match ents s !! o with
  | Some e => active e
  | None => false
  end.
Definition truthy_active (s : State) (obj : option nat) : bool :=
  match obj with
  | Some o => is_active s o
  | None => false
  end.
Definition has_body (s : State) (o : nat) : bool :=
  match ents s !! o with
  | Some e => body e
  | None => false
  end.

Definition alter_entity (f : Entity → Entity) (o : nat) : State → State :=
  λ s, set_ents (alter f o (ents s)) s.

Inductive Group : Type := Enemies | PlayerBullets | EnemyBullets | Hearts.

Global Instance Group_eq_dec : EqDecision Group.
Proof. solve_decision. Defined.

Definition getChildren (g : Group) (s : State) : list nat :=
  match g with
  | Enemies => enemies s
  | PlayerBullets => playerBullets s
  | EnemyBullets => enemyBullets s
  | Hearts => hearts s
  end.
Definition set_children (g : Group) (v : list nat) : State → State :=
  match g with
  | Enemies => set_enemies v
  | PlayerBullets => set_playerBullets v
  | EnemyBullets => set_enemyBullets v
  | Hearts => set_hearts v
  end.

(** [Set.delete]: [indexOf] then [splice(index, 1)]. *)
Fixpoint splice_out (o : nat) (l : list nat) : list nat :=
  match l with
  | [] => []
  | a :: l' => if decide (a = o) then l' else a :: splice_out o l'
  end.

(** Every group listens to the destroy event of its children. *)
Definition detach (o : nat) (s : State) : State :=
  set_hearts (splice_out o (hearts s))
    (set_enemyBullets (splice_out o (enemyBullets s))
       (set_playerBullets (splice_out o (playerBullets s))
          (set_enemies (splice_out o (enemies s)) s))).

(** [timer.remove(false)] *)
Definition removeTimer (t : nat) (s : State) : State :=
  set_timers (delete t (timers s)) s.

(** [GameObject.destroy()]: the destroy event reaches the groups and the
    handler registered with [once('destroy', ...)], then the object is
    inactive for good. *)
Definition gameObjectDestroy (o : nat) : M unit :=
  λ s, match ents s !! o with
       | None => Ok tt s
       | Some e =>
           let s1 := detach o s in
           let s2 := match onDestroy e with
                     | Some t => removeTimer t s1
                     | None => s1
                     end in
           Ok tt (alter_entity (set_active false) o s2)
       end.

(** The call [obj.destroy()]. *)
Definition callDestroy (o : nat) : M unit :=
  λ s, match destroyFn <$> ents s !! o with
       | Some Destroys => gameObjectDestroy o s
       | Some (Throws err) => Threw err s
       | _ => Threw "TypeError: obj.destroy is not a function" s
       end.

(** [typeof obj.destroy === 'function'] *)
Definition destroy_is_function (s : State) (o : nat) : bool :=
  match destroyFn <$> ents s !! o with
  | Some Destroys | Some (Throws _) => true
  | _ => false
  end.

(** [group.create(x, y, key)] *)
Definition groupCreate (g : Group) (px py : Z) : M nat :=
  λ s, let o := nextId s in
       Ok o (set_children g (getChildren g s ++ [o])
               (set_nextId (S o)
                  (set_ents (<[o := newObject px py]> (ents s)) s))).

(** [group.clear(true, true)]: every child is destroyed, then the
    children set is emptied. *)
Definition groupClear (g : Group) : M unit :=
  let* s := get in
  forEach (getChildren g s) callDestroy >> modify (set_children g []).

(** [group.countActive(true)] *)
Definition countActive (g : Group) (s : State) : Z :=
  Z.of_nat (length (filter (λ o, is_active s o = true) (getChildren g s))).

(** [this.time.addEvent({ delay, loop, callback })] *)
Definition addEvent (d : Z) (lp : bool) (cb : Callback) : M nat :=
  λ s, let t := nextTimer s in
       Ok t (set_nextTimer (S t)
               (set_timers (<[t := mkTimer d lp 0 cb]> (timers s)) s)).
Definition delayedCall (d : Z) (cb : Callback) : M nat := addEvent d false cb.

(** [Math.random()]: the next value of the stream. *)
Definition random : M Q :=
  λ s, match rnd s with
       | [] => Ok 0%Q s
       | r :: rs => Ok r (set_rnd rs s)
       end.

(** [Phaser.Math.Between(min, max)] is
    [Math.floor(Math.random() * (max - min + 1) + min)].  The product and
    the sum are exact here; the program computes them in doubles, where
    for a value of [Math.random()] next to 1 the sum rounds up to
    [max + 1], which the floor keeps (for 60 and 285, 1200 and 2200,
    7000 and 10000, not for 80 and 365).  The results of the program lie
    from [min] to [max + 1], those of this definition from [min] to
    [max]; where the program reaches [max + 1], the statements on a
    result bound it by [max + 1]. *)
Definition Between (lo hi : Z) : M Z :=
  let* r := random in
  ret (Qfloor (r * inject_Z (hi - lo + 1) + inject_Z lo)).

(** [Phaser.Math.Clamp(value, min, max)] is
    [Math.max(min, Math.min(max, value))]. *)
Definition Clamp (value lo hi : Z) : Z := Z.max lo (Z.min hi value).

(** ** Helpers of the scene *)

(** [updateUI]: the three texts.  [String.prototype.repeat] raises a
    [RangeError] on a negative count. *)
Definition updateUI : M unit :=
  let* s := get in
  modify (set_scoreText (score s)) >>
  modify (set_healthText (Z.max 0 (health s))) >>
  if lives s <? 0 then throw "RangeError: Invalid count value"
  else modify (set_livesText (lives s)).

(** Safe destroy wrapper: prevents destroying worm and checks active. *)
Definition safeDestroy (obj : option nat) : M unit :=
  match obj with
  | None => ret tt
  | Some o =>
      let* s := get in
      if decide (o = worm s) then
        warn ["safeDestroy blocked: attempted to destroy player worm."]
      else if bool_decide (active <$> ents s !! o = Some false) then ret tt
      else
        try_catch
          (if destroy_is_function s o then callDestroy o else ret tt)
          (λ err, warn ["safeDestroy error"; err])
  end.

(** [shootAt]: one player bullet above the worm.  The target only
    decides the bullet's velocity and rotation. *)
Definition shootAt : M unit :=
  let* s := get in
  if negb (gameStarted s) || isGameOver s then ret tt
  else if negb (is_active s (worm s)) then ret tt
  else
    match ents s !! worm s with
    | Some w =>
        let* b := groupCreate PlayerBullets (pos_x w) (pos_y w - 14) in
        ret tt
    | None => ret tt
    end.

Definition spawnDelay (w : Z) : Z := Z.max 220 (900 - Z.min (w * 60) 600).

(** [spawnWave]: the variable [spawned] of this call and the two timers
    that share it.  The cell of [spawned] is named after the spawn timer. *)
Definition spawnWave : M unit :=
  let* s := get in
  if negb (gameStarted s) || isGameOver s then ret tt
  else
    let count := enemiesPerWave s in
    let cell := nextTimer s in
    modify (λ s', set_spawned (<[cell := 0]> (spawned s')) s') >>
    let* spawnTimer := addEvent (spawnDelay (wave s)) true
                         (SpawnTick cell count) in
    let* checkWaveTimer := addEvent 500 true (CheckWave cell count) in
    ret tt.

Definition spawnHeart : M unit :=
  let* py := Between 80 (scale_height - 140) in
  let* heart := groupCreate Hearts (-20) py in
  ret tt.

Definition addScore (n : Z) : M unit :=
  modify (λ s, set_score (score s + n) s) >> updateUI.

Definition endGame : M unit :=
  let* s := get in
  if isGameOver s then ret tt
  else
    modify (set_isGameOver true) >>
    modify (set_gameStarted false) >>
    groupClear PlayerBullets >>
    groupClear EnemyBullets >>
    groupClear Hearts >>
    modify (λ s', set_display
                    (display s' ++ [GameOverPanel; GameOverTitle;
                                    FinalScore (score s'); RestartButton])
                    s').

(** [this.worm.setTint(c)] and [clearTint()], under
    [if (this.worm && this.worm.active)]. *)
Definition tintWorm (c : option Z) : M unit :=
  let* s := get in
  if is_active s (worm s) then modify (alter_entity (set_tint c) (worm s))
  else ret tt.

(** lose one life (not health) *)
Definition loseLife : M unit :=
  let* s := get in
  if isGameOver s then ret tt
  else
    modify (set_invulnerable true) >>
    tintWorm (Some 16737894) >>
    let* t := delayedCall INVULNERABLE_MS_AFTER_HIT InvulnerableOff in
    modify (λ s', set_lives (lives s' - 1) s') >>
    let* s' := get in
    if lives s' <=? 0 then modify (set_lives 0) >> endGame
    else updateUI.

Definition heal (amount : Z) : M unit :=
  let* s := get in
  if isGameOver s then ret tt
  else
    modify (set_health (Clamp (health s + amount) 0 (maxHealth s))) >>
    updateUI.

(** The off-screen test of each loop of [cleanupObjects]. *)
Definition offScreen (g : Group) (o : Entity) : bool :=
  match g with
  | PlayerBullets =>
      (pos_y o <? -80) || (pos_x o <? -80) || (scale_width + 80 <? pos_x o)
  | EnemyBullets =>
      (scale_height + 200 <? pos_y o) || (pos_x o <? -200)
      || (scale_width + 200 <? pos_x o)
  | Enemies => scale_width + 160 <? pos_x o
  | Hearts => scale_width + 60 <? pos_x o
  end.

(** One round of a loop of [cleanupObjects]. *)
Definition cleanupOne (g : Group) (o : nat) : M unit :=
  let* s := get in
  match ents s !! o with
  | Some e =>
      if negb (active e) then ret tt
      else if offScreen g e then safeDestroy (Some o)
      else ret tt
  | None => ret tt
  end.

Definition cleanupGroup (live : bool) (g : Group) : M unit :=
  forOf live (getChildren g) (cleanupOne g).

Definition cleanupObjects (live : bool) : M unit :=
  cleanupGroup live PlayerBullets >>
  cleanupGroup live EnemyBullets >>
  cleanupGroup live Enemies >>
  cleanupGroup live Hearts.

(** ** The overlap callbacks registered in [create] *)

(** player bullets -> enemy *)
Definition onBulletEnemy (playerB enemyObj : option nat) : M unit :=
  let* s := get in
  if negb (truthy_active s playerB) || negb (truthy_active s enemyObj)
  then ret tt
  else if decide (enemyObj = Some (worm s)) then
    warn ["Attempted to destroy worm as enemy — blocked."]
  else
    safeDestroy playerB >> safeDestroy enemyObj >> addScore 10.

(** player bullets -> enemy bullets (intercept) *)
Definition onBulletEnemyBullet (playerB enemyB : option nat) : M unit :=
  (let* s := get in
   if truthy_active s playerB then safeDestroy playerB else ret tt) >>
  (let* s := get in
   if truthy_active s enemyB then safeDestroy enemyB else ret tt).

(** enemy bullets -> worm (lose life) *)
Definition onEnemyBulletWorm (enemyB wormObj : option nat) : M unit :=
  (let* s := get in
   if truthy_active s enemyB then safeDestroy enemyB else ret tt) >>
  let* s := get in
  if invulnerable s || isGameOver s then ret tt
  else loseLife.

(** enemies -> worm (each enemy only once) *)
Definition onEnemyWorm (enemyObj wormObj : option nat) : M unit :=
  let* s := get in
  match enemyObj with
  | Some enemy =>
      if negb (is_active s enemy) then ret tt
      else if bool_decide (hasHit <$> ents s !! enemy = Some (Some true))
      then ret tt
      else if invulnerable s || isGameOver s then ret tt
      else
        modify (alter_entity (set_hasHit (Some true)) enemy) >>
        loseLife >>
        safeDestroy (Some enemy)
  | None => ret tt
  end.

(** player bullets -> hearts (collect by shooting) *)
Definition onBulletHeart (pbObj heartObj : option nat) : M unit :=
  (let* s := get in
   if truthy_active s pbObj then safeDestroy pbObj else ret tt) >>
  let* s := get in
  if truthy_active s heartObj then
    safeDestroy heartObj >> heal HEART_HEAL_AMOUNT
  else ret tt.

(** mouse click shoots toward pointer *)
Definition onPointerDown : M unit :=
  let* s := get in
  if negb (gameStarted s) || isGameOver s then ret tt else shootAt.

(** ** The callbacks of the timer events *)

Definition invulnerableOff : M unit :=
  modify (set_invulnerable false) >> tintWorm None.

Definition spawnedAt (cell : nat) (s : State) : Z :=
  default 0 (spawned s !! cell).

Definition lt_random (r c : Q) : bool :=
  if Qlt_le_dec r c then true else false.

(** The callback of [spawnTimer]; [t] is the timer itself. *)
Definition spawnTick (t cell : nat) (count : Z) : M unit :=
  let* s := get in
  if isGameOver s || (count <=? spawnedAt cell s) then modify (removeTimer t)
  else
    let* py := Between 60 (Z.max 120 (scale_height - 220)) in
    let* enemy := groupCreate Enemies (-40) py in
    modify (alter_entity (set_hasHit (Some false)) enemy) >>
    let shooterChance := if 3 <=? wave s then (45 # 100)%Q else 0%Q in
    let* r := random in
    let shooter := lt_random r shooterChance in
    modify (alter_entity (set_isShooter (Some shooter)) enemy) >>
    (if shooter then
       let* d := Between 1200 2200 in
       let* shootTimer :=
         addEvent (d - Z.min ((wave s - 3) * 50) 500) true
           (EnemyShoot enemy) in
       modify (alter_entity (set_onDestroy (Some shootTimer)) enemy)
     else ret tt) >>
    modify (λ s', set_spawned (<[cell := spawnedAt cell s' + 1]> (spawned s'))
                    s').

(** The callback of a shooter's [shootTimer]. *)
Definition enemyShoot (t enemy : nat) : M unit :=
  let* s := get in
  if negb (is_active s enemy) || isGameOver s then modify (removeTimer t)
  else
    match ents s !! enemy with
    | Some e =>
        let* eb := groupCreate EnemyBullets (pos_x e + 8) (pos_y e) in
        ret tt
    | None => ret tt
    end.

(** The callback of [checkWaveTimer]. *)
Definition checkWave (t cell : nat) (count : Z) : M unit :=
  let* s := get in
  if isGameOver s then modify (removeTimer t)
  else if (count <=? spawnedAt cell s) && (countActive Enemies s =? 0) then
    modify (removeTimer t) >>
    modify (λ s', set_wave (wave s' + 1) s') >>
    modify (λ s', set_enemiesPerWave (Z.min 12 (enemiesPerWave s' + 1)) s') >>
    let* t' := delayedCall 700 NextWave in
    ret tt
  else ret tt.

Definition nextWave : M unit :=
  let* s := get in
  if negb (isGameOver s) then spawnWave else ret tt.

Definition heartTick : M unit :=
  let* s := get in
  if negb (gameStarted s) || isGameOver s then ret tt else spawnHeart.

Definition fire (t : nat) (cb : Callback) : M unit :=
  match cb with
  | InvulnerableOff => invulnerableOff
  | SpawnTick cell count => spawnTick t cell count
  | CheckWave cell count => checkWave t cell count
  | NextWave => nextWave
  | EnemyShoot enemy => enemyShoot t enemy
  | HeartTick => heartTick
  end.

(** ** The scene clock *)

(** One timer in [Clock.update]: the elapsed time grows by the frame's
    delta; at the delay the callback runs, then a looping timer keeps the
    remainder and any other is dropped.  A timer removed meanwhile is
    passed over. *)
Definition stepTimer (delta : Z) (t : nat) : M unit :=
  let* s := get in
  match timers s !! t with
  | None => ret tt
  | Some ev =>
      let total := elapsed ev + delta in
      if delay ev <=? total then
        modify (set_timers (<[t := set_elapsed (delay ev) ev]> (timers s))) >>
        fire t (callback ev) >>
        modify (λ s', match timers s' !! t with
                      | Some ev' =>
                          if loop ev' then
                            set_timers
                              (<[t := set_elapsed (total - delay ev) ev']>
                                 (timers s')) s'
                          else removeTimer t s'
                      | None => s'
                      end)
      else modify (set_timers (<[t := set_elapsed total ev]> (timers s)))
  end.

(** The timers created during the update start with the next one. *)
Definition clockUpdate (delta : Z) : M unit :=
  let* s := get in
  forEach (seq 0 (nextTimer s)) (stepTimer delta).

(** ** [update], [create] and [startGame] *)

Definition PLAYER_SHOOT_COOLDOWN : Z := 160.

Record Input : Type := mkInput {
  spaceJustDown : bool;      (* Phaser.Input.Keyboard.JustDown(keySpace) *)
  spaceDown : bool           (* keySpace.isDown *)
}.

(** [update(time)].  Setting the worm's velocity and steering the enemies
    change velocities only. *)
Definition update (live : bool) (time : Z) (inp : Input) : M unit :=
  let* s := get in
  if negb (gameStarted s) || isGameOver s then ret tt
  else if negb (has_body s (worm s)) then ret tt
  else
    (if spaceJustDown inp && negb (isGameOver s) then
       shootAt >> modify (set_lastPlayerShotAt time)
     else if spaceDown inp
             && (PLAYER_SHOOT_COOLDOWN <? time - lastPlayerShotAt s) then
       shootAt >> modify (set_lastPlayerShotAt time)
     else ret tt) >>
    cleanupObjects live >>
    updateUI.

(** The scene after [create]: the worm and four empty groups. *)
Definition created : State :=
  {| ents := {[ 0%nat := newObject 450 394 ]};
     nextId := 1; worm := 0;
     enemies := []; playerBullets := []; enemyBullets := []; hearts := [];
     gameStarted := false; isGameOver := false; invulnerable := false;
     lastPlayerShotAt := 0; score := 0; health := 100; maxHealth := 100;
     lives := 3; wave := 1; enemiesPerWave := 4;
     timers := ∅; nextTimer := 0; spawned := ∅;
     rnd := []; console := []; display := [];
     scoreText := 0; healthText := 100; livesText := 3 |}.

Definition startGame : M unit :=
  modify (set_gameStarted true) >>
  modify (set_isGameOver false) >>
  modify (set_invulnerable false) >>
  modify (set_score 0) >>
  modify (λ s, set_health (maxHealth s) s) >>
  modify (set_lives 3) >>
  modify (set_wave 1) >>
  modify (set_enemiesPerWave 4) >>
  groupClear Enemies >>
  groupClear PlayerBullets >>
  groupClear EnemyBullets >>
  groupClear Hearts >>
  let* d := Between 7000 10000 in
  let* heartTimer := addEvent d true HeartTick in
  spawnWave.

(** ** Events of a run *)

Inductive Event : Type :=
| OverlapBulletEnemy (playerB enemyObj : option nat)
| OverlapBulletEnemyBullet (playerB enemyB : option nat)
| OverlapEnemyBulletWorm (enemyB wormObj : option nat)
| OverlapEnemyWorm (enemyObj wormObj : option nat)
| OverlapBulletHeart (pbObj heartObj : option nat)
| PointerDown
| Update (time : Z) (inp : Input)
| ClockUpdate (delta : nat) (rs : list Q)
| Moved (o : nat) (px py : Z)
| DestroyRequest (obj : option nat).

Definition step (live : bool) (ev : Event) : M unit :=
  match ev with
  | OverlapBulletEnemy a b => onBulletEnemy a b
  | OverlapBulletEnemyBullet a b => onBulletEnemyBullet a b
  | OverlapEnemyBulletWorm a b => onEnemyBulletWorm a b
  | OverlapEnemyWorm a b => onEnemyWorm a b
  | OverlapBulletHeart a b => onBulletHeart a b
  | PointerDown => onPointerDown
  | Update time inp => update live time inp
  | ClockUpdate delta rs =>
      modify (set_rnd rs) >> clockUpdate (Z.of_nat delta)
  | Moved o px py => modify (alter_entity (set_pos px py) o)
  | DestroyRequest obj => safeDestroy obj
  end.

(** A run: the events in order; an exception that leaves a callback
    ends it. *)
Definition run (live : bool) (evs : list Event) : M unit :=
  forEach evs (step live).

(** * Invariants of a run *)

(** A child of a group is a live engine object other than the worm. *)
Definition member_ok (s : State) (o : nat) : Prop :=
  o ≠ worm s ∧
  ∃ e, ents s !! o = Some e ∧ destroyFn e = Destroys ∧ active e = true.

(** Well-formed scenes: the worm is alive and outside every group, the
    groups hold live objects without repetition and share none, handles
    below [nextId] only are in use, and [lives] is not negative. *)
Record wf (s : State) : Prop := mk_wf {
  wf_worm : is_active s (worm s) = true;
  wf_fresh : ∀ o, is_Some (ents s !! o) → (o < nextId s)%nat;
  wf_members : ∀ g, Forall (member_ok s) (getChildren g s);
  wf_nodup : ∀ g, NoDup (getChildren g s);
  wf_disjoint :
    ∀ g g' o, g ≠ g' → o ∈ getChildren g s → o ∉ getChildren g' s;
  wf_lives : 0 ≤ lives s
}.

(** The state after [GameObject.destroy()] on [o] with fields [e]. *)
Definition destroyed (o : nat) (e : Entity) (s : State) : State :=
  alter_entity (set_active false) o
    (match onDestroy e with
     | Some t => removeTimer t (detach o s)
     | None => detach o s
     end).

Definition warned (args : list string) (s : State) : State :=
  set_console (console s ++ [args]) s.

(** What [safeDestroy obj] can do to a scene. *)
Inductive safeDestroy_outcome (obj : option nat) (s : State)
    : State → Prop :=
| sd_null : obj = None → safeDestroy_outcome obj s s
| sd_blocked :
    obj = Some (worm s) →
    safeDestroy_outcome obj s
      (warned ["safeDestroy blocked: attempted to destroy player worm."] s)
| sd_inactive o :
    obj = Some o → o ≠ worm s → active <$> ents s !! o = Some false →
    safeDestroy_outcome obj s s
| sd_not_function o :
    obj = Some o → o ≠ worm s → destroy_is_function s o = false →
    safeDestroy_outcome obj s s
| sd_caught o e err :
    obj = Some o → o ≠ worm s → ents s !! o = Some e → active e = true →
    destroyFn e = Throws err →
    safeDestroy_outcome obj s (warned ["safeDestroy error"; err] s)
| sd_destroyed o e :
    obj = Some o → o ≠ worm s → ents s !! o = Some e → active e = true →
    destroyFn e = Destroys →
    safeDestroy_outcome obj s (destroyed o e s).

(** The state after [group.create(px, py, key)]; the new object has the
    handle [nextId s]. *)
Definition created_in (g : Group) (px py : Z) (s : State) : State :=
  set_children g (getChildren g s ++ [nextId s])
    (set_nextId (S (nextId s))
       (set_ents (<[nextId s := newObject px py]> (ents s)) s)).

(** How many times the scene has drawn the game-over title. *)
Fixpoint game_over_titles (d : list Widget) : nat :=
  match d with
  | [] => 0
  | GameOverTitle :: d' => S (game_over_titles d')
  | _ :: d' => game_over_titles d'
  end.

(** The bookkeeping of a run, with the values it is measured against:
    the worm is [w], [maxHealth] is [m], [lives] is at most [n], a run
    that was over ([over]) stays over, and with [hfix = Some h] the
    health is [h]. *)
Record combat_inv (w : nat) (m n : Z) (over : bool) (hfix : option Z)
    (s : State) : Prop := mk_combat_inv {
  ci_worm : worm s = w;
  ci_maxHealth : maxHealth s = m;
  ci_lives : 0 ≤ lives s ≤ n;
  ci_health : 0 ≤ health s ≤ maxHealth s;
  ci_over : over = true → isGameOver s = true;
  ci_zero : lives s = 0 ↔ isGameOver s = true;
  ci_display :
    game_over_titles (display s) = if isGameOver s then 1%nat else 0%nat;
  ci_cleared :
    isGameOver s = true →
    playerBullets s = [] ∧ enemyBullets s = [] ∧ hearts s = [];
  ci_hfix : ∀ h, hfix = Some h → health s = h
}.

(** What [group.clear] and the like leave alone: the bookkeeping fields,
    and every group that was empty. *)
Record stable (s s' : State) : Prop := mk_stable {
  st_worm : worm s' = worm s;
  st_maxHealth : maxHealth s' = maxHealth s;
  st_lives : lives s' = lives s;
  st_health : health s' = health s;
  st_isGameOver : isGameOver s' = isGameOver s;
  st_display : display s' = display s;
  st_empty : ∀ g, getChildren g s = [] → getChildren g s' = []
}.

(** Every event but the collection of a heart keeps the health. *)
Definition keeps_health (ev : Event) : bool :=
  match ev with
  | OverlapBulletHeart _ _ => false
  | _ => true
  end.

(** The invulnerability window and the hit marks.  [pending] is the
    timer of the window in flight, with the time it has counted, if
    there is one; [hit] is an object whose [hasHit] is true.  Timer
    handles below [nextTimer] only are in use, and no [once('destroy')]
    handler holds the timer of the window. *)
Record timer_inv (pending : option (nat * Z)) (hit : option nat)
    (s : State) : Prop := mk_timer_inv {
  ti_dom : ∀ t, is_Some (timers s !! t) → (t < nextTimer s)%nat;
  ti_link :
    ∀ o e t, ents s !! o = Some e → onDestroy e = Some t →
             (t < nextTimer s)%nat ∧
             ∀ ev, timers s !! t = Some ev → callback ev ≠ InvulnerableOff;
  ti_none :
    pending = None →
    invulnerable s = false ∧
    ∀ t ev, timers s !! t = Some ev → callback ev ≠ InvulnerableOff;
  ti_pending :
    ∀ t r, pending = Some (t, r) →
           invulnerable s = true ∧
           timers s !! t
           = Some (mkTimer INVULNERABLE_MS_AFTER_HIT false r InvulnerableOff) ∧
           ∀ t' ev, timers s !! t' = Some ev →
                    callback ev = InvulnerableOff → t' = t;
  ti_hit :
    ∀ o, hit = Some o →
         (o < nextId s)%nat ∧ hasHit <$> ents s !! o = Some (Some true)
}.

(** The window after one timer of [Clock.update] ([window_step]) and
    after a whole update ([window_tick]) with the frame's [delta]. *)
Definition window_tick (delta : Z) (p : option (nat * Z))
    : option (nat * Z) :=
  match p with
  | Some (tp, r) =>
      if INVULNERABLE_MS_AFTER_HIT <=? r + delta then None
      else Some (tp, r + delta)
  | None => None
  end.
Definition window_step (delta : Z) (p : option (nat * Z)) (t : nat)
    : option (nat * Z) :=
  match p with
  | Some (tp, r) => if decide (t = tp) then window_tick delta p else p
  | None => None
  end.

(** A life-loss event that the scene accepts: the worm is vulnerable, the
    run is on, and for an enemy contact the enemy is active and has not
    hit yet. *)
Definition accepts_hit (s : State) (ev : Event) : bool :=
  match ev with
  | OverlapEnemyBulletWorm _ _ => negb (invulnerable s || isGameOver s)
  | OverlapEnemyWorm (Some e) _ =>
      is_active s e
      && negb (bool_decide (hasHit <$> ents s !! e = Some (Some true)))
      && negb (invulnerable s || isGameOver s)
  | _ => false
  end.

(** The window after an event. *)
Definition window_after (s : State) (ev : Event) (p : option (nat * Z))
    : option (nat * Z) :=
  match ev with
  | ClockUpdate delta _ => window_tick (Z.of_nat delta) p
  | _ =>
      match p with
      | Some _ => p
      | None => if accepts_hit s ev then Some (nextTimer s, 0) else None
      end
  end.

(** The milliseconds the clock counts over a list of events. *)
Fixpoint elapsed_ms (evs : list Event) : Z :=
  match evs with
  | [] => 0
  | ClockUpdate delta _ :: evs' => Z.of_nat delta + elapsed_ms evs'
  | _ :: evs' => elapsed_ms evs'
  end.

(** Consistent scenes: what every scene of a run satisfies. *)
Record consistent (s : State) : Prop := mk_consistent {
  cs_wf : wf s;
  cs_health : 0 ≤ health s ≤ maxHealth s;
  cs_zero : lives s = 0 ↔ isGameOver s = true;
  cs_display :
    game_over_titles (display s) = if isGameOver s then 1%nat else 0%nat;
  cs_cleared :
    isGameOver s = true →
    playerBullets s = [] ∧ enemyBullets s = [] ∧ hearts s = [];
  cs_window : ∃ p, timer_inv p None s
}.

(** The scene when the start button has been pressed. *)
Definition started : State := final (startGame created).

(** The timers of a wave as [spawnWave] registers them. *)
Definition spawnTimerOf (s : State) : TimerEvent :=
  mkTimer (Z.max 220 (900 - Z.min (wave s * 60) 600)) true 0
    (SpawnTick (nextTimer s) (enemiesPerWave s)).
Definition checkTimerOf (s : State) : TimerEvent :=
  mkTimer 500 true 0 (CheckWave (nextTimer s) (enemiesPerWave s)).

(** The scene with one life left: two enemies have hit, two more are on
    their way and one player projectile is in flight. *)
Definition last_life : State :=
  final (run true
           [ClockUpdate 840 [(1 # 2)%Q; (1 # 2)%Q];
            ClockUpdate 840 [(1 # 2)%Q; (1 # 2)%Q];
            OverlapEnemyWorm (Some 1%nat) (Some 0%nat);
            ClockUpdate 700 [];
            OverlapEnemyWorm (Some 2%nat) (Some 0%nat);
            ClockUpdate 700 [(1 # 2)%Q; (1 # 2)%Q];
            ClockUpdate 700 [(1 # 2)%Q; (1 # 2)%Q];
            PointerDown]
           started).

(** An object is inactive. *)
Definition inactive (o : nat) (s : State) : Prop :=
  ∃ e, ents s !! o = Some e ∧ active e = false.

(** The child before index [i] of a group, if there is one, is on
    screen, so that the cleanup pass keeps it. *)
Definition kept_before (g : Group) (s : State) (i : nat) : Prop :=
  match i with
  | O => True
  | S j =>
      ∃ p ep, getChildren g s !! j = Some p ∧ ents s !! p = Some ep
              ∧ offScreen g ep = false
  end.

(** The cleanup as the specification words it: beyond the margin on any
    side for the projectiles, past the right or the left margin for the
    enemies and the pickups.  The margins are those of [cleanupObjects]. *)
Definition margin (g : Group) : Z :=
  match g with
  | PlayerBullets => 80
  | EnemyBullets => 200
  | Enemies => 160
  | Hearts => 60
  end.
Definition beyond_margin (g : Group) (e : Entity) : Prop :=
  match g with
  | PlayerBullets | EnemyBullets =>
      pos_x e < - margin g ∨ scale_width + margin g < pos_x e
      ∨ pos_y e < - margin g ∨ scale_height + margin g < pos_y e
  | Enemies | Hearts =>
      pos_x e < - margin g ∨ scale_width + margin g < pos_x e
  end.
Definition cleanup_removes_all_beyond (live : bool) : Prop :=
  ∀ s g o e,
    consistent s → o ∈ getChildren g s → ents s !! o = Some e →
    active e = true → beyond_margin g e →
    ∃ s', cleanupObjects live s = Ok tt s' ∧ is_active s' o = false.

(** A player projectile that has left the screen at the bottom. *)
Definition below_screen : State :=
  final (run true [PointerDown; Moved 1 450 10000] started).

(** Two player projectiles that have left the screen at the top. *)
Definition two_above : State :=
  final (run true [PointerDown; PointerDown;
                   Moved 1 450 (-100); Moved 2 450 (-100)] started).

(** One player projectile on screen and one above it. *)
Definition one_above : State :=
  final (run true [PointerDown; PointerDown; Moved 2 450 (-100)] started).

(** The first wave shot down: four enemies spawned, four projectiles
    fired, four hits. *)
Definition wave_cleared : State :=
  final (run true
           [ClockUpdate 840 [(1 # 2)%Q; (1 # 2)%Q];
            ClockUpdate 840 [(1 # 2)%Q; (1 # 2)%Q];
            ClockUpdate 840 [(1 # 2)%Q; (1 # 2)%Q];
            ClockUpdate 840 [(1 # 2)%Q; (1 # 2)%Q];
            PointerDown; PointerDown; PointerDown; PointerDown;
            OverlapBulletEnemy (Some 5%nat) (Some 1%nat);
            OverlapBulletEnemy (Some 6%nat) (Some 2%nat);
            OverlapBulletEnemy (Some 7%nat) (Some 3%nat);
            OverlapBulletEnemy (Some 8%nat) (Some 4%nat)]
           started).

(** A heart has been spawned, and the health is 90. *)
Definition heart_out : State :=
  set_health 90
    (final (run true [ClockUpdate 3500 []; ClockUpdate 3500 [(1 # 2)%Q]]
              started)).

(** An object whose destroy method raises. *)
Definition faulty : State :=
  set_ents (<[9%nat := {| active := true; pos_x := 0; pos_y := 0;
                          body := false; hasHit := None; isShooter := None;
                          tint := None; onDestroy := None;
                          destroyFn := Throws "engine fault" |}]>
              (ents started)) started.

(** * What a run never undoes *)

(** The counters of a run against the scene [s0] it set out from: the
    score has grown by tens, the wave and its quota have not gone back,
    the quota follows the wave if it did at [s0], no handle of an
    object or of a timer has been handed out twice, no object that was
    inactive is active, and the run has not been started. *)
Record ledger (s0 s : State) : Prop := mk_ledger {
  lg_score : score s0 ≤ score s ∧ Z.divide 10 (score s - score s0);
  lg_wave : wave s0 ≤ wave s;
  lg_quota_bounds :
    enemiesPerWave s0 ≤ 12 → enemiesPerWave s0 ≤ enemiesPerWave s ≤ 12;
  lg_quota :
    enemiesPerWave s0 = Z.min 12 (wave s0 + 3) →
    enemiesPerWave s = Z.min 12 (wave s + 3);
  lg_nextId : (nextId s0 ≤ nextId s)%nat;
  lg_nextTimer : (nextTimer s0 ≤ nextTimer s)%nat;
  lg_dead :
    ∀ o, (o < nextId s0)%nat → is_active s o = true → is_active s0 o = true;
  lg_started : gameStarted s = true → gameStarted s0 = true
}.


(** A value of [Math.random()]: in [0, 1). *)
Definition unit_interval (r : Q) : Prop := (0 <= r)%Q ∧ (r < 1)%Q.

(** The run of [last_life] after the contact of enemy 3: it is over. *)
Definition game_over : State :=
  final (run true [OverlapEnemyWorm (Some 3%nat) (Some 0%nat)] last_life).

(** Wave 3 has begun and its first enemy, a shooter, is out. *)
Definition shooter_out : State :=
  final (spawnTick 1 1 4
           (set_rnd [(1 # 2)%Q; (1 # 10)%Q; (1 # 2)%Q] (set_wave 3 started))).

(** The shooter has fired, and so has the player. *)
Definition crossfire : State :=
  final ((enemyShoot 3 1 >> onPointerDown) shooter_out).

(** ** Overlaps of a group with the worm *)

(** For a group against a sprite, [physics.add.overlap(group, sprite, cb)]
    hands [cb] the sprite first and the child of the group second (the
    Arcade world tests such a pair as sprite against group), whatever the
    order of the two in the call.  The sprite of both such overlaps of
    the scene is the worm. *)
Definition overlapGroupSprite (cb : option nat → option nat → M unit)
    (child : nat) : M unit :=
  let* s := get in cb (Some (worm s)) (Some child).

(** The text of the warning of [safeDestroy] on the worm. *)
Definition blocked_warning : list string :=
  ["safeDestroy blocked: attempted to destroy player worm."].

(** ** The cleanup pass over the live children *)

(** The child before index [i] of a group of [s], if there is one, is
    active in [s']: a pass from [s] to [s'] has not removed it
    ([kept_through]); it is inactive in [s']: the pass has removed it
    ([lost_before]).  Children of groups are active. *)
Definition kept_through (g : Group) (s s' : State) (i : nat) : Prop :=
  match i with
  | O => True
  | S j => ∃ p, getChildren g s !! j = Some p ∧ is_active s' p = true
  end.
Definition lost_before (g : Group) (s s' : State) (i : nat) : Prop :=
  match i with
  | O => False
  | S j => ∃ p, getChildren g s !! j = Some p ∧ is_active s' p = false
  end.

(** What the pass over the live children does to two neighbours [p]
    and [o] of a group, [o] off screen with the fields [e]: it removes
    [o] and keeps [p], or it removes [p], skips [o] and so keeps it. *)
Definition pair_outcome (g : Group) (p o : nat) (e : Entity) (s' : State)
    : Prop :=
  wf s'
  ∧ (inactive o s' ∧ p ∈ getChildren g s'
     ∨ inactive p s' ∧ o ∈ getChildren g s' ∧ ents s' !! o = Some e).

(** Three player projectiles that have left the screen at the top. *)
Definition three_above : State :=
  final (run true [PointerDown; PointerDown; PointerDown;
                   Moved 1 450 (-100); Moved 2 450 (-100);
                   Moved 3 450 (-100)] started).

(** Wave 1 has begun: its first enemy is out. *)
Definition enemy_out : State :=
  final (run true [ClockUpdate 840 [(1 # 2)%Q; (1 # 2)%Q]] started).

(** * Reasoning about computations *)

(** [wpx E m Q s]: from [s] the computation [m] returns in a state with
    [Q], or raises in a state with [E]. *)
Definition wpx {A : Type} (E : State → Prop) (m : M A)
    (Q : A → State → Prop) (s : State) : Prop :=
  match m s with
  | Ok a s' => Q a s'
  | Threw _ s' => E s'
  end.

(** Total correctness: [m] returns, and with [Q]. *)
Abbreviation wp := (wpx (λ _, False)).

(** Partial correctness: whatever [m] does, a return satisfies [Q]. *)
Abbreviation wpp := (wpx (λ _, True)).

Section Rules.
Context {A B : Type} (E : State → Prop).

Lemma wpx_ret (a : A) (Q : A → State → Prop) s :
  Q a s → wpx E (ret a) Q s.
Proof. done. Qed.

Lemma wpx_bind (m : M A) (k : A → M B) (Q : B → State → Prop) s :
  wpx E m (λ a s', wpx E (k a) Q s') s → wpx E (bind m k) Q s.
Proof. unfold wpx, bind. by destruct (m s). Qed.

Lemma wpx_get_bind (k : State → M B) (Q : B → State → Prop) s :
  wpx E (k s) Q s → wpx E (bind get k) Q s.
Proof. done. Qed.

Lemma wpx_modify (f : State → State) (Q : unit → State → Prop) s :
  Q tt (f s) → wpx E (modify f) Q s.
Proof. done. Qed.

Lemma wpx_modify_bind (f : State → State) (k : unit → M B)
    (Q : B → State → Prop) s :
  wpx E (k tt) Q (f s) → wpx E (bind (modify f) k) Q s.
Proof. done. Qed.

Lemma wpx_mono (m : M A) (Q Q' : A → State → Prop) s :
  wpx E m Q s → (∀ a s', Q a s' → Q' a s') → wpx E m Q' s.
Proof. unfold wpx. destruct (m s); auto. Qed.

Lemma wpx_returns (m : M A) (Q : A → State → Prop) s :
  wpx (λ _, False) m Q s → ∃ a s', m s = Ok a s' ∧ Q a s'.
Proof. unfold wpx. destruct (m s); [eauto | done]. Qed.

Lemma wpx_of_eq (m : M A) (Q : A → State → Prop) s a s' :
  m s = Ok a s' → Q a s' → wpx E m Q s.
Proof. unfold wpx. by intros ->. Qed.
End Rules.

Lemma wpx_addEvent_bind {B : Type} (E : State → Prop) d lp cb
    (k : nat → M B) (Q : B → State → Prop) s :
  wpx E (k (nextTimer s)) Q
    (set_nextTimer (S (nextTimer s))
       (set_timers (<[nextTimer s := mkTimer d lp 0 cb]> (timers s)) s)) →
  wpx E (bind (addEvent d lp cb) k) Q s.
Proof. done. Qed.

Lemma wpx_groupCreate_bind {B : Type} (E : State → Prop) g px py
    (k : nat → M B) (Q : B → State → Prop) s :
  wpx E (k (nextId s)) Q (created_in g px py s) →
  wpx E (bind (groupCreate g px py) k) Q s.
Proof. done. Qed.

Lemma wpx_inv {A : Type} (E : State → Prop) (m : M A)
    (Q : A → State → Prop) s a s' :
  wpx E m Q s → m s = Ok a s' → Q a s'.
Proof. unfold wpx. intros H Heq. by rewrite Heq in H. Qed.

Lemma wpx_weaken {A : Type} (E E' : State → Prop) (m : M A)
    (Q Q' : A → State → Prop) s :
  wpx E m Q s → (∀ s', E s' → E' s') → (∀ a s', Q a s' → Q' a s') →
  wpx E' m Q' s.
Proof. unfold wpx. destruct (m s); auto. Qed.

Lemma wpx_try_catch (E : State → Prop) (m : M unit) (h : string → M unit)
    (Q : unit → State → Prop) s :
  wpx (λ s', ∀ err, wpx E (h err) Q s') m Q s → wpx E (try_catch m h) Q s.
Proof. unfold wpx, try_catch. destruct (m s); intros H; [exact H | apply H]. Qed.

(** A loop over a fixed list keeps an invariant of its body. *)
Lemma wpx_forEach {A : Type} (E : State → Prop) (I : State → Prop)
    (l : list A) (f : A → M unit) s :
  I s →
  (∀ a s', a ∈ l → I s' → wpx E (f a) (λ _, I) s') →
  wpx E (forEach l f) (λ _, I) s.
Proof.
  revert s. induction l as [|a l IH]; intros s Hs Hf; [done|].
  cbn [forEach]. apply wpx_bind.
  eapply wpx_mono; [apply Hf; [left | done]|].
  intros [] s' Hs'. apply IH; [done|].
  intros b s'' Hb. apply Hf. by right.
Qed.

(** A loop over a live array returns with the invariant of its body when
    the body does not make the array longer. *)
Lemma wpx_forOfFrom (E : State → Prop) (I : State → Prop)
    (arr : State → list nat) (f : nat → M unit) :
  (∀ n a s, I s → (length (arr s) ≤ n)%nat →
            wpx E (f a) (λ _ s', I s' ∧ (length (arr s') ≤ n)%nat) s) →
  ∀ fuel i s, I s → (length (arr s) - i < fuel)%nat →
              wpx E (forOfFrom fuel arr i f) (λ _, I) s.
Proof.
  intros Hf. induction fuel as [|fuel IH]; intros i s Hs Hlen; [lia|].
  cbn [forOfFrom]. unfold wpx at 1.
  destruct (arr s !! i) as [a|] eqn:Hi; [|done].
  apply lookup_lt_Some in Hi.
  fold (wpx E (f a >> forOfFrom fuel arr (S i) f) (λ _, I) s).
  apply wpx_bind.
  eapply wpx_mono; [apply (Hf (length (arr s)) a s Hs); lia|].
  intros [] s' [Hs' Hle]. apply IH; [done | lia].
Qed.

Lemma wpx_forOf (E : State → Prop) (I : State → Prop) (live : bool)
    (arr : State → list nat) (f : nat → M unit) s :
  I s →
  (∀ n a s', I s' → (length (arr s') ≤ n)%nat →
             wpx E (f a) (λ _ s'', I s'' ∧ (length (arr s'') ≤ n)%nat) s') →
  wpx E (forOf live arr f) (λ _, I) s.
Proof.
  intros Hs Hf. unfold wpx, forOf. destruct live.
  - apply (wpx_forOfFrom E I arr f Hf); [done | lia].
  - apply wpx_forEach; [done|].
    intros a s' _ Hs'.
    eapply wpx_mono; [apply (Hf (length (arr s')) a s' Hs'); lia|].
    by intros _ s'' [? _].
Qed.

(** * The scene stays well formed *)

Lemma wf_frame s s' :
  ents s' = ents s → worm s' = worm s → nextId s' = nextId s →
  (∀ g, getChildren g s' = getChildren g s) → 0 ≤ lives s' →
  wf s → wf s'.
Proof.
  intros He Hw Hn Hg Hl [H1 H2 H3 H4 Hdj H5]. split.
  - unfold is_active. by rewrite Hw, He.
  - intros o. rewrite He, Hn. apply H2.
  - intros g. rewrite Hg. unfold member_ok. rewrite Hw, He. apply H3.
  - intros g. rewrite Hg. apply H4.
  - intros g g' o. rewrite !Hg. apply Hdj.
  - done.
Qed.

Lemma splice_out_subseteq o l x : x ∈ splice_out o l → x ∈ l.
Proof.
  induction l as [|a l IH]; cbn; [done|].
  case_decide; [by right|].
  intros [->|?]%elem_of_cons; [left | right; auto].
Qed.

Lemma splice_out_NoDup o l : NoDup l → NoDup (splice_out o l).
Proof.
  induction 1 as [|a l Ha Hl IH]; cbn; [constructor|].
  case_decide; [done|].
  constructor; [|done]. intros ?%splice_out_subseteq. done.
Qed.

Lemma splice_out_not_elem o l : NoDup l → o ∉ splice_out o l.
Proof.
  induction 1 as [|a l Ha Hl IH]; cbn; [apply not_elem_of_nil|].
  case_decide; [by subst|].
  by intros [->|?]%elem_of_cons.
Qed.

Lemma splice_out_length o l : (length (splice_out o l) ≤ length l)%nat.
Proof. induction l; cbn; [lia|]. case_decide; cbn; lia. Qed.

Lemma splice_out_id o l : o ∉ l → splice_out o l = l.
Proof.
  induction l as [|a l IH]; cbn; [done|].
  intros [? ?]%not_elem_of_cons. case_decide; [by subst|]. f_equal. auto.
Qed.

Lemma getChildren_detach g o s :
  getChildren g (detach o s) = splice_out o (getChildren g s).
Proof. by destruct g. Qed.

Lemma getChildren_destroyed g o e s :
  getChildren g (destroyed o e s) = splice_out o (getChildren g s).
Proof. unfold destroyed. by destruct g, (onDestroy e). Qed.

Lemma ents_destroyed o e s :
  ents (destroyed o e s) = alter (set_active false) o (ents s).
Proof. unfold destroyed. by destruct (onDestroy e). Qed.

Lemma wf_destroyed o e s : wf s → o ≠ worm s → wf (destroyed o e s).
Proof.
  intros [H1 H2 H3 H4 Hdj H5] Ho.
  assert (Hw : worm (destroyed o e s) = worm s)
    by (unfold destroyed; by destruct (onDestroy e)).
  assert (Hn : nextId (destroyed o e s) = nextId s)
    by (unfold destroyed; by destruct (onDestroy e)).
  split.
  - unfold is_active in *. rewrite Hw, ents_destroyed.
    by rewrite lookup_alter_ne.
  - intros x. rewrite Hn, ents_destroyed. intros Hx. apply H2.
    destruct (decide (o = x)) as [->|];
      [rewrite lookup_alter_eq in Hx | by rewrite lookup_alter_ne in Hx].
    by apply fmap_is_Some in Hx.
  - intros g. rewrite getChildren_destroyed. apply Forall_forall.
    intros x Hx. pose proof (splice_out_not_elem o _ (H4 g)) as Hne.
    assert (x ≠ o) by (by intros ->).
    apply splice_out_subseteq in Hx.
    pose proof (proj1 (Forall_forall _ _) (H3 g) x Hx) as [? Hm].
    split; [by rewrite Hw|].
    rewrite ents_destroyed. by rewrite lookup_alter_ne.
  - intros g. rewrite getChildren_destroyed. by apply splice_out_NoDup.
  - intros g g' x Hgg. rewrite !getChildren_destroyed.
    intros Hx%splice_out_subseteq Hx'%splice_out_subseteq.
    by apply (Hdj g g' x).
  - unfold destroyed. by destruct (onDestroy e).
Qed.
Lemma safeDestroy_outcomes obj s :
  ∃ s', safeDestroy obj s = Ok tt s' ∧ safeDestroy_outcome obj s s'.
Proof.
  destruct obj as [o|]; [|eexists; split; [done | by constructor]].
  unfold safeDestroy, bind, get, warn, modify.
  case_decide as Hw; [subst; eexists; split; [done | by apply sd_blocked]|].
  case_bool_decide as Ha; [eexists; split; [done | by eapply sd_inactive]|].
  unfold try_catch.
  destruct (destroy_is_function s o) eqn:Hf;
    [|eexists; split; [done | by eapply sd_not_function]].
  unfold destroy_is_function in Hf. unfold callDestroy.
  destruct (ents s !! o) as [e|] eqn:He; [|done]. cbn in *.
  destruct (destroyFn e) as [| |err] eqn:Hd; [done| |].
  - unfold gameObjectDestroy. rewrite He. eexists; split; [done|].
    eapply sd_destroyed; eauto. destruct (active e); [done|]. by destruct Ha.
  - eexists; split; [done|].
    eapply sd_caught; eauto. destruct (active e); [done|]. by destruct Ha.
Qed.
Ltac fields :=
cbn [ents nextId worm enemies playerBullets enemyBullets hearts gameStarted
       isGameOver invulnerable lastPlayerShotAt score health maxHealth lives
       wave enemiesPerWave timers nextTimer spawned rnd console display
       scoreText healthText livesText
set_ents set_nextId set_enemies set_playerBullets set_enemyBullets
       set_hearts set_gameStarted set_isGameOver set_invulnerable
       set_lastPlayerShotAt set_score set_health set_lives set_wave
       set_enemiesPerWave set_timers set_nextTimer set_spawned set_rnd
       set_console set_display set_scoreText set_healthText set_livesText
       alter_entity removeTimer detach warned set_children getChildren
       created_in
       active pos_x pos_y body hasHit isShooter tint onDestroy destroyFn
       set_active set_pos set_hasHit set_isShooter set_tint set_onDestroy
       newObject delay loop elapsed callback set_elapsed] in *.

Ltac wp_step :=
  lazymatch goal with
  | |- wpx _ (ret _) _ _ => apply wpx_ret
  | |- wpx _ (bind get _) _ _ => apply wpx_get_bind
  | |- wpx _ (bind (modify _) _) _ _ => apply wpx_modify_bind
  | |- wpx _ (modify _) _ _ => apply wpx_modify
  | |- wpx _ (if ?b then _ else _) _ _ => destruct b eqn:?
  | |- wpx _ (match ?x with _ => _ end) _ _ => destruct x eqn:?
  end.
Ltac wp_steps := repeat wp_step.

(** The same, also through the engine's allocations and nested binds. *)
Ltac wp_sym_step :=
  lazymatch goal with
  | |- wpx _ (bind (addEvent _ _ _) _) _ _ => apply wpx_addEvent_bind
  | |- wpx _ (bind (delayedCall _ _) _) _ _ => apply wpx_addEvent_bind
  | |- wpx _ (bind (groupCreate _ _ _) _) _ _ => apply wpx_groupCreate_bind
  | |- wpx _ (bind (bind _ _) _) _ _ => apply wpx_bind
  | |- wpx _ (bind (if _ then _ else _) _) _ _ => apply wpx_bind
  | |- _ => wp_step
  end.
Ltac wp_sym := repeat wp_sym_step.

(** Apply a lemma about the computation in front of a [bind]. *)
Ltac wp_call lem :=
  apply wpx_bind; eapply wpx_mono; [eapply lem | cbv beta].

Ltac wf_framed :=
  match goal with
  | H : wf ?s0 |- wf _ =>
      apply (wf_frame s0);
      [reflexivity | reflexivity | reflexivity
      | intros []; reflexivity
      | fields; first [exact (wf_lives s0 H) | lia]
      | exact H]
  end.

Lemma wf_warned args s : wf s → wf (warned args s).
Proof. intros. wf_framed. Qed.

Lemma wf_warn args s : wf s → wp (warn args) (λ _, wf) s.
Proof. intros. unfold warn. wp_steps. by apply wf_warned. Qed.

Lemma wf_updateUI s : wf s → wp updateUI (λ _, wf) s.
Proof.
  intros H. unfold updateUI. wp_steps; cbn in *.
  - pose proof (wf_lives s H). lia.
  - wf_framed.
Qed.

Lemma wf_safeDestroy obj s : wf s → wp (safeDestroy obj) (λ _, wf) s.
Proof.
  intros H. destruct (safeDestroy_outcomes obj s) as (s' & Heq & Hout).
  eapply wpx_of_eq; [done|].
  destruct Hout; auto using wf_warned, wf_destroyed.
Qed.

Lemma wf_addScore n s : wf s → wp (addScore n) (λ _, wf) s.
Proof.
  intros H. unfold addScore. wp_steps. apply wf_updateUI. wf_framed.
Qed.

Lemma wf_heal n s : wf s → wp (heal n) (λ _, wf) s.
Proof.
  intros H. unfold heal. wp_steps; [done|]. apply wf_updateUI. wf_framed.
Qed.
Lemma groupCreate_eq g px py s :
  groupCreate g px py s = Ok (nextId s) (created_in g px py s).
Proof. done. Qed.

Lemma getChildren_set_children g g' v s :
  getChildren g' (set_children g v s) =
  if decide (g' = g) then v else getChildren g' s.
Proof. by destruct g, g'. Qed.

Lemma member_lt s g o : wf s → o ∈ getChildren g s → (o < nextId s)%nat.
Proof.
  intros H Ho. apply (wf_fresh s H).
  pose proof (proj1 (Forall_forall _ _) (wf_members s H g) o Ho)
    as (_ & e & -> & _). done.
Qed.

Lemma worm_lt s : wf s → (worm s < nextId s)%nat.
Proof.
  intros H. apply (wf_fresh s H). pose proof (wf_worm s H) as Hw.
  unfold is_active in Hw. by destruct (ents s !! worm s).
Qed.

Lemma wf_created_in g px py s : wf s → wf (created_in g px py s).
Proof.
  intros H. pose proof (worm_lt s H) as Hwl.
  assert (He : ents (created_in g px py s)
               = <[nextId s := newObject px py]> (ents s)) by by destruct g.
  assert (Hw : worm (created_in g px py s) = worm s) by by destruct g.
  assert (Hn : nextId (created_in g px py s) = S (nextId s)) by by destruct g.
  assert (Hl : lives (created_in g px py s) = lives s) by by destruct g.
  assert (Hg : ∀ g', getChildren g' (created_in g px py s) =
                     if decide (g' = g) then getChildren g s ++ [nextId s]
                     else getChildren g' s) by (intros g'; by destruct g, g').
  assert (Hold : ∀ o, member_ok s o → (o < nextId s)%nat →
                      member_ok (created_in g px py s) o).
  { intros o [? Hm] ?. split; [by rewrite Hw|].
    rewrite He, lookup_insert_ne; [done | lia]. }
  split.
  - unfold is_active. rewrite Hw, He, lookup_insert_ne by lia.
    apply (wf_worm s H).
  - intros o. rewrite Hn, He. intros Ho.
    destruct (decide (nextId s = o)) as [<-|]; [lia|].
    rewrite lookup_insert_ne in Ho by done.
    pose proof (wf_fresh s H o Ho). lia.
  - intros g'. rewrite Hg. apply Forall_forall. intros o Ho.
    case_decide as Hgg.
    + apply elem_of_app in Ho as [Ho | ->%list_elem_of_singleton].
      * apply Hold; [|by eapply member_lt].
        by apply (proj1 (Forall_forall _ _) (wf_members s H g)).
      * split; [rewrite Hw; lia|].
        rewrite He, lookup_insert_eq. by eexists.
    + apply Hold; [|by eapply member_lt].
      by apply (proj1 (Forall_forall _ _) (wf_members s H g')).
  - intros g'. rewrite Hg. case_decide; [|apply (wf_nodup s H)].
    apply NoDup_app. split; [apply (wf_nodup s H)|].
    split; [|apply NoDup_singleton].
    intros o Ho ->%list_elem_of_singleton.
    pose proof (member_lt s g _ H Ho). lia.
  - intros g1 g2 o Hgg. rewrite !Hg. intros Ho1 Ho2.
    assert (Hin : ∀ g0, o ∈ (if decide (g0 = g)
                             then getChildren g s ++ [nextId s]
                             else getChildren g0 s) →
                        o ∈ getChildren g0 s ∨ (g0 = g ∧ o = nextId s)).
    { intros g0 Hin. case_decide as Hd; [|by left]. subst g0.
      apply elem_of_app in Hin as [?| ->%list_elem_of_singleton];
        [by left | by right]. }
    destruct (Hin _ Ho1) as [Hm1|[-> ->]], (Hin _ Ho2) as [Hm2|[-> Hn2]].
    + by apply (wf_disjoint s H g1 g2 o).
    + pose proof (member_lt s g1 _ H Hm1). lia.
    + pose proof (member_lt s g2 _ H Hm2). lia.
    + done.
  - rewrite Hl. apply (wf_lives s H).
Qed.

Lemma wf_groupCreate g px py s :
  wf s → wp (groupCreate g px py) (λ _, wf) s.
Proof. intros. eapply wpx_of_eq; [apply groupCreate_eq|]. by apply wf_created_in. Qed.

Lemma wf_alter_entity f o s :
  (∀ e, active (f e) = active e) → (∀ e, destroyFn (f e) = destroyFn e) →
  wf s → wf (alter_entity f o s).
Proof.
  intros Ha Hd [H1 H2 H3 H4 Hdj H5].
  assert (Hlk : ∀ x e, ents s !! x = Some e →
            ∃ e', alter f o (ents s) !! x = Some e'
                  ∧ active e' = active e ∧ destroyFn e' = destroyFn e).
  { intros x e Hx. destruct (decide (o = x)) as [->|].
    - rewrite lookup_alter_eq, Hx. cbn. eauto.
    - rewrite lookup_alter_ne by done. eauto. }
  split; fields.
  - unfold is_active in *. fields.
    destruct (ents s !! worm s) as [e|] eqn:He; [|done].
    destruct (Hlk _ _ He) as (e' & -> & -> & _). done.
  - intros x Hx. apply H2.
    destruct (decide (o = x)) as [->|];
      [rewrite lookup_alter_eq in Hx | by rewrite lookup_alter_ne in Hx].
    by apply fmap_is_Some in Hx.
  - intros g. eapply Forall_impl; [apply (H3 g)|].
    intros x (? & e & He & ? & ?). split; [done|]. fields.
    destruct (Hlk _ _ He) as (e' & He' & Hae & Hde).
    exists e'. by rewrite Hae, Hde.
  - done.
  - done.
  - done.
Qed.
Lemma callDestroy_member o s :
  destroyFn <$> ents s !! o = Some Destroys →
  ∃ e, ents s !! o = Some e ∧ callDestroy o s = Ok tt (destroyed o e s).
Proof.
  intros H. unfold callDestroy, gameObjectDestroy. rewrite H.
  destruct (ents s !! o) as [e|]; [|done]. by exists e.
Qed.

Lemma destroyFn_destroyed o e s x :
  destroyFn <$> ents (destroyed o e s) !! x = destroyFn <$> ents s !! x.
Proof.
  rewrite ents_destroyed. destruct (decide (o = x)) as [->|].
  - rewrite lookup_alter_eq. by destruct (ents s !! x).
  - by rewrite lookup_alter_ne.
Qed.

Lemma worm_destroyed o e s : worm (destroyed o e s) = worm s.
Proof. unfold destroyed. by destruct (onDestroy e). Qed.

Lemma wf_set_children_nil g s : wf s → wf (set_children g [] s).
Proof.
  intros [H1 H2 H3 H4 Hdj H5]. split.
  - by destruct g.
  - by destruct g.
  - intros g'. rewrite getChildren_set_children.
    case_decide; [apply Forall_nil_2|].
    eapply Forall_impl; [apply H3|]. intros x Hx. by destruct g.
  - intros g'. rewrite getChildren_set_children.
    case_decide; [apply NoDup_nil_2 | apply H4].
  - intros g1 g2 o Hgg. rewrite !getChildren_set_children.
    repeat case_decide; try (by intros ?%elem_of_nil);
      try (by intros _ ?%elem_of_nil). by apply Hdj.
  - by destruct g.
Qed.

Lemma wf_groupClear g s : wf s → wp (groupClear g) (λ _, wf) s.
Proof.
  intros H. unfold groupClear. wp_step.
  apply wpx_bind.
  eapply wpx_mono;
    [apply (wpx_forEach _
              (λ s', wf s' ∧ worm s' = worm s
                     ∧ ∀ a, a ∈ getChildren g s →
                            destroyFn <$> ents s' !! a = Some Destroys))|].
  - split; [done|]. split; [done|]. intros a Ha.
    pose proof (proj1 (Forall_forall _ _) (wf_members s H g) a Ha)
      as (_ & e & -> & Hd & _). cbn. by rewrite Hd.
  - intros a s' Ha (Hwf & Hw & Hd).
    destruct (callDestroy_member a s' (Hd a Ha)) as (e & He & Heq).
    eapply wpx_of_eq; [done|].
    pose proof (proj1 (Forall_forall _ _) (wf_members s H g) a Ha) as [Hne _].
    split; [apply wf_destroyed; [done | by rewrite Hw]|].
    split; [by rewrite worm_destroyed|].
    intros b Hb. rewrite destroyFn_destroyed. auto.
  - intros [] s' (Hwf & _). wp_step. by apply wf_set_children_nil.
Qed.

Lemma wf_tintWorm c s : wf s → wp (tintWorm c) (λ _, wf) s.
Proof.
  intros H. unfold tintWorm. wp_steps; [|done].
  by apply wf_alter_entity.
Qed.

Lemma wf_addEvent d lp cb s : wf s → wp (addEvent d lp cb) (λ _, wf) s.
Proof. intros H. unfold wpx, addEvent. wf_framed. Qed.

Lemma wf_random s : wf s → wp random (λ _, wf) s.
Proof. intros H. unfold wpx, random. destruct (rnd s); [done|]. wf_framed. Qed.

Lemma wf_Between lo hi s : wf s → wp (Between lo hi) (λ _, wf) s.
Proof.
  intros H. unfold Between. wp_call wf_random; [done|].
  intros r s' H'. by wp_step.
Qed.

Lemma wf_endGame s : wf s → wp endGame (λ _, wf) s.
Proof.
  intros H. unfold endGame. wp_steps; [done|].
  wp_call wf_groupClear; [wf_framed|]. intros [] s1 H1.
  wp_call wf_groupClear; [done|]. intros [] s2 H2.
  wp_call wf_groupClear; [done|]. intros [] s3 H3.
  wp_step. wf_framed.
Qed.

Lemma wf_loseLife s : wf s → wp loseLife (λ _, wf) s.
Proof.
  intros H. unfold loseLife. wp_steps; [done|].
  wp_call wf_tintWorm; [wf_framed|]. intros [] s1 H1.
  wp_call wf_addEvent; [done|]. intros t s2 H2.
  wp_steps; fields.
  - apply wf_endGame. wf_framed.
  - apply wf_updateUI. wf_framed.
Qed.

Lemma wf_shootAt s : wf s → wp shootAt (λ _, wf) s.
Proof.
  intros H. unfold shootAt. wp_steps; try done.
  wp_call wf_groupCreate; [done|]. intros ? ? ?. by wp_step.
Qed.

Lemma wf_spawnHeart s : wf s → wp spawnHeart (λ _, wf) s.
Proof.
  intros H. unfold spawnHeart.
  wp_call wf_Between; [done|]. intros ? ? ?.
  wp_call wf_groupCreate; [done|]. intros ? ? ?. by wp_step.
Qed.

Lemma wf_spawnWave s : wf s → wp spawnWave (λ _, wf) s.
Proof.
  intros H. unfold spawnWave. wp_steps; [done|].
  wp_call wf_addEvent; [wf_framed|]. intros ? ? ?.
  wp_call wf_addEvent; [done|]. intros ? ? ?. by wp_step.
Qed.
Lemma safeDestroy_length g obj s s' :
  safeDestroy_outcome obj s s' →
  (length (getChildren g s') ≤ length (getChildren g s))%nat.
Proof.
  destruct 1; try (by destruct g).
  rewrite getChildren_destroyed. apply splice_out_length.
Qed.

Lemma wf_safeDestroy_len g n obj s :
  wf s → (length (getChildren g s) ≤ n)%nat →
  wp (safeDestroy obj)
     (λ _ s', wf s' ∧ (length (getChildren g s') ≤ n)%nat) s.
Proof.
  intros H Hn. destruct (safeDestroy_outcomes obj s) as (s' & Heq & Hout).
  eapply wpx_of_eq; [done|]. split.
  - destruct Hout; auto using wf_warned, wf_destroyed.
  - pose proof (safeDestroy_length g _ _ _ Hout). lia.
Qed.

Lemma wf_cleanupGroup live g s :
  wf s → wp (cleanupGroup live g) (λ _, wf) s.
Proof.
  intros H. unfold cleanupGroup. apply wpx_forOf; [done|].
  intros n a s' Hs' Hn. unfold cleanupOne. wp_steps; try done.
  by apply wf_safeDestroy_len.
Qed.

Lemma wf_cleanupObjects live s : wf s → wp (cleanupObjects live) (λ _, wf) s.
Proof.
  intros H. unfold cleanupObjects.
  wp_call wf_cleanupGroup; [done|]. intros [] s1 H1.
  wp_call wf_cleanupGroup; [done|]. intros [] s2 H2.
  wp_call wf_cleanupGroup; [done|]. intros [] s3 H3.
  by apply wf_cleanupGroup.
Qed.

Lemma wf_onBulletEnemy a b s : wf s → wp (onBulletEnemy a b) (λ _, wf) s.
Proof.
  intros H. unfold onBulletEnemy. wp_steps; [done| |].
  - by apply wf_warn.
  - wp_call wf_safeDestroy; [done|]. intros [] s1 H1.
    wp_call wf_safeDestroy; [done|]. intros [] s2 H2.
    by apply wf_addScore.
Qed.

Lemma wf_onBulletEnemyBullet a b s :
  wf s → wp (onBulletEnemyBullet a b) (λ _, wf) s.
Proof.
  intros H. unfold onBulletEnemyBullet.
  apply wpx_bind.
  eapply (wpx_mono _ _ (λ _, wf)).
  { wp_steps; [by apply wf_safeDestroy | done]. }
  intros [] s1 H1. wp_steps; [by apply wf_safeDestroy | done].
Qed.

Lemma wf_onEnemyBulletWorm a b s :
  wf s → wp (onEnemyBulletWorm a b) (λ _, wf) s.
Proof.
  intros H. unfold onEnemyBulletWorm.
  apply wpx_bind.
  eapply (wpx_mono _ _ (λ _, wf)).
  { wp_steps; [by apply wf_safeDestroy | done]. }
  intros [] s1 H1. wp_steps; [done | by apply wf_loseLife].
Qed.

Lemma wf_onEnemyWorm a b s : wf s → wp (onEnemyWorm a b) (λ _, wf) s.
Proof.
  intros H. unfold onEnemyWorm. wp_steps; try done.
  wp_call wf_loseLife; [by apply wf_alter_entity|]. intros [] s1 H1.
  by apply wf_safeDestroy.
Qed.

Lemma wf_onBulletHeart a b s : wf s → wp (onBulletHeart a b) (λ _, wf) s.
Proof.
  intros H. unfold onBulletHeart.
  apply wpx_bind.
  eapply (wpx_mono _ _ (λ _, wf)).
  { wp_steps; [by apply wf_safeDestroy | done]. }
  intros [] s1 H1. wp_steps; [|done].
  wp_call wf_safeDestroy; [done|]. intros [] s2 H2. by apply wf_heal.
Qed.

Lemma wf_onPointerDown s : wf s → wp onPointerDown (λ _, wf) s.
Proof.
  intros H. unfold onPointerDown. wp_steps; [done | by apply wf_shootAt].
Qed.

Lemma wf_invulnerableOff s : wf s → wp invulnerableOff (λ _, wf) s.
Proof.
  intros H. unfold invulnerableOff. wp_steps. apply wf_tintWorm. wf_framed.
Qed.

Lemma wf_spawnTick t cell count s :
  wf s → wp (spawnTick t cell count) (λ _, wf) s.
Proof.
  intros H. unfold spawnTick. wp_steps; [wf_framed|].
  wp_call wf_Between; [done|]. intros py s1 H1.
  wp_call wf_groupCreate; [done|]. intros enemy s2 H2.
  wp_step.
  wp_call wf_random; [by apply wf_alter_entity|]. intros r s3 H3.
  wp_step. apply wpx_bind.
  eapply (wpx_mono _ _ (λ _, wf)).
  - wp_steps; [|by apply wf_alter_entity].
    wp_call wf_Between; [by apply wf_alter_entity|]. intros d s4 H4.
    wp_call wf_addEvent; [done|]. intros tm s5 H5.
    wp_step. by apply wf_alter_entity.
  - intros [] s4 H4. wp_step. wf_framed.
Qed.

Lemma wf_enemyShoot t enemy s : wf s → wp (enemyShoot t enemy) (λ _, wf) s.
Proof.
  intros H. unfold enemyShoot. wp_steps; [wf_framed| |done].
  wp_call wf_groupCreate; [done|]. intros ? ? ?. by wp_step.
Qed.

Lemma wf_checkWave t cell count s :
  wf s → wp (checkWave t cell count) (λ _, wf) s.
Proof.
  intros H. unfold checkWave. wp_steps; [wf_framed| |done].
  wp_call wf_addEvent; [wf_framed|]. intros ? ? ?. by wp_step.
Qed.

Lemma wf_nextWave s : wf s → wp nextWave (λ _, wf) s.
Proof. intros H. unfold nextWave. wp_steps; [by apply wf_spawnWave | done]. Qed.

Lemma wf_heartTick s : wf s → wp heartTick (λ _, wf) s.
Proof.
  intros H. unfold heartTick. wp_steps; [done | by apply wf_spawnHeart].
Qed.

Lemma wf_fire t cb s : wf s → wp (fire t cb) (λ _, wf) s.
Proof.
  intros H. destruct cb; cbn [fire];
    auto using wf_invulnerableOff, wf_spawnTick, wf_checkWave, wf_nextWave,
      wf_enemyShoot, wf_heartTick.
Qed.

Lemma wf_stepTimer delta t s : wf s → wp (stepTimer delta t) (λ _, wf) s.
Proof.
  intros H. unfold stepTimer. wp_steps; [|wf_framed|done].
  wp_call wf_fire; [wf_framed|]. intros [] s1 H1.
  wp_step. destruct (timers s1 !! t) as [ev'|]; [|done].
  destruct (loop ev'); wf_framed.
Qed.

Lemma wf_clockUpdate delta s : wf s → wp (clockUpdate delta) (λ _, wf) s.
Proof.
  intros H. unfold clockUpdate. wp_step.
  apply wpx_forEach; [done|]. intros t s' _ Hs'. by apply wf_stepTimer.
Qed.

Lemma wf_update live time inp s : wf s → wp (update live time inp) (λ _, wf) s.
Proof.
  intros H. unfold update. wp_steps; try done.
  all: apply wpx_bind; eapply (wpx_mono _ _ (λ _, wf));
    [| intros [] s1 H1; wp_call wf_cleanupObjects; [done|];
       intros [] s2 H2; by apply wf_updateUI].
  all: wp_steps; try done.
  all: wp_call wf_shootAt; [done|]; intros [] s1 H1; wp_step; wf_framed.
Qed.

Lemma wf_step live ev s : wf s → wp (step live ev) (λ _, wf) s.
Proof.
  intros H. destruct ev; cbn [step];
    auto using wf_onBulletEnemy, wf_onBulletEnemyBullet, wf_onEnemyBulletWorm,
      wf_onEnemyWorm, wf_onBulletHeart, wf_onPointerDown, wf_update,
      wf_safeDestroy.
  - wp_step. apply wf_clockUpdate. wf_framed.
  - wp_step. by apply wf_alter_entity.
Qed.

Lemma wf_run live evs s : wf s → wp (run live evs) (λ _, wf) s.
Proof.
  intros H. unfold run. apply wpx_forEach; [done|].
  intros ev s' _ Hs'. by apply wf_step.
Qed.

Lemma wf_created : wf created.
Proof.
  split; cbn.
  - done.
  - intros o [e He]. destruct o; [lia|]. by rewrite lookup_singleton_ne in He.
  - intros []; constructor.
  - intros []; constructor.
  - intros [] g' o _ Ho; by apply elem_of_nil in Ho.
  - done.
Qed.

Lemma wf_startGame s : wf s → wp startGame (λ _, wf) s.
Proof.
  intros H. unfold startGame. wp_steps.
  wp_call wf_groupClear; [wf_framed|]. intros [] s1 H1.
  wp_call wf_groupClear; [done|]. intros [] s2 H2.
  wp_call wf_groupClear; [done|]. intros [] s3 H3.
  wp_call wf_groupClear; [done|]. intros [] s4 H4.
  wp_call wf_Between; [done|]. intros d s5 H5.
  wp_call wf_addEvent; [done|]. intros tm s6 H6.
  by apply wf_spawnWave.
Qed.

(** * The bookkeeping invariant *)

Lemma stable_refl s : stable s s.
Proof. by split. Qed.

Lemma stable_trans s1 s2 s3 : stable s1 s2 → stable s2 s3 → stable s1 s3.
Proof.
  intros [] []. split; try congruence. auto.
Qed.

Lemma stable_destroyed o e s : stable s (destroyed o e s).
Proof.
  split; try (unfold destroyed; by destruct (onDestroy e)).
  intros g Hg. by rewrite getChildren_destroyed, Hg.
Qed.

Lemma groupClear_stable g s :
  wpp (groupClear g) (λ _ s', getChildren g s' = [] ∧ stable s s') s.
Proof.
  unfold groupClear. wp_step. apply wpx_bind.
  eapply wpx_mono; [apply (wpx_forEach _ (stable s)); [apply stable_refl|]|].
  - intros a s' _ Hs'. unfold wpx, callDestroy, gameObjectDestroy.
    destruct (ents s' !! a) as [e|] eqn:He; cbn; [|done].
    destruct (destroyFn e); try done.
    eapply stable_trans; [done|]. apply (stable_destroyed a e s').
  - intros [] s' Hs'. wp_step. split.
    + rewrite getChildren_set_children. by case_decide.
    + destruct Hs'. split; try by destruct g.
      intros g' Hg'. rewrite getChildren_set_children. case_decide; auto.
Qed.

Lemma ci_frame w m n over hfix s s' :
  worm s' = worm s → maxHealth s' = maxHealth s → lives s' = lives s →
  health s' = health s → isGameOver s' = isGameOver s →
  display s' = display s → playerBullets s' = playerBullets s →
  enemyBullets s' = enemyBullets s → hearts s' = hearts s →
  combat_inv w m n over hfix s → combat_inv w m n over hfix s'.
Proof.
  intros E1 E2 E3 E4 E5 E6 E7 E8 E9 [].
  split; rewrite ?E1, ?E2, ?E3, ?E4, ?E5, ?E6, ?E7, ?E8, ?E9; done.
Qed.

Ltac ci_framed :=
  match goal with
  | H : combat_inv _ _ _ _ _ ?s0 |- combat_inv _ _ _ _ _ _ =>
      apply (ci_frame _ _ _ _ _ s0); [reflexivity .. | exact H]
  end.

Lemma wpp_forOf (I : State → Prop) (live : bool) (arr : State → list nat)
    (f : nat → M unit) s :
  I s → (∀ a s', I s' → wpp (f a) (λ _, I) s') →
  wpp (forOf live arr f) (λ _, I) s.
Proof.
  intros Hs Hf. unfold wpx at 1, forOf. destruct live.
  - generalize (S (length (arr s))) as fuel. generalize 0%nat as i.
    intros i fuel. revert i s Hs.
    induction fuel as [|fuel IH]; intros i s Hs; [done|].
    cbn [forOfFrom]. destruct (arr s !! i) as [a|]; [|done].
    fold (wpp (f a >> forOfFrom fuel arr (S i) f) (λ _, I) s).
    apply wpx_bind. eapply wpx_mono; [by apply Hf|].
    intros [] s' Hs'. by apply IH.
  - apply wpx_forEach; auto.
Qed.

Section Combat.
Context (w : nat) (m n : Z) (over : bool).

Lemma ci_destroyed hfix o e s :
  combat_inv w m n over hfix s → combat_inv w m n over hfix (destroyed o e s).
Proof.
  intros [H1 H2 H3 H4 H5 H6 H7 H8 H9].
  assert (Hg : ∀ g, getChildren g (destroyed o e s)
                    = splice_out o (getChildren g s))
    by (intros g; apply getChildren_destroyed).
  pose proof (Hg PlayerBullets) as Hpb. pose proof (Hg EnemyBullets) as Heb.
  pose proof (Hg Hearts) as Hh. cbn [getChildren] in Hpb, Heb, Hh.
  unfold destroyed in *.
  split; destruct (onDestroy e); fields; try done.
  all: intros Hov; destruct (H8 Hov) as (-> & -> & ->); done.
Qed.

Lemma ci_created_in hfix g px py s :
  g = Enemies ∨ isGameOver s = false →
  combat_inv w m n over hfix s →
  combat_inv w m n over hfix (created_in g px py s).
Proof.
  intros Hg [H1 H2 H3 H4 H5 H6 H7 H8 H9].
  split; destruct g; fields; try done.
  all: intros Hov; destruct Hg as [?|Hg]; [done | congruence].
Qed.

Lemma ci_safeDestroy hfix obj s :
  combat_inv w m n over hfix s →
  wpp (safeDestroy obj) (λ _, combat_inv w m n over hfix) s.
Proof.
  intros H. destruct (safeDestroy_outcomes obj s) as (s' & Heq & Hout).
  eapply wpx_of_eq; [done|].
  destruct Hout; try done; try ci_framed. by apply ci_destroyed.
Qed.

Lemma ci_warn hfix args s :
  combat_inv w m n over hfix s →
  wpp (warn args) (λ _, combat_inv w m n over hfix) s.
Proof. intros H. unfold warn. wp_step. ci_framed. Qed.

Lemma ci_updateUI hfix s :
  combat_inv w m n over hfix s →
  wpp updateUI (λ _, combat_inv w m n over hfix) s.
Proof. intros H. unfold updateUI. wp_steps; [done|]. ci_framed. Qed.

Lemma ci_addScore hfix k s :
  combat_inv w m n over hfix s →
  wpp (addScore k) (λ _, combat_inv w m n over hfix) s.
Proof. intros H. unfold addScore. wp_step. apply ci_updateUI. ci_framed. Qed.

Lemma ci_heal k s :
  combat_inv w m n over None s →
  wpp (heal k) (λ _, combat_inv w m n over None) s.
Proof.
  intros H. unfold heal. wp_steps; [done|]. apply ci_updateUI.
  destruct H as [H1 H2 H3 H4 H5 H6 H7 H8 H9].
  split; fields; try done. unfold Clamp. lia.
Qed.

Lemma ci_groupCreate hfix g px py s :
  g = Enemies ∨ isGameOver s = false →
  combat_inv w m n over hfix s →
  wpp (groupCreate g px py) (λ _, combat_inv w m n over hfix) s.
Proof.
  intros. eapply wpx_of_eq; [apply groupCreate_eq|]. by apply ci_created_in.
Qed.

Lemma ci_tintWorm hfix c s :
  combat_inv w m n over hfix s →
  wpp (tintWorm c) (λ _, combat_inv w m n over hfix) s.
Proof. intros H. unfold tintWorm. wp_steps; [ci_framed | done]. Qed.

Lemma ci_addEvent hfix d lp cb s :
  combat_inv w m n over hfix s →
  wpp (addEvent d lp cb) (λ _, combat_inv w m n over hfix) s.
Proof. intros H. unfold wpx, addEvent. ci_framed. Qed.

Lemma ci_random hfix s :
  combat_inv w m n over hfix s →
  wpp random (λ _, combat_inv w m n over hfix) s.
Proof.
  intros H. unfold wpx, random. destruct (rnd s); [done|]. ci_framed.
Qed.

Lemma ci_Between hfix lo hi s :
  combat_inv w m n over hfix s →
  wpp (Between lo hi) (λ _, combat_inv w m n over hfix) s.
Proof.
  intros H. unfold Between. wp_call ci_random; [done|].
  intros r s' H'. by wp_step.
Qed.

Lemma ci_endGame_from hfix s :
  worm s = w → maxHealth s = m → lives s = 0 → 0 ≤ n →
  0 ≤ health s ≤ maxHealth s → (∀ h, hfix = Some h → health s = h) →
  (isGameOver s = true → combat_inv w m n over hfix s) →
  (isGameOver s = false → game_over_titles (display s) = 0%nat) →
  wpp endGame (λ _, combat_inv w m n over hfix) s.
Proof.
  intros H1 H2 H3 Hn H4 H9 Hov Hd. unfold endGame. wp_steps; [auto|].
  wp_call groupClear_stable. intros [] s1 [E1 S1].
  wp_call groupClear_stable. intros [] s2 [E2 S2].
  wp_call groupClear_stable. intros [] s3 [E3 S3].
  wp_step.
  pose proof (stable_trans _ _ _ S1 (stable_trans _ _ _ S2 S3)) as S.
  destruct S as [T1 T2 T3 T4 T5 T6 T7]. fields.
  split; fields; rewrite ?T1, ?T2, ?T3, ?T4, ?T5, ?T6; try done.
  - lia.
  - specialize (Hd eq_refl). clear -Hd.
    induction (display s) as [|[] d IH]; cbn in *; auto; lia.
  - intros _. split; [|split].
    + apply (st_empty _ _ S3 PlayerBullets), (st_empty _ _ S2 PlayerBullets).
      exact E1.
    + apply (st_empty _ _ S3 EnemyBullets). exact E2.
    + exact E3.
Qed.

Lemma ci_loseLife hfix s :
  combat_inv w m n over hfix s →
  wpp loseLife (λ _, combat_inv w m n over hfix) s.
Proof.
  intros H. pose proof H as [H1' H2' H3' H4' H5' H6' H7' H8' H9'].
  unfold loseLife, tintWorm. wp_sym; fields; try done.
  all: try apply Z.leb_le in Heqb1; try apply Z.leb_gt in Heqb1.
  1,3: apply ci_endGame_from; fields; rewrite ?Heqb; try done; try lia.
  all: apply ci_updateUI; split; fields; rewrite ?Heqb; try done; try lia.
Qed.

Lemma ci_shootAt hfix s :
  combat_inv w m n over hfix s →
  wpp shootAt (λ _, combat_inv w m n over hfix) s.
Proof.
  intros H. unfold shootAt. wp_steps; try done.
  wp_call ci_groupCreate; [|done|].
  - right. apply orb_false_iff in Heqb. tauto.
  - intros ? ? ?. by wp_step.
Qed.

Lemma ci_spawnHeart hfix s :
  isGameOver s = false →
  combat_inv w m n over hfix s →
  wpp spawnHeart (λ _, combat_inv w m n over hfix) s.
Proof.
  intros Hov H. unfold spawnHeart, Between.
  apply wpx_bind, wpx_bind. unfold wpx at 1, random.
  destruct (rnd s) as [|r rs]; wp_step.
  - wp_call ci_groupCreate; [by right | done|]. intros ? ? ?. by wp_step.
  - wp_call ci_groupCreate; [by right | ci_framed|]. intros ? ? ?. by wp_step.
Qed.

Lemma ci_spawnWave hfix s :
  combat_inv w m n over hfix s →
  wpp spawnWave (λ _, combat_inv w m n over hfix) s.
Proof.
  intros H. unfold spawnWave. wp_steps; [done|].
  wp_call ci_addEvent; [ci_framed|]. intros ? ? ?.
  wp_call ci_addEvent; [done|]. intros ? ? ?. by wp_step.
Qed.

Lemma ci_cleanupObjects hfix live s :
  combat_inv w m n over hfix s →
  wpp (cleanupObjects live) (λ _, combat_inv w m n over hfix) s.
Proof.
  assert (Hg : ∀ g s0, combat_inv w m n over hfix s0 →
            wpp (cleanupGroup live g)
                (λ _, combat_inv w m n over hfix) s0).
  { intros g s0 H0. unfold cleanupGroup. apply wpp_forOf; [done|].
    intros a s' Hs'. unfold cleanupOne. wp_steps; try done.
    by apply ci_safeDestroy. }
  intros H. unfold cleanupObjects.
  wp_call Hg; [done|]. intros [] s1 H1.
  wp_call Hg; [done|]. intros [] s2 H2.
  wp_call Hg; [done|]. intros [] s3 H3.
  by apply Hg.
Qed.

Lemma ci_onBulletEnemy hfix a b s :
  combat_inv w m n over hfix s →
  wpp (onBulletEnemy a b) (λ _, combat_inv w m n over hfix) s.
Proof.
  intros H. unfold onBulletEnemy. wp_steps; [done| |].
  - by apply ci_warn.
  - wp_call ci_safeDestroy; [done|]. intros [] s1 H1.
    wp_call ci_safeDestroy; [done|]. intros [] s2 H2.
    by apply ci_addScore.
Qed.

Lemma ci_safeDestroy_if hfix obj s :
  combat_inv w m n over hfix s →
  wpp (let* s0 := get in
       if truthy_active s0 obj then safeDestroy obj else ret tt)
      (λ _, combat_inv w m n over hfix) s.
Proof. intros H. wp_steps; [by apply ci_safeDestroy | done]. Qed.

Lemma ci_onBulletEnemyBullet hfix a b s :
  combat_inv w m n over hfix s →
  wpp (onBulletEnemyBullet a b) (λ _, combat_inv w m n over hfix) s.
Proof.
  intros H. unfold onBulletEnemyBullet.
  wp_call ci_safeDestroy_if; [done|]. intros [] s1 H1.
  by apply ci_safeDestroy_if.
Qed.

Lemma ci_onEnemyBulletWorm hfix a b s :
  combat_inv w m n over hfix s →
  wpp (onEnemyBulletWorm a b) (λ _, combat_inv w m n over hfix) s.
Proof.
  intros H. unfold onEnemyBulletWorm.
  wp_call ci_safeDestroy_if; [done|]. intros [] s1 H1.
  wp_steps; [done | by apply ci_loseLife].
Qed.

Lemma ci_onEnemyWorm hfix a b s :
  combat_inv w m n over hfix s →
  wpp (onEnemyWorm a b) (λ _, combat_inv w m n over hfix) s.
Proof.
  intros H. unfold onEnemyWorm. wp_steps; try done.
  wp_call ci_loseLife; [ci_framed|]. intros [] s1 H1.
  by apply ci_safeDestroy.
Qed.

Lemma ci_onBulletHeart a b s :
  combat_inv w m n over None s →
  wpp (onBulletHeart a b) (λ _, combat_inv w m n over None) s.
Proof.
  intros H. unfold onBulletHeart.
  wp_call ci_safeDestroy_if; [done|]. intros [] s1 H1.
  wp_steps; [|done].
  wp_call ci_safeDestroy; [done|]. intros [] s2 H2. by apply ci_heal.
Qed.

Lemma ci_onPointerDown hfix s :
  combat_inv w m n over hfix s →
  wpp onPointerDown (λ _, combat_inv w m n over hfix) s.
Proof.
  intros H. unfold onPointerDown. wp_steps; [done | by apply ci_shootAt].
Qed.

Lemma ci_invulnerableOff hfix s :
  combat_inv w m n over hfix s →
  wpp invulnerableOff (λ _, combat_inv w m n over hfix) s.
Proof.
  intros H. unfold invulnerableOff. wp_steps. apply ci_tintWorm. ci_framed.
Qed.

Lemma ci_spawnTick hfix t cell count s :
  combat_inv w m n over hfix s →
  wpp (spawnTick t cell count) (λ _, combat_inv w m n over hfix) s.
Proof.
  intros H. unfold spawnTick. wp_steps; [ci_framed|].
  wp_call ci_Between; [done|]. intros py s1 H1.
  wp_call ci_groupCreate; [by left | done|]. intros enemy s2 H2.
  wp_step.
  wp_call ci_random; [ci_framed|]. intros r s3 H3.
  wp_step. apply wpx_bind.
  eapply (wpx_mono _ _ (λ _, combat_inv w m n over hfix)).
  - wp_steps; [|ci_framed].
    wp_call ci_Between; [ci_framed|]. intros d s4 H4.
    wp_call ci_addEvent; [done|]. intros tm s5 H5.
    wp_step. ci_framed.
  - intros [] s4 H4. wp_step. ci_framed.
Qed.

Lemma ci_enemyShoot hfix t enemy s :
  combat_inv w m n over hfix s →
  wpp (enemyShoot t enemy) (λ _, combat_inv w m n over hfix) s.
Proof.
  intros H. unfold enemyShoot. wp_steps; [ci_framed| |done].
  wp_call ci_groupCreate; [|done|].
  - right. apply orb_false_iff in Heqb. tauto.
  - intros ? ? ?. by wp_step.
Qed.

Lemma ci_checkWave hfix t cell count s :
  combat_inv w m n over hfix s →
  wpp (checkWave t cell count) (λ _, combat_inv w m n over hfix) s.
Proof.
  intros H. unfold checkWave. wp_steps; [ci_framed| |done].
  wp_call ci_addEvent; [ci_framed|]. intros ? ? ?. by wp_step.
Qed.

Lemma ci_nextWave hfix s :
  combat_inv w m n over hfix s →
  wpp nextWave (λ _, combat_inv w m n over hfix) s.
Proof.
  intros H. unfold nextWave. wp_steps; [by apply ci_spawnWave | done].
Qed.

Lemma ci_heartTick hfix s :
  combat_inv w m n over hfix s →
  wpp heartTick (λ _, combat_inv w m n over hfix) s.
Proof.
  intros H. unfold heartTick. wp_steps; [done|].
  apply ci_spawnHeart; [|done]. apply orb_false_iff in Heqb. tauto.
Qed.

Lemma ci_fire hfix t cb s :
  combat_inv w m n over hfix s →
  wpp (fire t cb) (λ _, combat_inv w m n over hfix) s.
Proof.
  intros H. destruct cb; cbn [fire];
    auto using ci_invulnerableOff, ci_spawnTick, ci_checkWave, ci_nextWave,
      ci_enemyShoot, ci_heartTick.
Qed.

Lemma ci_stepTimer hfix delta t s :
  combat_inv w m n over hfix s →
  wpp (stepTimer delta t) (λ _, combat_inv w m n over hfix) s.
Proof.
  intros H. unfold stepTimer. wp_steps; [|ci_framed|done].
  wp_call ci_fire; [ci_framed|]. intros [] s1 H1.
  wp_step. destruct (timers s1 !! t) as [ev'|]; [|done].
  destruct (loop ev'); ci_framed.
Qed.

Lemma ci_clockUpdate hfix delta s :
  combat_inv w m n over hfix s →
  wpp (clockUpdate delta) (λ _, combat_inv w m n over hfix) s.
Proof.
  intros H. unfold clockUpdate. wp_step.
  apply wpx_forEach; [done|]. intros t s' _ Hs'. by apply ci_stepTimer.
Qed.

Lemma ci_update hfix live time inp s :
  combat_inv w m n over hfix s →
  wpp (update live time inp) (λ _, combat_inv w m n over hfix) s.
Proof.
  intros H. unfold update. wp_steps; try done.
  all: apply wpx_bind;
    eapply (wpx_mono _ _ (λ _, combat_inv w m n over hfix));
    [| intros [] s1 H1; wp_call ci_cleanupObjects; [done|];
       intros [] s2 H2; by apply ci_updateUI].
  all: wp_steps; try done.
  all: wp_call ci_shootAt; [done|]; intros [] s1 H1; wp_step; ci_framed.
Qed.

Lemma ci_step hfix live ev s :
  hfix = None ∨ keeps_health ev = true →
  combat_inv w m n over hfix s →
  wpp (step live ev) (λ _, combat_inv w m n over hfix) s.
Proof.
  intros Hh H. destruct ev; cbn [step];
    auto using ci_onBulletEnemy, ci_onBulletEnemyBullet,
      ci_onEnemyBulletWorm, ci_onEnemyWorm, ci_onPointerDown, ci_update,
      ci_safeDestroy.
  - destruct Hh as [->|]; [|done]. by apply ci_onBulletHeart.
  - wp_step. apply ci_clockUpdate. ci_framed.
  - wp_step. ci_framed.
Qed.

Lemma ci_run hfix live evs s :
  hfix = None ∨ forallb keeps_health evs = true →
  combat_inv w m n over hfix s →
  wpp (run live evs) (λ _, combat_inv w m n over hfix) s.
Proof.
  intros Hh H. unfold run. apply wpx_forEach; [done|].
  intros ev s' Hev Hs'. apply ci_step; [|done].
  destruct Hh as [?|Hall]; [by left | right].
  rewrite forallb_forall in Hall. apply Hall. by apply list_elem_of_In.
Qed.
End Combat.

(** * The invulnerability window and the hit marks *)

Lemma ti_frame p h s s' :
  timers s' = timers s → nextTimer s' = nextTimer s → ents s' = ents s →
  invulnerable s' = invulnerable s → nextId s' = nextId s →
  timer_inv p h s → timer_inv p h s'.
Proof.
  intros E1 E2 E3 E4 E5 []. split; rewrite ?E1, ?E2, ?E3, ?E4, ?E5; done.
Qed.

Ltac ti_framed :=
  match goal with
  | H : timer_inv _ _ ?s0 |- timer_inv _ _ _ =>
      apply (ti_frame _ _ s0); [reflexivity .. | exact H]
  end.

Section Window.
Context (p : option (nat * Z)) (h : option nat).

(** Changing fields of an object other than [onDestroy] and [hasHit]. *)
Lemma ti_alter_entity f o s :
  (∀ e, onDestroy (f e) = onDestroy e) → (∀ e, hasHit (f e) = hasHit e) →
  timer_inv p h s → timer_inv p h (alter_entity f o s).
Proof.
  intros Hd Hh [H1 H2 H3 H4 H5].
  assert (Hlk : ∀ x e', alter f o (ents s) !! x = Some e' →
            ∃ e, ents s !! x = Some e ∧ onDestroy e' = onDestroy e
                 ∧ hasHit e' = hasHit e).
  { intros x e' Hx. destruct (decide (o = x)) as [->|].
    - rewrite lookup_alter_eq in Hx.
      destruct (ents s !! x) as [e|]; [|done]. cbn in Hx.
      injection Hx as <-. eauto.
    - rewrite lookup_alter_ne in Hx by done. eauto. }
  split; fields; try done.
  - intros x e' t Hx Ht. destruct (Hlk _ _ Hx) as (e & He & Hde & _).
    apply (H2 x e t He). congruence.
  - intros x Hx. destruct (H5 x Hx) as [Hlt Hhit]. split; [done|].
    destruct (ents s !! x) as [e|] eqn:He; [|done].
    destruct (decide (o = x)) as [->|].
    + rewrite lookup_alter_eq, He. cbn in *. by rewrite Hh.
    + by rewrite lookup_alter_ne, He.
Qed.

Lemma ti_mark_hit o s :
  timer_inv p h s → timer_inv p h (alter_entity (set_hasHit (Some true)) o s).
Proof.
  intros [H1 H2 H3 H4 H5]. split; fields; try done.
  - intros x e' t Hx Ht. destruct (decide (o = x)) as [->|].
    + rewrite lookup_alter_eq in Hx.
      destruct (ents s !! x) as [e|] eqn:He; [|done]. cbn in Hx.
      injection Hx as <-. by apply (H2 x e t).
    + rewrite lookup_alter_ne in Hx by done. by apply (H2 x e' t).
  - intros x Hx. destruct (H5 x Hx) as [Hlt Hhit]. split; [done|].
    destruct (ents s !! x) as [e|] eqn:He; [|done].
    destruct (decide (o = x)) as [->|].
    + by rewrite lookup_alter_eq, He.
    + by rewrite lookup_alter_ne, He.
Qed.

Lemma ti_destroyed o e s :
  ents s !! o = Some e →
  timer_inv p h s → timer_inv p h (destroyed o e s).
Proof.
  intros He [H1 H2 H3 H4 H5].
  assert (Hents : ents (destroyed o e s) = alter (set_active false) o (ents s))
    by apply ents_destroyed.
  assert (Hti : ∀ t ev, timers (destroyed o e s) !! t = Some ev →
                        timers s !! t = Some ev).
  { unfold destroyed. destruct (onDestroy e) as [t0|]; fields; [|done].
    intros t ev Ht. by apply lookup_delete_Some in Ht as [_ ?]. }
  assert (Hkeep : ∀ t ev, timers s !! t = Some ev →
                          callback ev = InvulnerableOff →
                          timers (destroyed o e s) !! t = Some ev).
  { unfold destroyed. destruct (onDestroy e) as [t0|] eqn:Hd; fields; [|done].
    intros t ev Ht Hcb. rewrite lookup_delete_ne; [done|].
    intros ->. by destruct (H2 o e t He Hd) as [_ Hne]; apply (Hne ev). }
  assert (Hnt : nextTimer (destroyed o e s) = nextTimer s)
    by (unfold destroyed; by destruct (onDestroy e)).
  assert (Hni : nextId (destroyed o e s) = nextId s)
    by (unfold destroyed; by destruct (onDestroy e)).
  assert (Hinv : invulnerable (destroyed o e s) = invulnerable s)
    by (unfold destroyed; by destruct (onDestroy e)).
  assert (Hlk : ∀ x e', ents (destroyed o e s) !! x = Some e' →
            ∃ e0, ents s !! x = Some e0 ∧ onDestroy e' = onDestroy e0
                  ∧ hasHit e' = hasHit e0).
  { intros x e' Hx. rewrite Hents in Hx.
    destruct (decide (o = x)) as [->|].
    - rewrite lookup_alter_eq, He in Hx. cbn in Hx.
      injection Hx as <-. eauto.
    - rewrite lookup_alter_ne in Hx by done. eauto. }
  split; rewrite ?Hnt, ?Hni, ?Hinv.
  - intros t [ev Ht]. apply H1. eauto.
  - intros x e' t Hx Ht. destruct (Hlk _ _ Hx) as (e0 & He0 & Hde & _).
    rewrite Hde in Ht. destruct (H2 x e0 t He0 Ht) as [? Hne].
    split; [done|]. intros ev Hev. apply Hne. eauto.
  - intros Hp. destruct (H3 Hp) as [? Hne]. split; [done|].
    intros t ev Hev. eapply Hne. eauto.
  - intros t r Hp. destruct (H4 t r Hp) as (? & Ht & Huniq).
    split; [done|]. split; [by apply Hkeep|].
    intros t' ev Hev. apply Huniq. eauto.
  - intros x Hx. destruct (H5 x Hx) as [Hlt Hhit]. split; [done|].
    rewrite Hents. destruct (decide (o = x)) as [->|].
    + rewrite lookup_alter_eq, He in *. done.
    + by rewrite lookup_alter_ne.
Qed.

Lemma ti_created_in g px py s :
  timer_inv p h s → timer_inv p h (created_in g px py s).
Proof.
  intros [H1 H2 H3 H4 H5]. split; destruct g; fields; try done.
  all: try (intros x e t Hx Ht;
            destruct (decide (nextId s = x)) as [<-|];
            [rewrite lookup_insert_eq in Hx; by injection Hx as <-
            |rewrite lookup_insert_ne in Hx by done; by apply (H2 x e t)]).
  all: intros x Hx; destruct (H5 x Hx) as [Hlt Hhit];
    (split; [lia|]); rewrite lookup_insert_ne by lia; done.
Qed.

(** A timer that is not the one of the window. *)
Lemma ti_addEvent_state d lp cb s :
  cb ≠ InvulnerableOff →
  timer_inv p h s →
  timer_inv p h
    (set_nextTimer (S (nextTimer s))
       (set_timers (<[nextTimer s := mkTimer d lp 0 cb]> (timers s)) s)).
Proof.
  intros Hcb [H1 H2 H3 H4 H5].
  assert (Hlk : ∀ t ev,
            <[nextTimer s := mkTimer d lp 0 cb]> (timers s) !! t = Some ev →
            callback ev = InvulnerableOff → timers s !! t = Some ev).
  { intros t ev Ht Hev. destruct (decide (nextTimer s = t)) as [<-|].
    - rewrite lookup_insert_eq in Ht. injection Ht as <-. done.
    - by rewrite lookup_insert_ne in Ht. }
  split; fields; try done.
  - intros t [ev Ht]. destruct (decide (nextTimer s = t)) as [<-|]; [lia|].
    rewrite lookup_insert_ne in Ht by done.
    assert (t < nextTimer s)%nat by (apply H1; eauto). lia.
  - intros x e t Hx Ht. destruct (H2 x e t Hx Ht) as [Hlt Hne].
    split; [lia|]. intros ev Hev Hcb'. apply (Hne ev); [|done].
    by apply Hlk.
  - intros Hp. destruct (H3 Hp) as [? Hne]. split; [done|].
    intros t ev Hev Hcb'. apply (Hne t ev); [|done]. by apply Hlk.
  - intros t r Hp. destruct (H4 t r Hp) as (? & Ht & Huniq).
    split; [done|]. split.
    + rewrite lookup_insert_ne; [done|].
      assert (t < nextTimer s)%nat by (apply H1; eauto). lia.
    + intros t' ev Hev Hcb'. apply (Huniq t' ev); [|done]. by apply Hlk.
Qed.

Lemma ti_removeTimer t s :
  (∀ ev, timers s !! t = Some ev → callback ev ≠ InvulnerableOff) →
  timer_inv p h s → timer_inv p h (removeTimer t s).
Proof.
  intros Hcb [H1 H2 H3 H4 H5]. split; fields; try done.
  - intros t' [ev Ht]. apply lookup_delete_Some in Ht as [_ ?].
    apply H1. eauto.
  - intros x e t' Hx Ht. destruct (H2 x e t' Hx Ht) as [Hlt Hne].
    split; [done|]. intros ev Hev.
    apply lookup_delete_Some in Hev as [_ ?]. by apply Hne.
  - intros Hp. destruct (H3 Hp) as [? Hne]. split; [done|].
    intros t' ev Hev. apply lookup_delete_Some in Hev as [_ ?].
    by apply (Hne t').
  - intros t' r Hp. destruct (H4 t' r Hp) as (? & Ht & Huniq).
    split; [done|]. split.
    + rewrite lookup_delete_ne; [done|]. intros ->.
      by apply (Hcb _ Ht).
    + intros t'' ev Hev. apply lookup_delete_Some in Hev as [_ ?].
      by apply Huniq.
Qed.

(** Writing the elapsed time of a timer that is not the window's. *)
Lemma ti_set_elapsed t ev v s :
  timers s !! t = Some ev → callback ev ≠ InvulnerableOff →
  timer_inv p h s →
  timer_inv p h (set_timers (<[t := set_elapsed v ev]> (timers s)) s).
Proof.
  intros Ht Hcb [H1 H2 H3 H4 H5].
  assert (Hlk : ∀ t' ev', <[t := set_elapsed v ev]> (timers s) !! t' = Some ev' →
            callback ev' = InvulnerableOff → timers s !! t' = Some ev').
  { intros t' ev' Ht' Hev. destruct (decide (t = t')) as [<-|].
    - rewrite lookup_insert_eq in Ht'. injection Ht' as <-. done.
    - by rewrite lookup_insert_ne in Ht'. }
  split; fields; try done.
  - intros t' [ev' Ht']. destruct (decide (t = t')) as [<-|].
    + apply H1. eauto.
    + rewrite lookup_insert_ne in Ht' by done. apply H1. eauto.
  - intros x e t' Hx Hd. destruct (H2 x e t' Hx Hd) as [Hlt Hne].
    split; [done|]. intros ev' Hev Hcb'. apply (Hne ev'); [|done].
    by apply Hlk.
  - intros Hp. destruct (H3 Hp) as [? Hne]. split; [done|].
    intros t' ev' Hev Hcb'. apply (Hne t' ev'); [|done]. by apply Hlk.
  - intros t' r Hp. destruct (H4 t' r Hp) as (? & Ht' & Huniq).
    split; [done|]. split.
    + rewrite lookup_insert_ne; [done|]. intros ->.
      rewrite Ht in Ht'. injection Ht' as ->. done.
    + intros t'' ev' Hev Hcb'. apply (Huniq t'' ev'); [|done]. by apply Hlk.
Qed.
End Window.
Lemma wpx_forEach_fold {A P : Type} (E : State → Prop)
    (I : P → State → Prop) (g : P → A → P) (l : list A) (f : A → M unit) :
  (∀ a p s, a ∈ l → I p s → wpx E (f a) (λ _, I (g p a)) s) →
  ∀ p s, I p s → wpx E (forEach l f) (λ _, I (foldl g p l)) s.
Proof.
  induction l as [|a l IH]; intros Hf p s Hs; [done|].
  cbn [forEach foldl]. apply wpx_bind.
  eapply wpx_mono; [apply Hf; [left | done]|].
  intros [] s' Hs'. apply IH; [|done].
  intros b q s'' Hb. apply Hf. by right.
Qed.

Section Window2.
Context (p : option (nat * Z)) (h : option nat).

Lemma ti_spawn_enemy g px py s :
  timer_inv p h s →
  timer_inv p h (alter_entity (set_hasHit (Some false)) (nextId s)
                   (created_in g px py s)).
Proof.
  intros H. pose proof (ti_created_in p h g px py s H) as [H1 H2 H3 H4 H5].
  destruct H as [_ _ _ _ H5'].
  assert (He : ents (created_in g px py s)
               = <[nextId s := newObject px py]> (ents s)) by by destruct g.
  split; fields; try done.
  - intros x e' t Hx Ht. destruct (decide (nextId s = x)) as [<-|].
    + rewrite lookup_alter_eq, He, lookup_insert_eq in Hx. cbn in Hx.
      by injection Hx as <-.
    + rewrite lookup_alter_ne in Hx by done. by apply (H2 x e' t).
  - intros x Hx. destruct (H5 x Hx) as [Hlt Hhit].
    destruct (H5' x Hx) as [Hlt' _]. split; [done|].
    rewrite lookup_alter_ne by lia. done.
Qed.

Lemma ti_link_timer d lp o s :
  timer_inv p h s →
  timer_inv p h
    (alter_entity (set_onDestroy (Some (nextTimer s))) o
       (set_nextTimer (S (nextTimer s))
          (set_timers (<[nextTimer s := mkTimer d lp 0 (EnemyShoot o)]>
                         (timers s)) s))).
Proof.
  intros H.
  pose proof (ti_addEvent_state p h d lp (EnemyShoot o) s
                ltac:(done) H) as [H1 H2 H3 H4 H5].
  fields. split; fields; try done.
  - intros x e' t Hx Ht. destruct (decide (o = x)) as [->|].
    + rewrite lookup_alter_eq in Hx.
      destruct (ents s !! x) as [e|] eqn:He; [|done]. cbn in Hx.
      injection Hx as <-. cbn in Ht. injection Ht as <-.
      split; [lia|]. intros ev. rewrite lookup_insert_eq.
      by intros [= <-].
    + rewrite lookup_alter_ne in Hx by done. by apply (H2 x e' t).
  - intros x Hx. destruct (H5 x Hx) as [Hlt Hhit]. split; [done|].
    destruct (ents s !! x) as [e|] eqn:He; [|done].
    destruct (decide (o = x)) as [->|].
    + by rewrite lookup_alter_eq, He.
    + by rewrite lookup_alter_ne, He.
Qed.

Lemma ti_safeDestroy obj s :
  timer_inv p h s → wpp (safeDestroy obj) (λ _, timer_inv p h) s.
Proof.
  intros H. destruct (safeDestroy_outcomes obj s) as (s' & Heq & Hout).
  eapply wpx_of_eq; [done|].
  destruct Hout; try done; try ti_framed. by apply ti_destroyed.
Qed.

Lemma ti_safeDestroy_if obj s :
  timer_inv p h s →
  wpp (let* s0 := get in
       if truthy_active s0 obj then safeDestroy obj else ret tt)
      (λ _, timer_inv p h) s.
Proof. intros H. wp_steps; [by apply ti_safeDestroy | done]. Qed.

Lemma ti_warn args s :
  timer_inv p h s → wpp (warn args) (λ _, timer_inv p h) s.
Proof. intros H. unfold warn. wp_step. ti_framed. Qed.

Lemma ti_updateUI s : timer_inv p h s → wpp updateUI (λ _, timer_inv p h) s.
Proof. intros H. unfold updateUI. wp_steps; [done|]. ti_framed. Qed.

Lemma ti_addScore k s :
  timer_inv p h s → wpp (addScore k) (λ _, timer_inv p h) s.
Proof. intros H. unfold addScore. wp_step. apply ti_updateUI. ti_framed. Qed.

Lemma ti_heal k s : timer_inv p h s → wpp (heal k) (λ _, timer_inv p h) s.
Proof.
  intros H. unfold heal. wp_steps; [done|]. apply ti_updateUI. ti_framed.
Qed.

Lemma ti_random s : timer_inv p h s → wpp random (λ _, timer_inv p h) s.
Proof.
  intros H. unfold wpx, random. destruct (rnd s); [done|]. ti_framed.
Qed.

Lemma ti_Between lo hi s :
  timer_inv p h s → wpp (Between lo hi) (λ _, timer_inv p h) s.
Proof.
  intros H. unfold Between. wp_call ti_random; [done|].
  intros r s' H'. by wp_step.
Qed.

Lemma ti_set_children g v s :
  timer_inv p h s → timer_inv p h (set_children g v s).
Proof. intros []. split; by destruct g. Qed.

Lemma ti_groupClear g s :
  timer_inv p h s → wpp (groupClear g) (λ _, timer_inv p h) s.
Proof.
  intros H. unfold groupClear. wp_step. apply wpx_bind.
  eapply wpx_mono; [apply (wpx_forEach _ (timer_inv p h)); [done|]|].
  - intros a s' _ Hs'. unfold wpx, callDestroy, gameObjectDestroy.
    destruct (ents s' !! a) as [e|] eqn:He; cbn; [|done].
    destruct (destroyFn e); try done. by apply (ti_destroyed p h a e s').
  - intros [] s' Hs'. wp_step. by apply ti_set_children.
Qed.

Lemma ti_endGame s : timer_inv p h s → wpp endGame (λ _, timer_inv p h) s.
Proof.
  intros H. unfold endGame. wp_steps; [done|].
  wp_call ti_groupClear; [ti_framed|]. intros [] s1 H1.
  wp_call ti_groupClear; [done|]. intros [] s2 H2.
  wp_call ti_groupClear; [done|]. intros [] s3 H3.
  wp_step. ti_framed.
Qed.

Lemma ti_shootAt s : timer_inv p h s → wpp shootAt (λ _, timer_inv p h) s.
Proof.
  intros H. unfold shootAt. wp_sym; try done. by apply ti_created_in.
Qed.

Lemma ti_spawnHeart s :
  timer_inv p h s → wpp spawnHeart (λ _, timer_inv p h) s.
Proof.
  intros H. unfold spawnHeart.
  wp_call ti_Between; [done|]. intros py s1 H1.
  wp_sym. by apply ti_created_in.
Qed.

Lemma ti_spawnWave s :
  timer_inv p h s → wpp spawnWave (λ _, timer_inv p h) s.
Proof.
  intros H. unfold spawnWave. wp_sym; [done|].
  apply ti_addEvent_state; [done|]. apply ti_addEvent_state; [done|].
  ti_framed.
Qed.

Lemma ti_cleanupObjects live s :
  timer_inv p h s → wpp (cleanupObjects live) (λ _, timer_inv p h) s.
Proof.
  assert (Hg : ∀ g s0, timer_inv p h s0 →
            wpp (cleanupGroup live g) (λ _, timer_inv p h) s0).
  { intros g s0 H0. unfold cleanupGroup. apply wpp_forOf; [done|].
    intros a s' Hs'. unfold cleanupOne. wp_steps; try done.
    by apply ti_safeDestroy. }
  intros H. unfold cleanupObjects.
  wp_call Hg; [done|]. intros [] s1 H1.
  wp_call Hg; [done|]. intros [] s2 H2.
  wp_call Hg; [done|]. intros [] s3 H3.
  by apply Hg.
Qed.

Lemma ti_onBulletEnemy a b s :
  timer_inv p h s → wpp (onBulletEnemy a b) (λ _, timer_inv p h) s.
Proof.
  intros H. unfold onBulletEnemy. wp_steps; [done| |].
  - by apply ti_warn.
  - wp_call ti_safeDestroy; [done|]. intros [] s1 H1.
    wp_call ti_safeDestroy; [done|]. intros [] s2 H2.
    by apply ti_addScore.
Qed.

Lemma ti_onBulletEnemyBullet a b s :
  timer_inv p h s → wpp (onBulletEnemyBullet a b) (λ _, timer_inv p h) s.
Proof.
  intros H. unfold onBulletEnemyBullet.
  wp_call ti_safeDestroy_if; [done|]. intros [] s1 H1.
  by apply ti_safeDestroy_if.
Qed.

Lemma ti_onBulletHeart a b s :
  timer_inv p h s → wpp (onBulletHeart a b) (λ _, timer_inv p h) s.
Proof.
  intros H. unfold onBulletHeart.
  wp_call ti_safeDestroy_if; [done|]. intros [] s1 H1.
  wp_steps; [|done].
  wp_call ti_safeDestroy; [done|]. intros [] s2 H2. by apply ti_heal.
Qed.

Lemma ti_onPointerDown s :
  timer_inv p h s → wpp onPointerDown (λ _, timer_inv p h) s.
Proof.
  intros H. unfold onPointerDown. wp_steps; [done | by apply ti_shootAt].
Qed.

Lemma ti_update live time inp s :
  timer_inv p h s → wpp (update live time inp) (λ _, timer_inv p h) s.
Proof.
  intros H. unfold update. wp_steps; try done.
  all: apply wpx_bind; eapply (wpx_mono _ _ (λ _, timer_inv p h));
    [| intros [] s1 H1; wp_call ti_cleanupObjects; [done|];
       intros [] s2 H2; by apply ti_updateUI].
  all: wp_steps; try done.
  all: wp_call ti_shootAt; [done|]; intros [] s1 H1; wp_step; ti_framed.
Qed.

(** The callbacks other than [invulnerableOff], run for a timer [t]
    that is not the window's. *)
Lemma ti_spawnTick t cell count s :
  (∀ ev, timers s !! t = Some ev → callback ev ≠ InvulnerableOff) →
  timer_inv p h s → wpp (spawnTick t cell count) (λ _, timer_inv p h) s.
Proof.
  intros Ht H. unfold spawnTick. wp_steps; [by apply ti_removeTimer|].
  wp_call ti_Between; [done|]. intros py s1 H1.
  wp_sym_step. wp_step.
  wp_call ti_random; [by apply ti_spawn_enemy|].
  intros r s3 H3. wp_step. apply wpx_bind.
  eapply (wpx_mono _ _ (λ _, timer_inv p h)).
  - wp_steps; [|by apply ti_alter_entity].
    wp_call ti_Between; [by apply ti_alter_entity|]. intros d s4 H4.
    wp_sym. by apply ti_link_timer.
  - intros [] s4 H4. wp_step. ti_framed.
Qed.

Lemma ti_enemyShoot t enemy s :
  (∀ ev, timers s !! t = Some ev → callback ev ≠ InvulnerableOff) →
  timer_inv p h s → wpp (enemyShoot t enemy) (λ _, timer_inv p h) s.
Proof.
  intros Ht H. unfold enemyShoot. wp_sym; [by apply ti_removeTimer| |done].
  by apply ti_created_in.
Qed.

Lemma ti_checkWave t cell count s :
  (∀ ev, timers s !! t = Some ev → callback ev ≠ InvulnerableOff) →
  timer_inv p h s → wpp (checkWave t cell count) (λ _, timer_inv p h) s.
Proof.
  intros Ht H. unfold checkWave. wp_sym; [by apply ti_removeTimer| |done].
  pose proof (ti_removeTimer p h t s Ht H) as H'.
  apply (ti_addEvent_state p h 700 false NextWave); [done|]. ti_framed.
Qed.

Lemma ti_nextWave s : timer_inv p h s → wpp nextWave (λ _, timer_inv p h) s.
Proof.
  intros H. unfold nextWave. wp_steps; [by apply ti_spawnWave | done].
Qed.

Lemma ti_heartTick s :
  timer_inv p h s → wpp heartTick (λ _, timer_inv p h) s.
Proof.
  intros H. unfold heartTick. wp_steps; [done | by apply ti_spawnHeart].
Qed.

Lemma ti_fire t cb s :
  cb ≠ InvulnerableOff →
  (∀ ev, timers s !! t = Some ev → callback ev ≠ InvulnerableOff) →
  timer_inv p h s → wpp (fire t cb) (λ _, timer_inv p h) s.
Proof.
  intros Hcb Ht H. destruct cb; cbn [fire]; try done;
    auto using ti_spawnTick, ti_checkWave, ti_nextWave, ti_enemyShoot,
      ti_heartTick.
Qed.
End Window2.
Lemma safeDestroy_flags obj s s' :
  safeDestroy_outcome obj s s' →
  isGameOver s' = isGameOver s ∧ invulnerable s' = invulnerable s
  ∧ nextTimer s' = nextTimer s ∧ lives s' = lives s ∧ health s' = health s
  ∧ score s' = score s.
Proof.
  destruct 1; try done. unfold destroyed. by destruct (onDestroy e).
Qed.

Lemma ti_open h s s' :
  timer_inv None h s →
  timers s'
  = <[nextTimer s := mkTimer INVULNERABLE_MS_AFTER_HIT false 0
                       InvulnerableOff]> (timers s) →
  nextTimer s' = S (nextTimer s) → nextId s' = nextId s →
  invulnerable s' = true →
  (∃ f o, (∀ e, onDestroy (f e) = onDestroy e)
          ∧ (∀ e, hasHit (f e) = hasHit e)
          ∧ ents s' = alter f o (ents s)) →
  timer_inv (Some (nextTimer s, 0)) h s'.
Proof.
  intros H Ht Hnt Hni Hinv (f & o & Hfd & Hfh & He).
  pose proof (ti_alter_entity None h f o s Hfd Hfh H) as [H1 H2 H3 H4 H5].
  fields. destruct (H3 eq_refl) as [_ Hnone].
  split; rewrite ?Ht, ?Hnt, ?Hni, ?Hinv, ?He; try done.
  - intros t [ev Hev]. destruct (decide (nextTimer s = t)) as [<-|]; [lia|].
    rewrite lookup_insert_ne in Hev by done.
    assert (t < nextTimer s)%nat by (apply H1; eauto). lia.
  - intros x e t Hx Hd. destruct (H2 x e t Hx Hd) as [Hlt Hne].
    split; [lia|]. intros ev. rewrite lookup_insert_ne by lia. apply Hne.
  - intros t r [= <- <-]. split; [done|]. split.
    + by rewrite lookup_insert_eq.
    + intros t' ev Hev Hcb. destruct (decide (nextTimer s = t')); [done|].
      rewrite lookup_insert_ne in Hev by done. by destruct (Hnone t' ev).
Qed.

Lemma ti_close h tp r s s' :
  timer_inv (Some (tp, r)) h s →
  timers s' = delete tp (timers s) →
  nextTimer s' = nextTimer s → nextId s' = nextId s →
  invulnerable s' = false →
  (∃ f o, (∀ e, onDestroy (f e) = onDestroy e)
          ∧ (∀ e, hasHit (f e) = hasHit e)
          ∧ ents s' = alter f o (ents s)) →
  timer_inv None h s'.
Proof.
  intros H Ht Hnt Hni Hinv (f & o & Hfd & Hfh & He).
  pose proof (ti_alter_entity _ h f o s Hfd Hfh H) as [H1 H2 H3 H4 H5].
  fields. destruct (H4 tp r eq_refl) as (_ & Htp & Huniq).
  split; rewrite ?Ht, ?Hnt, ?Hni, ?Hinv, ?He; try done.
  - intros t [ev Hev]. apply lookup_delete_Some in Hev as [_ ?].
    apply H1. eauto.
  - intros x e t Hx Hd. destruct (H2 x e t Hx Hd) as [Hlt Hne].
    split; [done|]. intros ev Hev.
    apply lookup_delete_Some in Hev as [_ ?]. by apply Hne.
  - intros _. split; [done|]. intros t ev Hev Hcb.
    apply lookup_delete_Some in Hev as [Hne Hev].
    apply Hne. symmetry. by apply (Huniq t ev).
Qed.

Lemma alter_id_marks (m : gmap nat Entity) :
  ∃ f o, (∀ e, onDestroy (f e) = onDestroy e)
         ∧ (∀ e, hasHit (f e) = hasHit e) ∧ m = alter f o m.
Proof.
  exists id, 0%nat. split; [done|]. split; [done|].
  apply map_eq. intros x. destruct (decide (0%nat = x)) as [<-|].
  - rewrite lookup_alter_eq. by destruct (m !! 0%nat).
  - by rewrite lookup_alter_ne.
Qed.

Lemma ti_loseLife h s :
  timer_inv None h s →
  wpp loseLife
    (λ _, timer_inv (if isGameOver s then None else Some (nextTimer s, 0)) h)
    s.
Proof.
  intros H. unfold loseLife, tintWorm. wp_sym; fields; try done.
  all: first [apply ti_endGame | apply ti_updateUI].
  all: apply (ti_open h s); fields; try done.
  all: first [apply alter_id_marks
             | eexists _, _; split; [|split]; [| |reflexivity]; done].
Qed.

Lemma ti_onEnemyBulletWorm p h a b s :
  timer_inv p h s →
  wpp (onEnemyBulletWorm a b)
      (λ _, timer_inv (window_after s (OverlapEnemyBulletWorm a b) p) h) s.
Proof.
  intros H. unfold onEnemyBulletWorm. apply wpx_bind.
  eapply (wpx_mono _ _ (λ _ s1, timer_inv p h s1
                                ∧ isGameOver s1 = isGameOver s
                                ∧ invulnerable s1 = invulnerable s
                                ∧ nextTimer s1 = nextTimer s)).
  { wp_steps; [|done].
    destruct (safeDestroy_outcomes a s) as (s' & Heq & Hout).
    eapply wpx_of_eq; [done|].
    pose proof (safeDestroy_flags _ _ _ Hout) as (? & ? & ? & _).
    split; [|done].
    pose proof (ti_safeDestroy p h a s H) as Hti.
    unfold wpx in Hti. by rewrite Heq in Hti. }
  intros [] s1 (H1 & Hov & Hinv & Hnt). cbn [window_after accepts_hit].
  wp_step. rewrite <-Hov, <-Hinv.
  destruct (invulnerable s1 || isGameOver s1) eqn:Hc; cbn [negb].
  - wp_step. by destruct p.
  - destruct p as [[tp r]|].
    + destruct (ti_pending _ _ _ H1 tp r eq_refl) as [Hi _].
      rewrite Hi in Hc. done.
    + eapply wpx_mono; [by apply ti_loseLife|]. cbv beta.
      intros [] s2 H2. apply orb_false_iff in Hc as [_ Hov1].
      by rewrite Hov1, Hnt in H2.
Qed.

Lemma ti_onEnemyWorm p h a b s :
  timer_inv p h s →
  wpp (onEnemyWorm a b)
      (λ _, timer_inv (window_after s (OverlapEnemyWorm a b) p) h) s.
Proof.
  intros H. unfold onEnemyWorm. wp_step.
  destruct a as [enemy|]; [|wp_step; by destruct p].
  cbn [window_after accepts_hit].
  destruct (is_active s enemy) eqn:Ha; cbn [negb andb];
    [|wp_step; by destruct p].
  case_bool_decide as Hh; cbn [negb andb]; [wp_step; by destruct p|].
  destruct (invulnerable s || isGameOver s) eqn:Hc; cbn [negb].
  - wp_step. by destruct p.
  - destruct p as [[tp r]|].
    + destruct (ti_pending _ _ _ H tp r eq_refl) as [Hi _].
      rewrite Hi in Hc. done.
    + pose proof (ti_mark_hit None h enemy s H) as H'.
      wp_step. wp_call ti_loseLife; [exact H'|]. fields.
      apply orb_false_iff in Hc as [_ Hov]. rewrite Hov.
      intros [] s1 H1. by apply ti_safeDestroy.
Qed.
Lemma ti_not_window p h s t ev :
  timer_inv p h s → timers s !! t = Some ev →
  (∀ tp r, p = Some (tp, r) → t ≠ tp) →
  callback ev ≠ InvulnerableOff.
Proof.
  intros H Ht Hp Hcb. destruct p as [[tp r]|].
  - destruct (ti_pending _ _ _ H tp r eq_refl) as (_ & _ & Huniq).
    by apply (Hp tp r eq_refl), (Huniq t ev).
  - destruct (ti_none _ _ _ H eq_refl) as [_ Hne]. by apply (Hne t ev).
Qed.

Lemma ti_advance h tp r v ev s :
  timer_inv (Some (tp, r)) h s → timers s !! tp = Some ev →
  timer_inv (Some (tp, v)) h
    (set_timers (<[tp := set_elapsed v ev]> (timers s)) s).
Proof.
  intros [H1 H2 H3 H4 H5] Hev.
  destruct (H4 tp r eq_refl) as (Hinv & Htp & Huniq).
  rewrite Hev in Htp. injection Htp as ->.
  split; fields; try done.
  - intros t [ev' Ht]. destruct (decide (tp = t)) as [<-|].
    + apply H1. eauto.
    + rewrite lookup_insert_ne in Ht by done. apply H1. eauto.
  - intros x e t Hx Hd. destruct (H2 x e t Hx Hd) as [Hlt Hne].
    split; [done|]. intros ev'. destruct (decide (tp = t)) as [<-|].
    + by destruct (Hne _ Hev).
    + rewrite lookup_insert_ne by done. apply Hne.
  - intros t r' [= <- <-]. split; [done|]. split.
    + by rewrite lookup_insert_eq.
    + intros t' ev' Ht' Hcb. destruct (decide (tp = t')); [done|].
      rewrite lookup_insert_ne in Ht' by done. by apply (Huniq t' ev').
Qed.

Lemma ti_stepTimer p h delta t s :
  timer_inv p h s →
  wpp (stepTimer delta t) (λ _, timer_inv (window_step delta p t) h) s.
Proof.
  intros H. unfold stepTimer. wp_step.
  destruct (timers s !! t) as [ev|] eqn:Ht.
  2:{ wp_step. destruct p as [[tp r]|]; [|done]. cbn [window_step].
      case_decide as Heq; [|done]. subst t.
      destruct (ti_pending _ _ _ H tp r eq_refl) as (_ & Htp & _).
      by rewrite Htp in Ht. }
  destruct (decide (callback ev = InvulnerableOff)) as [Hcb|Hcb].
  - destruct p as [[tp r]|];
      [|by destruct (ti_none _ _ _ H eq_refl) as [_ Hne];
           destruct (Hne t ev Ht)].
    destruct (ti_pending _ _ _ H tp r eq_refl) as (Hinv & Htp & Huniq).
    pose proof (Huniq t ev Ht Hcb) as ->. cbn [window_step].
    rewrite decide_True by done. rewrite Htp in Ht. injection Ht as <-.
    cbn [window_tick delay elapsed callback loop fire].
    destruct (INVULNERABLE_MS_AFTER_HIT <=? r + delta) eqn:Hle.
    + unfold invulnerableOff, tintWorm. wp_sym; fields.
      all: rewrite lookup_insert_eq; cbn [loop set_elapsed]; fields.
      all: apply (ti_close h tp r s _ H); fields; try done;
        try apply delete_insert_eq.
      all: first [apply alter_id_marks
                 | eexists _, _; split; [|split]; [| |reflexivity]; done].
    + wp_step. by apply (ti_advance h tp r).
  - assert (Hne : ∀ tp r, p = Some (tp, r) → t ≠ tp).
    { intros tp r -> ->.
      destruct (ti_pending _ _ _ H tp r eq_refl) as (_ & Htp & _).
      rewrite Htp in Ht. by injection Ht as <-. }
    assert (Hp : window_step delta p t = p).
    { destruct p as [[tp r]|]; [|done]. cbn [window_step].
      rewrite decide_False; [done|]. by apply (Hne tp r). }
    rewrite Hp. wp_steps.
    + wp_call ti_fire; [done| |by apply ti_set_elapsed|].
      * fields. intros ev'. rewrite lookup_insert_eq. by intros [= <-].
      * intros [] s1 H1. wp_step.
        destruct (timers s1 !! t) as [ev'|] eqn:Ht1; [|done].
        pose proof (ti_not_window _ _ _ _ _ H1 Ht1 Hne) as Hcb'.
        destruct (loop ev'); [by apply ti_set_elapsed|].
        apply ti_removeTimer; [|done]. intros ev''. rewrite Ht1.
        by intros [= <-].
    + by apply ti_set_elapsed.
Qed.

Lemma foldl_window_step delta p (l : list nat) :
  NoDup l → (∀ tp r, p = Some (tp, r) → tp ∈ l) →
  foldl (window_step delta) p l = window_tick delta p.
Proof.
  assert (Hout : ∀ l tp r, tp ∉ l →
            foldl (window_step delta) (Some (tp, r)) l = Some (tp, r)).
  { intros l0. induction l0 as [|a l0 IH]; intros tp r Hn; [done|].
    apply not_elem_of_cons in Hn as [? ?]. cbn [foldl window_step].
    rewrite decide_False by done. by apply IH. }
  assert (Hnone : ∀ l : list nat, foldl (window_step delta) None l = None).
  { intros l0. by induction l0. }
  destruct p as [[tp r]|]; [|by intros; apply Hnone].
  induction 1 as [|a l Ha Hl IH]; intros Hin.
  - by specialize (Hin tp r eq_refl); apply elem_of_nil in Hin.
  - cbn [foldl]. destruct (decide (a = tp)) as [->|Hne].
    + cbn [window_step]. rewrite decide_True by done. cbn [window_tick].
      destruct (INVULNERABLE_MS_AFTER_HIT <=? r + delta);
        [apply Hnone | by apply Hout].
    + cbn [window_step]. rewrite decide_False by done. apply IH.
      intros tp' r' [= <- <-].
      specialize (Hin tp r eq_refl).
      apply elem_of_cons in Hin as [->|?]; done.
Qed.

Lemma ti_clockUpdate p h delta s :
  timer_inv p h s →
  wpp (clockUpdate delta) (λ _, timer_inv (window_tick delta p) h) s.
Proof.
  intros H. unfold clockUpdate. wp_step.
  rewrite <-(foldl_window_step delta p (seq 0 (nextTimer s))).
  - apply (wpx_forEach_fold _ (λ q, timer_inv q h)); [|done].
    intros t q s' _ Hs'. by apply ti_stepTimer.
  - apply NoDup_seq.
  - intros tp r ->. destruct (ti_pending _ _ _ H tp r eq_refl) as (_ & Ht & _).
    apply elem_of_seq. split; [lia|]. cbn.
    apply (ti_dom _ _ _ H). eauto.
Qed.

Lemma ti_step p h live ev s :
  timer_inv p h s →
  wpp (step live ev) (λ _, timer_inv (window_after s ev p) h) s.
Proof.
  intros H.
  assert (Hp : ∀ q, (match p with
                     | Some _ => p
                     | None => q
                     end = p) ∨ p = None) by (destruct p; auto).
  destruct ev; cbn [step];
    try (apply ti_onEnemyBulletWorm; done);
    try (apply ti_onEnemyWorm; done).
  all: cbn [window_after accepts_hit].
  all: try (replace (match p with Some _ => p | None => None end) with p
             by (by destruct p)).
  - by apply ti_onBulletEnemy.
  - by apply ti_onBulletEnemyBullet.
  - by apply ti_onBulletHeart.
  - by apply ti_onPointerDown.
  - by apply ti_update.
  - wp_step. apply ti_clockUpdate. ti_framed.
  - wp_step. by apply ti_alter_entity.
  - by apply ti_safeDestroy.
Qed.
(** * Runs *)

Lemma elapsed_ms_nonneg evs : 0 ≤ elapsed_ms evs.
Proof. induction evs as [|[] evs IH]; cbn [elapsed_ms]; lia. Qed.

Lemma ti_run_pending tp r h live evs s :
  timer_inv (Some (tp, r)) h s →
  r + elapsed_ms evs < INVULNERABLE_MS_AFTER_HIT →
  wpp (run live evs)
      (λ _, timer_inv (Some (tp, r + elapsed_ms evs)) h) s.
Proof.
  revert r s. induction evs as [|ev evs IH]; intros r s H Hlt.
  - cbn. by rewrite Z.add_0_r.
  - unfold run. cbn [forEach]. apply wpx_bind.
    eapply wpx_mono; [by apply ti_step|]. cbv beta. intros [] s1 H1.
    pose proof (elapsed_ms_nonneg evs).
    destruct ev; cbn [window_after elapsed_ms] in *;
      try (by apply IH).
    cbn [window_tick] in H1.
    destruct (INVULNERABLE_MS_AFTER_HIT <=? r + Z.of_nat delta) eqn:Hle;
      [apply Z.leb_le in Hle; lia|].
    rewrite Z.add_assoc. apply IH; [done | lia].
Qed.

Lemma ti_run h live evs s :
  (∃ p, timer_inv p h s) →
  wpp (run live evs) (λ _ s', ∃ p, timer_inv p h s') s.
Proof.
  intros Hp. unfold run. apply wpx_forEach; [done|].
  intros ev s' _ [p H]. eapply wpx_mono; [by apply ti_step|].
  cbv beta. eauto.
Qed.

Lemma consistent_combat s :
  consistent s →
  combat_inv (worm s) (maxHealth s) (lives s) (isGameOver s) None s.
Proof.
  intros [H1 H2 H3 H4 H5 H6]. split; try done.
  pose proof (wf_lives s H1). lia.
Qed.

Lemma consistent_of w m n over hfix s :
  wf s → combat_inv w m n over hfix s → (∃ p, timer_inv p None s) →
  consistent s.
Proof. intros H [] Hp. by split. Qed.

(** Every run from a well-formed scene returns, and keeps what it is
    measured against. *)
Lemma run_returns w m n over hfix h live evs s :
  wf s → combat_inv w m n over hfix s →
  hfix = None ∨ forallb keeps_health evs = true →
  (∃ p, timer_inv p h s) →
  ∃ s', run live evs s = Ok tt s'
        ∧ wf s' ∧ combat_inv w m n over hfix s' ∧ ∃ p, timer_inv p h s'.
Proof.
  intros Hwf Hci Hh Hti.
  pose proof (wf_run live evs s Hwf) as H1.
  pose proof (ci_run w m n over hfix live evs s Hh Hci) as H2.
  pose proof (ti_run h live evs s Hti) as H3.
  unfold wpx in *. destruct (run live evs s) as [[] s'|]; [|done]. eauto.
Qed.

Lemma consistent_run live evs s :
  consistent s → ∃ s', run live evs s = Ok tt s' ∧ consistent s'.
Proof.
  intros H.
  destruct (run_returns _ _ _ _ None None live evs s (cs_wf s H)
              (consistent_combat s H) (or_introl eq_refl) (cs_window s H))
    as (s' & Heq & ? & ? & ?).
  exists s'. split; [done|]. by eapply consistent_of.
Qed.

Lemma step_as_run live ev s : run live [ev] s = step live ev s.
Proof.
  unfold run. cbn [forEach]. unfold bind, ret.
  by destruct (step live ev s) as [[] ?|].
Qed.

Lemma run_app live evs1 evs2 s :
  run live (evs1 ++ evs2) s = (run live evs1 >> run live evs2) s.
Proof.
  unfold run. revert s. induction evs1 as [|ev evs1 IH]; intros s; [done|].
  cbn [app forEach]. unfold bind in *.
  destruct (step live ev s) as [[] s1|]; [apply IH | done].
Qed.

Lemma timer_inv_created : timer_inv None None created.
Proof.
  split; cbn; try done.
  - intros t [ev Hev]. by rewrite lookup_empty in Hev.
  - intros o e t Ho. destruct o.
    + rewrite lookup_singleton_eq in Ho. by injection Ho as <-.
    + by rewrite lookup_singleton_ne in Ho.
Qed.

Lemma ti_startGame h s :
  timer_inv None h s → wpp startGame (λ _, timer_inv None h) s.
Proof.
  intros H. unfold startGame. wp_steps.
  wp_call (ti_groupClear None h).
  { destruct H as [H1 H2 H3 H4 H5]. split; fields; try done.
    intros _. split; [done|]. by apply H3. }
  intros [] s1 H1.
  wp_call ti_groupClear; [done|]. intros [] s2 H2.
  wp_call ti_groupClear; [done|]. intros [] s3 H3.
  wp_call ti_groupClear; [done|]. intros [] s4 H4.
  wp_call ti_Between; [done|]. intros d s5 H5.
  wp_sym_step. apply ti_spawnWave. by apply ti_addEvent_state.
Qed.

Lemma started_eq : startGame created = Ok tt started.
Proof. vm_compute. reflexivity. Qed.

Lemma consistent_started : consistent started.
Proof.
  split.
  - exact (wpx_inv _ _ _ _ _ _ (wf_startGame created wf_created) started_eq).
  - vm_compute. done.
  - vm_compute. done.
  - by vm_compute.
  - vm_compute. done.
  - exists None.
    exact (wpx_inv _ _ _ _ _ _
             (ti_startGame None created timer_inv_created) started_eq).
Qed.

(** * The player is never removed *)

Lemma worm_not_member s g : wf s → worm s ∉ getChildren g s.
Proof.
  intros H Hin.
  by destruct (proj1 (Forall_forall _ _) (wf_members s H g) _ Hin).
Qed.

(** C1: for every sequence of collision and destroy events the player
    (worm) is never removed: every run from a consistent scene returns in
    a scene with the same worm, still active and in no group; a destroy
    request for the worm is intercepted, logged as a warning and not
    executed, in [safeDestroy] and in the projectile-vs-enemy rule. *)
Theorem worm_never_removed (live : bool) (evs : list Event) (s : State) :
  consistent s →
  (∃ s', run live evs s = Ok tt s' ∧ consistent s'
         ∧ worm s' = worm s ∧ is_active s' (worm s) = true
         ∧ ∀ g, worm s ∉ getChildren g s')
  ∧ safeDestroy (Some (worm s)) s
    = Ok tt (warned
               ["safeDestroy blocked: attempted to destroy player worm."] s)
  ∧ ∀ playerB,
      truthy_active s playerB = true →
      onBulletEnemy playerB (Some (worm s)) s
      = Ok tt (warned ["Attempted to destroy worm as enemy — blocked."] s).
Proof.
  intros H. split; [|split].
  - destruct (run_returns _ _ _ _ None None live evs s (cs_wf s H)
                (consistent_combat s H) (or_introl eq_refl) (cs_window s H))
      as (s' & Heq & Hwf & Hci & Hti).
    exists s'. split; [done|]. split; [by eapply consistent_of|].
    pose proof (ci_worm _ _ _ _ _ _ Hci) as Hw. split; [done|].
    rewrite <-Hw. split; [apply (wf_worm s' Hwf)|].
    intros g. by apply worm_not_member.
  - unfold safeDestroy, bind, get. by rewrite decide_True.
  - intros playerB Hb. unfold onBulletEnemy, bind, get. rewrite Hb.
    cbn [truthy_active]. rewrite (wf_worm s (cs_wf s H)). cbn [negb orb].
    by rewrite decide_True.
Qed.

(** * Lives *)

Lemma endGame_over s : isGameOver s = true → endGame s = Ok tt s.
Proof. intros H. unfold endGame, bind, get. by rewrite H. Qed.

(** C2: along every sequence of events the lives counter never
    increases and is never negative; it is 0 exactly when the run is over,
    a run that is over stays over, the game-over title has been drawn
    once exactly when the run is over, and [endGame] on a run that is
    over changes nothing. *)
Theorem lives_never_increase (live : bool) (evs : list Event) (s : State) :
  consistent s →
  ∃ s', run live evs s = Ok tt s' ∧ consistent s'
        ∧ 0 ≤ lives s' ≤ lives s
        ∧ (lives s' = 0 ↔ isGameOver s' = true)
        ∧ (isGameOver s = true → isGameOver s' = true)
        ∧ game_over_titles (display s')
          = (if isGameOver s' then 1%nat else 0%nat)
        ∧ (isGameOver s' = true → endGame s' = Ok tt s').
Proof.
  intros H.
  destruct (run_returns _ _ _ _ None None live evs s (cs_wf s H)
              (consistent_combat s H) (or_introl eq_refl) (cs_window s H))
    as (s' & Heq & Hwf & Hci & Hti).
  exists s'. split; [done|]. split; [by eapply consistent_of|].
  destruct Hci as [H1 H2 H3 H4 H5 H6 H7 H8 H9].
  repeat split; try done; try apply H6; try lia. apply endGame_over.
Qed.
(** * Health *)

Lemma forallb_filter_keeps evs :
  forallb keeps_health (List.filter keeps_health evs) = true.
Proof.
  induction evs as [|ev evs IH]; [done|]. cbn [List.filter].
  destruct (keeps_health ev) eqn:He; [|done]. cbn [forallb]. by rewrite He.
Qed.

Lemma heals_keep_bounds amounts s :
  consistent s →
  ∃ s', forEach amounts heal s = Ok tt s' ∧ consistent s'
        ∧ maxHealth s' = maxHealth s.
Proof.
  intros H.
  assert (Hwp : wp (forEach amounts heal)
                  (λ _ s', wf s'
                           ∧ combat_inv (worm s) (maxHealth s) (lives s)
                               (isGameOver s) None s'
                           ∧ ∃ p, timer_inv p None s') s).
  { apply wpx_forEach.
    - split; [apply (cs_wf s H)|].
      split; [by apply consistent_combat | apply (cs_window s H)].
    - intros a s1 _ (Hwf & Hci & p & Hti).
      pose proof (wf_heal a s1 Hwf) as H1.
      pose proof (ci_heal _ _ _ _ a s1 Hci) as H2.
      pose proof (ti_heal p None a s1 Hti) as H3.
      unfold wpx in *. destruct (heal a s1) as [[] s2|]; [|done]. eauto. }
  apply wpx_returns in Hwp as ([] & s' & Heq & Hwf & Hci & Hti).
  exists s'. split; [done|]. split; [by eapply consistent_of|].
  apply (ci_maxHealth _ _ _ _ _ _ Hci).
Qed.

Lemma heal_result amount s :
  wf s →
  heal amount s
  = if isGameOver s then Ok tt s
    else Ok tt (set_livesText (lives s)
                  (set_healthText
                     (Z.max 0 (Clamp (health s + amount) 0 (maxHealth s)))
                     (set_scoreText (score s)
                        (set_health
                           (Clamp (health s + amount) 0 (maxHealth s)) s)))).
Proof.
  intros H. unfold heal, bind, get. destruct (isGameOver s); [done|].
  unfold modify, updateUI, bind, get, modify. fields.
  pose proof (wf_lives s H) as Hl. apply Z.ltb_ge in Hl. by rewrite Hl.
Qed.

(** C4: health is changed by heal events only: every run of events other
    than the collection of a heart, life-loss events among them, keeps
    the health, and so does [loseLife] itself; under every run and
    every sequence of heals the health stays within [0, maxHealth];
    a heal on a run that is on sets the health to the clamped sum, which
    for health 90, amount 28 and maxHealth 100 is 100. *)
Theorem health_only_heals (live : bool) (evs : list Event)
    (amounts : list Z) (s : State) :
  consistent s →
  (∃ s', run live (List.filter keeps_health evs) s = Ok tt s'
         ∧ health s' = health s)
  ∧ (∃ s', loseLife s = Ok tt s' ∧ health s' = health s)
  ∧ (∃ s', run live evs s = Ok tt s'
           ∧ 0 ≤ health s' ≤ maxHealth s' ∧ maxHealth s' = maxHealth s)
  ∧ (∃ s', forEach amounts heal s = Ok tt s'
           ∧ 0 ≤ health s' ≤ maxHealth s' ∧ maxHealth s' = maxHealth s)
  ∧ (∀ amount, ∃ s', heal amount s = Ok tt s'
                     ∧ health s'
                       = if isGameOver s then health s
                         else Clamp (health s + amount) 0 (maxHealth s))
  ∧ Clamp (90 + 28) 0 100 = 100.
Proof.
  intros H. pose proof (consistent_combat s H) as Hci.
  assert (Hci' : combat_inv (worm s) (maxHealth s) (lives s) (isGameOver s)
                   (Some (health s)) s).
  { destruct Hci. split; try done. by intros h [= <-]. }
  repeat split.
  - destruct (run_returns _ _ _ _ (Some (health s)) None live
                (List.filter keeps_health evs) s (cs_wf s H) Hci'
                (or_intror (forallb_filter_keeps evs)) (cs_window s H))
      as (s' & Heq & _ & Hci2 & _).
    exists s'. split; [done|]. by apply (ci_hfix _ _ _ _ _ _ Hci2).
  - pose proof (wf_loseLife s (cs_wf s H)) as H1.
    pose proof (ci_loseLife _ _ _ _ _ s Hci') as H2.
    unfold wpx in *. destruct (loseLife s) as [[] s'|]; [|done].
    exists s'. split; [done|]. by apply (ci_hfix _ _ _ _ _ _ H2).
  - destruct (consistent_run live evs s H) as (s' & Heq & Hs').
    destruct (run_returns _ _ _ _ None None live evs s (cs_wf s H)
                Hci (or_introl eq_refl) (cs_window s H))
      as (s2 & Heq2 & _ & Hci2 & _).
    exists s2. split; [done|]. destruct Hci2. split; [done|]. done.
  - destruct (heals_keep_bounds amounts s H) as (s' & Heq & Hs' & Hm).
    exists s'. split; [done|]. split; [apply (cs_health s' Hs') | done].
  - intros amount. rewrite (heal_result amount s (cs_wf s H)).
    destruct (isGameOver s); eauto.
Qed.
(** * Each enemy hits once *)

Lemma member_of s g o :
  wf s → o ∈ getChildren g s →
  o ≠ worm s ∧
  ∃ e, ents s !! o = Some e ∧ destroyFn e = Destroys ∧ active e = true.
Proof.
  intros H Ho. exact (proj1 (Forall_forall _ _) (wf_members s H g) o Ho).
Qed.

(** [safeDestroy] on a child of a group destroys it. *)
Lemma safeDestroy_member s g o :
  wf s → o ∈ getChildren g s →
  ∃ e, ents s !! o = Some e ∧ active e = true
       ∧ safeDestroy (Some o) s = Ok tt (destroyed o e s).
Proof.
  intros H Ho. destruct (member_of s g o H Ho) as (Hne & e & He & Hd & Ha).
  exists e. split; [done|]. split; [done|].
  unfold safeDestroy, bind, get. rewrite decide_False by done.
  case_bool_decide as Hb; [rewrite He in Hb; cbn in Hb; congruence|].
  unfold try_catch, destroy_is_function, callDestroy, gameObjectDestroy.
  rewrite He. cbn. rewrite Hd, He. cbn. by rewrite Hd.
Qed.

Lemma destroyed_gone s g o e :
  wf s → ents s !! o = Some e →
  is_active (destroyed o e s) o = false
  ∧ (o ∉ getChildren g (destroyed o e s))
  ∧ ents (destroyed o e s) !! o = Some (set_active false e).
Proof.
  intros H He. rewrite getChildren_destroyed. unfold is_active.
  rewrite ents_destroyed, lookup_alter_eq, He. cbn.
  split; [done|]. split; [|done]. apply splice_out_not_elem, (wf_nodup s H).
Qed.

(** Clearing a group leaves the other groups and every object outside
    the group as they are. *)
Lemma groupClear_others g s :
  wf s →
  wpp (groupClear g)
      (λ _ s', stable s s' ∧ getChildren g s' = []
               ∧ (∀ g', g' ≠ g → getChildren g' s' = getChildren g' s)
               ∧ ∀ o, o ∉ getChildren g s → ents s' !! o = ents s !! o) s.
Proof.
  intros H. unfold groupClear. wp_step. apply wpx_bind.
  eapply wpx_mono;
    [apply (wpx_forEach _
              (λ s', stable s s'
                     ∧ (∀ g', g' ≠ g → getChildren g' s' = getChildren g' s)
                     ∧ ∀ o, o ∉ getChildren g s →
                            ents s' !! o = ents s !! o))|].
  - split; [apply stable_refl | done].
  - intros a s' Ha (Hst & Hg & He'). unfold wpx, callDestroy, gameObjectDestroy.
    destruct (ents s' !! a) as [e|] eqn:He; cbn; [|done].
    destruct (destroyFn e); try done. split; [|split].
    + eapply stable_trans; [done|]. apply (stable_destroyed a e s').
    + intros g' Hg'. pose proof (getChildren_destroyed g' a e s') as Hgc.
      unfold destroyed in Hgc. rewrite Hgc, (Hg g' Hg').
      apply splice_out_id. by apply (wf_disjoint s H g g' a).
    + intros o Ho. pose proof (ents_destroyed a e s') as Hed.
      unfold destroyed in Hed. rewrite Hed.
      rewrite lookup_alter_ne; [by apply He'|]. by intros ->.
  - intros [] s' (Hst & Hg & He'). wp_step. split; [|split; [|split]].
    + destruct Hst. split; try by destruct g.
      intros g' Hg'. rewrite getChildren_set_children. case_decide; auto.
    + rewrite getChildren_set_children. by case_decide.
    + intros g' Hg'. rewrite getChildren_set_children.
      rewrite decide_False by done. by apply Hg.
    + intros o Ho. destruct g; by apply He'.
Qed.

Lemma wpx_conj {A : Type} (E E' : State → Prop) (m : M A)
    (Q Q' : A → State → Prop) s :
  wpx E m Q s → wpx E' m Q' s →
  wpx (λ s', E s' ∧ E' s') m (λ a s', Q a s' ∧ Q' a s') s.
Proof. unfold wpx. by destruct (m s). Qed.

(** A total and a partial judgement together. *)
Lemma wp_and {A : Type} (m : M A) (Q Q' : A → State → Prop) s :
  wp m Q s → wpp m Q' s → wp m (λ a s', Q a s' ∧ Q' a s') s.
Proof. unfold wpx. by destruct (m s). Qed.

Lemma endGame_keeps s :
  wf s →
  wp endGame
     (λ _ s', wf s' ∧ lives s' = lives s ∧ enemies s' = enemies s
              ∧ worm s' = worm s
              ∧ ∀ o, o ∈ enemies s → ents s' !! o = ents s !! o) s.
Proof.
  intros H. unfold endGame. wp_steps; [done|].
  match goal with |- wpx _ _ _ ?s0 => assert (Hwf : wf s0) by wf_framed end.
  wp_call (wp_and _ _ _ _ (wf_groupClear PlayerBullets _ Hwf)
             (groupClear_others PlayerBullets _ Hwf)).
  intros [] s1 (Hwf1 & S1 & _ & G1 & N1).
  wp_call (wp_and _ _ _ _ (wf_groupClear EnemyBullets _ Hwf1)
             (groupClear_others EnemyBullets _ Hwf1)).
  intros [] s2 (Hwf2 & S2 & _ & G2 & N2).
  wp_call (wp_and _ _ _ _ (wf_groupClear Hearts _ Hwf2)
             (groupClear_others Hearts _ Hwf2)).
  intros [] s3 (Hwf3 & S3 & _ & G3 & N3).
  wp_step. split; [wf_framed|].
  pose proof (stable_trans _ _ _ S1 (stable_trans _ _ _ S2 S3)) as S.
  destruct S as [T1 T2 T3 T4 T5 T6 T7].
  pose proof (G1 Enemies ltac:(done)) as E1.
  pose proof (G2 Enemies ltac:(done)) as E2.
  pose proof (G3 Enemies ltac:(done)) as E3.
  fields. split; [done|]. split; [congruence|]. split; [done|].
  intros o Ho.
  assert (Ho1 : o ∈ enemies s1) by by rewrite E1.
  assert (Ho2 : o ∈ enemies s2) by by rewrite E2.
  rewrite N3, N2, N1; [done|..].
  - by apply (wf_disjoint _ Hwf Enemies PlayerBullets).
  - by apply (wf_disjoint _ Hwf1 Enemies EnemyBullets).
  - by apply (wf_disjoint _ Hwf2 Enemies Hearts).
Qed.

(** An accepted life loss takes one life and leaves the enemies alone. *)
Lemma loseLife_takes_one s :
  wf s → isGameOver s = false →
  wp loseLife
     (λ _ s', wf s' ∧ lives s' = Z.max 0 (lives s - 1)
              ∧ enemies s' = enemies s ∧ worm s' = worm s
              ∧ ∀ o, o ∈ enemies s → ents s' !! o = ents s !! o) s.
Proof.
  intros H Hov.
  assert (Hw1 : wf (alter_entity (set_tint (Some 16737894)) (worm s) s))
    by by apply wf_alter_entity.
  assert (Hne : ∀ o, o ∈ enemies s →
            alter (set_tint (Some 16737894)) (worm s) (ents s) !! o
            = ents s !! o).
  { intros o Ho. rewrite lookup_alter_ne; [done|].
    intros <-. by apply (worm_not_member s Enemies H). }
  unfold loseLife, tintWorm. wp_sym; fields; try done.
  all: try apply Z.leb_le in Heqb1; try apply Z.leb_gt in Heqb1.
  all: first
    [ eapply wpx_mono; [apply endGame_keeps; wf_framed|]; cbv beta;
      intros [] s' (Hwf & Hl & He & Hw & Hents); fields;
      split; [done|]; split; [lia|]; split; [done|]; split; [done|];
      intros o Ho; rewrite (Hents o Ho); auto
    | unfold updateUI; wp_steps; fields; [lia|];
      split; [wf_framed|]; split; [lia|]; auto ].
Qed.
Lemma lives_destroyed o e s : lives (destroyed o e s) = lives s.
Proof. unfold destroyed. by destruct (onDestroy e). Qed.

(** An enemy whose [hasHit] is true keeps it, and its contact with the
    worm changes nothing. *)
Lemma hit_persists live evs e wormObj s :
  consistent s → hasHit <$> ents s !! e = Some (Some true) →
  ∃ s', run live evs s = Ok tt s' ∧ consistent s'
        ∧ hasHit <$> ents s' !! e = Some (Some true)
        ∧ lives s' ≤ lives s
        ∧ onEnemyWorm (Some e) wormObj s' = Ok tt s'.
Proof.
  intros H Hh. destruct (cs_window s H) as [p Hp].
  assert (Hp' : timer_inv p (Some e) s).
  { destruct Hp. split; try done. intros o [= <-]. split; [|done].
    apply (wf_fresh s (cs_wf s H)).
    destruct (ents s !! e); [by eexists | done]. }
  destruct (run_returns _ _ _ _ None (Some e) live evs s (cs_wf s H)
              (consistent_combat s H) (or_introl eq_refl)
              (ex_intro _ p Hp'))
    as (s' & Heq & Hwf & Hci & p' & Hti).
  destruct (ti_hit _ _ _ Hti e eq_refl) as [_ Hh'].
  exists s'. split; [done|]. split.
  { eapply consistent_of; [done | done|].
    exists p'. destruct Hti. by split. }
  split; [done|]. split; [apply (ci_lives _ _ _ _ _ _ Hci)|].
  unfold onEnemyWorm, bind, get, ret.
  destruct (negb (is_active s' e)); [done|].
  by rewrite bool_decide_eq_true_2.
Qed.

(** * Destroying is safe *)

(** C9: [safeDestroy] never raises; on a null reference and on an
    inactive entity it changes nothing, warning included; and when the
    engine's destroy raises, the exception is caught and logged, and
    [safeDestroy] returns.  The worm is active, as in every consistent
    scene. *)
Theorem destroy_is_safe (obj : option nat) (s : State) :
  is_active s (worm s) = true →
  (∃ s', safeDestroy obj s = Ok tt s')
  ∧ safeDestroy None s = Ok tt s
  ∧ (∀ o, active <$> ents s !! o = Some false →
          safeDestroy (Some o) s = Ok tt s)
  ∧ (∀ o e err,
       o ≠ worm s → ents s !! o = Some e → active e = true →
       destroyFn e = Throws err →
       callDestroy o s = Threw err s
       ∧ safeDestroy (Some o) s
         = Ok tt (warned ["safeDestroy error"; err] s)).
Proof.
  intros Hw. split; [|split; [done|split]].
  - destruct (safeDestroy_outcomes obj s) as (s' & Heq & _). eauto.
  - intros o Ho. unfold safeDestroy, bind, get.
    case_decide as Heq.
    + subst o. unfold is_active in Hw.
      destruct (ents s !! worm s) as [e|]; [|done]. cbn in Ho. congruence.
    + by rewrite bool_decide_eq_true_2.
  - intros o e err Hne He Ha Hd. split.
    + unfold callDestroy. rewrite He. cbn. by rewrite Hd.
    + unfold safeDestroy, bind, get. rewrite decide_False by done.
      case_bool_decide as Hb; [rewrite He in Hb; cbn in Hb; congruence|].
      unfold try_catch, destroy_is_function, callDestroy.
      rewrite He. cbn. rewrite Hd. cbn. rewrite He. cbn. by rewrite Hd.
Qed.

(** * Collecting hearts and shooting enemies *)

Lemma splice_out_elem_ne o x l : x ≠ o → x ∈ l → x ∈ splice_out o l.
Proof.
  intros Hne. induction l as [|a l IH]; cbn; [done|].
  intros [->|Hx]%elem_of_cons.
  - rewrite decide_False by done. by left.
  - case_decide; [done|]. right. auto.
Qed.

Lemma safeDestroy_other obj o s s' :
  safeDestroy_outcome obj s s' → obj ≠ Some o →
  ents s' !! o = ents s !! o
  ∧ (∀ g, o ∈ getChildren g s → o ∈ getChildren g s')
  ∧ maxHealth s' = maxHealth s.
Proof.
  intros Hout Hne. destruct Hout; try done.
  assert (o0 ≠ o) by congruence.
  rewrite ents_destroyed, lookup_alter_ne by done.
  split; [done|]. split.
  - intros g Hg. rewrite getChildren_destroyed. by apply splice_out_elem_ne.
  - unfold destroyed. by destruct (onDestroy e).
Qed.

(** C10: in a player-projectile x pickup overlap the pickup, a child of
    [hearts] and so active, is removed and the heal of 28 is applied,
    whatever the projectile operand is, inactive or null included; in a
    player-projectile x enemy overlap with an inactive projectile or an
    inactive enemy nothing changes: no removal, no score. *)
Theorem heart_collected_anyway (s : State) (pbObj : option nat) (h : nat) :
  consistent s → h ∈ hearts s → pbObj ≠ Some h →
  (∃ s', onBulletHeart pbObj (Some h) s = Ok tt s'
         ∧ is_active s' h = false
         ∧ (∀ g, h ∉ getChildren g s')
         ∧ health s'
           = Clamp (health s + HEART_HEAL_AMOUNT) 0 (maxHealth s))
  ∧ ∀ playerB enemyObj,
      truthy_active s playerB = false ∨ truthy_active s enemyObj = false →
      onBulletEnemy playerB enemyObj s = Ok tt s.
Proof.
  intros H Hh Hne. pose proof (cs_wf s H) as Hwf. split.
  - assert (Hov : isGameOver s = false).
    { destruct (isGameOver s) eqn:Hov; [|done].
      destruct (cs_cleared s H Hov) as (_ & _ & Hnil).
      rewrite Hnil in Hh. by apply elem_of_nil in Hh. }
    unfold onBulletHeart.
    set (obj := if truthy_active s pbObj then pbObj else None).
    destruct (safeDestroy_outcomes obj s) as (s1 & Heq1 & Hout).
    assert (Hfirst :
      (let* s0 := get in
       if truthy_active s0 pbObj then safeDestroy pbObj else ret tt) s
      = Ok tt s1).
    { unfold bind, get. subst obj. by destruct (truthy_active s pbObj). }
    assert (Hobj : obj ≠ Some h) by (subst obj; by destruct (truthy_active _ _)).
    destruct (safeDestroy_other _ h _ _ Hout Hobj) as (He1 & Hm1 & Hmax).
    destruct (safeDestroy_flags _ _ _ Hout) as (Hov1 & _ & _ & _ & Hh1 & _).
    assert (Hwf1 : wf s1)
      by exact (wpx_inv _ _ _ _ _ _ (wf_safeDestroy obj s Hwf) Heq1).
    assert (Hin1 : h ∈ getChildren Hearts s1) by by apply Hm1.
    destruct (safeDestroy_member s1 Hearts h Hwf1 Hin1)
      as (e & He & Ha & Heq2).
    assert (Hwf2 : wf (destroyed h e s1))
      by exact (wpx_inv _ _ _ _ _ _ (wf_safeDestroy _ s1 Hwf1) Heq2).
    unfold bind at 1. rewrite Hfirst. unfold bind, get.
    cbn [truthy_active]. unfold is_active at 1. rewrite He, Ha, Heq2.
    rewrite (heal_result _ _ Hwf2).
    assert (Hov2 : isGameOver (destroyed h e s1) = false).
    { unfold destroyed. destruct (onDestroy e); fields; congruence. }
    rewrite Hov2. eexists. split; [done|].
    destruct (destroyed_gone s1 Hearts h e Hwf1 He) as (Hact & _ & _).
    split; [exact Hact|]. split.
    + intros g. apply (destroyed_gone s1 g h e Hwf1 He).
    + fields. f_equal; [f_equal|].
      * unfold destroyed. destruct (onDestroy e); fields; congruence.
      * unfold destroyed. destruct (onDestroy e); fields; congruence.
  - intros playerB enemyObj Hor. unfold onBulletEnemy, bind, get.
    destruct Hor as [-> | ->]; [done|]. by rewrite orb_true_r.
Qed.
(** * The invulnerability window *)

Lemma onEnemyWorm_ignored a b s :
  invulnerable s = true → onEnemyWorm a b s = Ok tt s.
Proof.
  intros Hi. unfold onEnemyWorm, bind, get, ret. destruct a as [e|]; [|done].
  destruct (negb (is_active s e)); [done|].
  case_bool_decide; [done|]. by rewrite Hi.
Qed.

Lemma onEnemyBulletWorm_ignored a b s :
  invulnerable s = true →
  ∃ s', onEnemyBulletWorm a b s = Ok tt s' ∧ lives s' = lives s.
Proof.
  intros Hi. unfold onEnemyBulletWorm.
  set (obj := if truthy_active s a then a else None).
  destruct (safeDestroy_outcomes obj s) as (s1 & Heq1 & Hout).
  destruct (safeDestroy_flags _ _ _ Hout) as (_ & Hi1 & _ & Hl & _).
  exists s1. split; [|done]. unfold bind, get, ret. subst obj.
  destruct (truthy_active s a); [rewrite Heq1 | cbn in Heq1; injection Heq1 as <-];
    by rewrite ?Hi1, Hi.
Qed.

(** C8: after an accepted life loss the worm is invulnerable; as long as
    the clock has counted less than 700 ms it stays so, the timer of the
    window is the one the loss started, with exactly the counted time on
    it, and a contact with an enemy or an enemy projectile takes no life
    and starts no window; the first clock update that brings the
    count to 700 ms ends the invulnerability. *)
Theorem invulnerability_window (live : bool) (s : State) (ev : Event)
    (evs : list Event) (delta : nat) (rs : list Q) (a b : option nat) :
  consistent s → invulnerable s = false → accepts_hit s ev = true →
  ∃ s1, step live ev s = Ok tt s1 ∧ invulnerable s1 = true
    ∧ (elapsed_ms evs < INVULNERABLE_MS_AFTER_HIT →
       ∃ s2, run live evs s1 = Ok tt s2 ∧ invulnerable s2 = true
         ∧ timers s2 !! nextTimer s
           = Some (mkTimer INVULNERABLE_MS_AFTER_HIT false (elapsed_ms evs)
                     InvulnerableOff)
         ∧ onEnemyWorm a b s2 = Ok tt s2
         ∧ ∃ s3, onEnemyBulletWorm a b s2 = Ok tt s3
             ∧ lives s3 = lives s2 ∧ invulnerable s3 = true
             ∧ timers s3 !! nextTimer s
               = Some (mkTimer INVULNERABLE_MS_AFTER_HIT false
                         (elapsed_ms evs) InvulnerableOff))
    ∧ (elapsed_ms evs < INVULNERABLE_MS_AFTER_HIT
                      ≤ elapsed_ms evs + Z.of_nat delta →
       ∃ s3, run live (evs ++ [ClockUpdate delta rs]) s1 = Ok tt s3
             ∧ invulnerable s3 = false).
Proof.
  intros H Hi Hacc.
  assert (Hti : timer_inv None None s).
  { destruct (cs_window s H) as [[[tp r]|] Hp]; [|done].
    destruct (ti_pending _ _ _ Hp tp r eq_refl) as [Hi' _]. congruence. }
  destruct (consistent_run live [ev] s H) as (s1 & Heq1 & Hs1).
  rewrite step_as_run in Heq1.
  pose proof (wpx_inv _ _ _ _ _ _ (ti_step None None live ev s Hti) Heq1)
    as Hti1.
  assert (Hw : window_after s ev None = Some (nextTimer s, 0)).
  { destruct ev; cbn [window_after accepts_hit] in *; try done;
      by rewrite Hacc. }
  rewrite Hw in Hti1.
  exists s1. split; [done|].
  split; [apply (ti_pending _ _ _ Hti1 _ _ eq_refl)|].
  assert (Hrun : elapsed_ms evs < INVULNERABLE_MS_AFTER_HIT →
            ∃ s2, run live evs s1 = Ok tt s2 ∧ consistent s2
                  ∧ timer_inv (Some (nextTimer s, elapsed_ms evs)) None s2).
  { intros Hlt. destruct (consistent_run live evs s1 Hs1) as (s2 & Heq2 & Hs2).
    exists s2. split; [done|]. split; [done|].
    exact (wpx_inv _ _ _ _ _ _
             (ti_run_pending _ 0 None live evs s1 Hti1 Hlt) Heq2). }
  split.
  - intros Hlt. destruct (Hrun Hlt) as (s2 & Heq2 & Hs2 & Hti2).
    destruct (ti_pending _ _ _ Hti2 _ _ eq_refl) as (Hi2 & Ht2 & _).
    exists s2. split; [done|]. split; [done|]. split; [done|].
    split; [by apply onEnemyWorm_ignored|].
    destruct (onEnemyBulletWorm_ignored a b s2 Hi2) as (s3 & Heq3 & Hl3).
    pose proof (wpx_inv _ _ _ _ _ _
                  (ti_onEnemyBulletWorm _ None a b s2 Hti2) Heq3) as Hti3.
    cbn [window_after] in Hti3.
    destruct (ti_pending _ _ _ Hti3 _ _ eq_refl) as (Hi3 & Ht3 & _).
    by exists s3.
  - intros [Hlt Hge]. destruct (Hrun Hlt) as (s2 & Heq2 & Hs2 & Hti2).
    destruct (consistent_run live [ClockUpdate delta rs] s2 Hs2)
      as (s3 & Heq3 & Hs3).
    exists s3. split.
    + rewrite run_app. unfold bind. by rewrite Heq2.
    + rewrite step_as_run in Heq3.
      pose proof (wpx_inv _ _ _ _ _ _
                    (ti_step _ None live _ s2 Hti2) Heq3) as Hti3.
      cbn [window_after window_tick] in Hti3.
      apply Z.leb_le in Hge. rewrite Hge in Hti3.
      apply (ti_none _ _ _ Hti3 eq_refl).
Qed.
(** * Waves *)

Lemma spawnWave_registers s :
  gameStarted s = true → isGameOver s = false →
  ∃ s', spawnWave s = Ok tt s'
        ∧ timers s'
          = <[S (nextTimer s) := checkTimerOf s]>
              (<[nextTimer s := spawnTimerOf s]> (timers s))
        ∧ spawnedAt (nextTimer s) s' = 0
        ∧ wave s' = wave s ∧ enemiesPerWave s' = enemiesPerWave s
        ∧ enemies s' = enemies s.
Proof.
  intros Hg Ho. unfold spawnWave, bind, get, modify, addEvent, ret.
  rewrite Hg, Ho. cbn [negb orb]. eexists. split; [done|]. fields.
  unfold spawnedAt. fields. by rewrite lookup_insert_eq.
Qed.

(** C7: for wave [w] the spawn timer that [spawnWave] registers has the
    delay max(220, 900 - min(w*60, 600)) ms, 840 ms for wave 1; when the
    wave check finds the quota spawned and no enemy active it adds 1 to
    [wave], sets [enemiesPerWave] to min(12, enemiesPerWave + 1), removes
    itself and registers the 700 ms call of the next wave, no spawn timer
    yet, and otherwise it changes nothing; that call does nothing before
    the clock has counted 700 ms, then spawns the next wave, unless the
    run is over, when it is dropped with no effect. *)
Theorem wave_progression (s : State) (t cell : nat) (count counted : Z)
    (delta : Z) :
  consistent s → gameStarted s = true → isGameOver s = false →
  (∃ s', spawnWave s = Ok tt s'
         ∧ timers s' !! nextTimer s
           = Some (mkTimer (Z.max 220 (900 - Z.min (wave s * 60) 600)) true 0
                     (SpawnTick (nextTimer s) (enemiesPerWave s)))
         ∧ wave s' = wave s ∧ enemies s' = enemies s)
  ∧ spawnDelay 1 = 840
  ∧ (count ≤ spawnedAt cell s → countActive Enemies s = 0 →
     ∃ s', checkWave t cell count s = Ok tt s'
           ∧ wave s' = wave s + 1
           ∧ enemiesPerWave s' = Z.min 12 (enemiesPerWave s + 1)
           ∧ timers s'
             = <[nextTimer s := mkTimer 700 false 0 NextWave]>
                 (delete t (timers s))
           ∧ enemies s' = enemies s)
  ∧ (spawnedAt cell s < count ∨ countActive Enemies s ≠ 0 →
     checkWave t cell count s = Ok tt s)
  ∧ (timers s !! t = Some (mkTimer 700 false counted NextWave) →
     (counted + delta < 700 →
      stepTimer delta t s
      = Ok tt (set_timers
                 (<[t := mkTimer 700 false (counted + delta) NextWave]>
                    (timers s)) s))
     ∧ (700 ≤ counted + delta →
        ∃ s', stepTimer delta t s = Ok tt s'
              ∧ timers s'
                = <[S (nextTimer s) := checkTimerOf s]>
                    (<[nextTimer s := spawnTimerOf s]> (delete t (timers s)))
              ∧ wave s' = wave s))
  ∧ (timers s !! t = Some (mkTimer 700 false counted NextWave) →
     700 ≤ counted + delta →
     ∃ s', stepTimer delta t (set_isGameOver true s) = Ok tt s'
           ∧ timers s' = delete t (timers s)
           ∧ nextTimer s' = nextTimer s ∧ spawned s' = spawned s
           ∧ wave s' = wave s ∧ enemies s' = enemies s).
Proof.
  intros H Hg Ho. repeat apply conj.
  - destruct (spawnWave_registers s Hg Ho) as (s' & Heq & Ht & _ & Hw & _ & He).
    exists s'. split; [done|]. split; [|done]. rewrite Ht.
    rewrite lookup_insert_ne by lia. by rewrite lookup_insert_eq.
  - done.
  - intros Hc Hz. unfold checkWave, bind, get, modify, delayedCall, addEvent,
      ret. rewrite Ho. apply Z.leb_le in Hc. apply Z.eqb_eq in Hz.
    rewrite Hc, Hz. cbn [andb]. eexists. split; [done|]. by fields.
  - intros Hor. unfold checkWave, bind, get, ret. rewrite Ho.
    destruct Hor as [Hlt | Hne].
    + apply Z.leb_gt in Hlt. by rewrite Hlt.
    + apply Z.eqb_neq in Hne. by rewrite Hne, andb_false_r.
  - intros Ht.
    assert (Hlt : (t < nextTimer s)%nat).
    { destruct (cs_window s H) as [p Hp]. apply (ti_dom _ _ _ Hp). eauto. }
    split.
    + intros Hlt'. unfold stepTimer, bind, get, modify. rewrite Ht.
      cbn [delay elapsed]. apply Z.leb_gt in Hlt'. by rewrite Hlt'.
    + intros Hge. unfold stepTimer, bind, get, modify at 1. rewrite Ht.
      cbn [delay elapsed callback fire]. apply Z.leb_le in Hge. rewrite Hge.
      unfold nextWave, bind, get. fields. rewrite Ho. cbn [negb].
      set (s0 := set_timers _ s).
      destruct (spawnWave_registers s0 Hg Ho)
        as (s' & Heq & Ht' & _ & Hw & _ & He).
      rewrite Heq. unfold modify.
      assert (Hlk : timers s' !! t
                    = Some (set_elapsed 700 (mkTimer 700 false counted NextWave))).
      { rewrite Ht'. subst s0. fields.
        rewrite !lookup_insert_ne by lia. by rewrite lookup_insert_eq. }
      rewrite Hlk. cbn [loop set_elapsed]. eexists. split; [done|]. fields.
      split; [|done]. rewrite Ht'. subst s0. fields.
      rewrite !delete_insert_ne by lia. by rewrite delete_insert_eq.
  - intros Ht Hge. unfold stepTimer, bind, get, modify at 1. fields.
    rewrite Ht. cbn [delay elapsed callback fire].
    apply Z.leb_le in Hge. rewrite Hge.
    unfold nextWave, bind, get, ret, modify. fields. cbn [negb]. fields.
    rewrite lookup_insert_eq. cbn [loop set_elapsed].
    eexists. split; [done|]. fields. by rewrite delete_insert_eq.
Qed.

(** * The off-screen cleanup *)

Lemma forEach_app {A : Type} (l1 l2 : list A) (f : A → M unit) s :
  forEach (l1 ++ l2) f s = (forEach l1 f >> forEach l2 f) s.
Proof.
  revert s. induction l1 as [|a l1 IH]; intros s; [done|].
  cbn [app forEach]. unfold bind in *.
  destruct (f a s) as [[] s1|]; [apply IH | done].
Qed.

(** A loop over a live array with an invariant that follows the index:
    at the exit the index is past the end. *)
Lemma wpx_forOfFrom_ix (E : State → Prop) (I : nat → State → Prop)
    (arr : State → list nat) (f : nat → M unit) :
  (∀ n i a s, I i s → arr s !! i = Some a → (length (arr s) ≤ n)%nat →
              wpx E (f a)
                  (λ _ s', I (S i) s' ∧ (length (arr s') ≤ n)%nat) s) →
  ∀ fuel i s, I i s → (length (arr s) - i < fuel)%nat →
              wpx E (forOfFrom fuel arr i f)
                  (λ _ s', ∃ j, I j s' ∧ arr s' !! j = None) s.
Proof.
  intros Hf. induction fuel as [|fuel IH]; intros i s Hs Hlen; [lia|].
  cbn [forOfFrom]. unfold wpx at 1.
  destruct (arr s !! i) as [a|] eqn:Hi; [|by exists i].
  pose proof (lookup_lt_Some _ _ _ Hi).
  fold (wpx E (f a >> forOfFrom fuel arr (S i) f)
          (λ _ s', ∃ j, I j s' ∧ arr s' !! j = None) s).
  apply wpx_bind.
  eapply wpx_mono; [apply (Hf (length (arr s)) i a s Hs Hi); lia|].
  intros [] s' [Hs' Hle]. apply IH; [done | lia].
Qed.

(** The same as [wpx_forOf], with the round's element known to be in the
    array: as it is now for a live array, as it was for a copy. *)
Lemma wpx_forOf_mem (E : State → Prop) (I : State → Prop) (live : bool)
    (arr : State → list nat) (f : nat → M unit) s :
  I s →
  (∀ n a s', (if live then a ∈ arr s' else a ∈ arr s) → I s' →
             (length (arr s') ≤ n)%nat →
             wpx E (f a) (λ _ s'', I s'' ∧ (length (arr s'') ≤ n)%nat) s') →
  wpx E (forOf live arr f) (λ _, I) s.
Proof.
  intros Hs Hf. unfold wpx at 1, forOf. destruct live.
  - eapply wpx_mono;
      [apply (wpx_forOfFrom_ix E (λ _, I) arr f); [|done|lia]|].
    + intros n i a s' Hs' Ha Hn. apply Hf; [|done|done].
      by apply list_elem_of_lookup_2 in Ha.
    + by intros [] s' (_ & Hs' & _).
  - apply wpx_forEach; [done|].
    intros a s' Ha Hs'.
    eapply wpx_mono; [apply (Hf (length (arr s')) a s' Ha Hs'); lia|].
    by intros _ s'' [? _].
Qed.

Lemma splice_out_delete (l : list nat) i a :
  NoDup l → l !! i = Some a → splice_out a l = delete i l.
Proof.
  revert i. induction l as [|b l IH]; intros i Hnd Hi; [done|].
  apply NoDup_cons in Hnd as [Hb Hnd]. cbn [splice_out].
  destruct i as [|i]; cbn in Hi.
  - injection Hi as ->. by rewrite decide_True.
  - rewrite decide_False.
    + cbn. f_equal. by apply IH.
    + intros ->. apply Hb. by apply list_elem_of_lookup_2 in Hi.
Qed.

Lemma inactive_destroyed o a e s : inactive o s → inactive o (destroyed a e s).
Proof.
  intros (eo & Ho & Ha). unfold inactive. rewrite ents_destroyed.
  destruct (decide (a = o)) as [->|].
  - rewrite lookup_alter_eq, Ho. cbn. by eexists.
  - rewrite lookup_alter_ne by done. by eexists.
Qed.

Lemma inactive_not_member s g o : wf s → inactive o s → o ∉ getChildren g s.
Proof.
  intros H (e & He & Ha) Hin.
  destruct (member_of s g o H Hin) as (_ & e' & He' & _ & Ha').
  congruence.
Qed.

Lemma inactive_is_inactive o s : inactive o s → is_active s o = false.
Proof. intros (e & He & Ha). unfold is_active. by rewrite He. Qed.

(** A cleanup round keeps the scene well formed and an inactive object
    inactive. *)
Lemma cleanupOne_keeps g a o n s :
  wf s → inactive o s → (length (getChildren g s) ≤ n)%nat →
  wp (cleanupOne g a)
     (λ _ s', (wf s' ∧ inactive o s')
              ∧ (length (getChildren g s') ≤ n)%nat) s.
Proof.
  intros H Ho Hn. unfold cleanupOne. wp_steps; try done.
  destruct (safeDestroy_outcomes (Some a) s) as (s' & Heq & Hout).
  eapply wpx_of_eq; [done|].
  pose proof (wpx_inv _ _ _ _ _ _ (wf_safeDestroy _ s H) Heq) as Hwf.
  pose proof (safeDestroy_length g _ _ _ Hout).
  split; [|lia]. split; [done|].
  destruct Hout; try done. by apply inactive_destroyed.
Qed.

Lemma cleanupGroup_keeps live g o s :
  wf s → inactive o s →
  wp (cleanupGroup live g) (λ _ s', wf s' ∧ inactive o s') s.
Proof.
  intros H Ho. unfold cleanupGroup.
  apply (wpx_forOf _ (λ s', wf s' ∧ inactive o s')); [done|].
  intros n a s' [Hs' Ho'] Hn. by apply cleanupOne_keeps.
Qed.

(** The cleanup of a group leaves every other group, and the objects in
    it, as they are. *)
Lemma cleanupGroup_frame live g' g s :
  wf s → g ≠ g' →
  wp (cleanupGroup live g')
     (λ _ s', wf s' ∧ getChildren g s' = getChildren g s
              ∧ ∀ x, x ∈ getChildren g s → ents s' !! x = ents s !! x) s.
Proof.
  intros H Hgg. unfold cleanupGroup.
  apply (wpx_forOf_mem _
           (λ s', wf s' ∧ getChildren g s' = getChildren g s
                  ∧ ∀ x, x ∈ getChildren g s → ents s' !! x = ents s !! x));
    [done|].
  intros n a s' Ha (Hs' & Hl & He) Hn.
  assert (Hna : a ∉ getChildren g s').
  { destruct live.
    - intros Hin. by apply (wf_disjoint s' Hs' g g' a).
    - rewrite Hl. intros Hin. by apply (wf_disjoint s H g g' a). }
  unfold cleanupOne. wp_steps; try done.
  destruct (safeDestroy_outcomes (Some a) s') as (s'' & Heq & Hout).
  eapply wpx_of_eq; [done|].
  pose proof (wpx_inv _ _ _ _ _ _ (wf_safeDestroy _ s' Hs') Heq) as Hwf.
  pose proof (safeDestroy_length g' _ _ _ Hout).
  split; [|lia]. split; [done|].
  destruct Hout as [| | | | |o0 e0 [= <-] Hne0 He0 Ha0 Hd0]; try done.
  split.
  - rewrite getChildren_destroyed, <-Hl. by apply splice_out_id.
  - intros x Hx. rewrite ents_destroyed, lookup_alter_ne; [by apply He|].
    intros ->. apply Hna. by rewrite Hl.
Qed.
(** The round of the cleanup on an off-screen child destroys it. *)
Lemma cleanupOne_removes g o e s :
  wf s → o ∈ getChildren g s → ents s !! o = Some e →
  offScreen g e = true →
  cleanupOne g o s = Ok tt (destroyed o e s).
Proof.
  intros H Ho He Hoff.
  destruct (safeDestroy_member s g o H Ho) as (e' & He' & Ha & Heq).
  rewrite He in He'. injection He' as <-.
  unfold cleanupOne, bind, get. by rewrite He, Ha, Hoff.
Qed.

(** The round on a child that is on screen changes nothing. *)
Lemma cleanupOne_on_screen g a ea s :
  ents s !! a = Some ea → offScreen g ea = false →
  cleanupOne g a s = Ok tt s.
Proof.
  intros He Hoff. unfold cleanupOne, bind, get, ret. rewrite He, Hoff.
  by destruct (negb (active ea)).
Qed.

(** The cleanup of a live group reaches, and removes, an off-screen child
    whose predecessor is kept. *)
Lemma cleanupGroup_removes_live g s i o e :
  wf s → getChildren g s !! i = Some o → ents s !! o = Some e →
  offScreen g e = true → kept_before g s i →
  wp (cleanupGroup true g) (λ _ s', wf s' ∧ inactive o s') s.
Proof.
  intros H Hi He Hoff Hkept. unfold cleanupGroup, forOf.
  set (J := λ (j : nat) (s' : State),
         wf s' ∧
         (inactive o s' ∨
          ∃ k, (j ≤ k)%nat ∧ getChildren g s' !! k = Some o
               ∧ ents s' !! o = Some e
               ∧ ((j < k)%nat →
                  ∃ p ep, getChildren g s' !! (k - 1)%nat = Some p
                          ∧ ents s' !! p = Some ep
                          ∧ offScreen g ep = false))).
  eapply wpx_mono;
    [apply (wpx_forOfFrom_ix _ J (getChildren g) (cleanupOne g))|].
  - intros n j a s' [Hwf HJ] Ha Hn.
    destruct HJ as [Hin | (k & Hjk & Hk & Hoe & Hpred)].
    { eapply wpx_mono; [by apply cleanupOne_keeps|].
      intros [] s'' [[? ?] ?]. split; [|done]. split; [done | by left]. }
    destruct (decide (k = j)) as [->|Hne].
    + rewrite Hk in Ha. injection Ha as <-.
      assert (Hmem : o ∈ getChildren g s')
        by by apply list_elem_of_lookup_2 in Hk.
      eapply wpx_of_eq; [by apply cleanupOne_removes|].
      split.
      * split; [apply wf_destroyed; [done | by apply (member_of s' g o)]|].
        left. exists (set_active false e).
        by destruct (destroyed_gone s' g o e Hwf Hoe) as (_ & _ & ->).
      * rewrite getChildren_destroyed.
        pose proof (splice_out_length o (getChildren g s')). lia.
    + assert (Hlt : (j < k)%nat) by lia.
      destruct (Hpred Hlt) as (p & ep & Hp & Hep & Hpoff).
      assert (Hmem : a ∈ getChildren g s')
        by by apply list_elem_of_lookup_2 in Ha.
      destruct (member_of s' g a Hwf Hmem) as (Haw & ea & Hea & Hd & Hact).
      assert (Hao : a ≠ o).
      { intros ->. apply Hne.
        by apply (NoDup_lookup _ _ _ _ (wf_nodup s' Hwf g) Hk Ha). }
      destruct (offScreen g ea) eqn:Haoff.
      * assert (Hk2 : (S j < k)%nat).
        { destruct (decide (k = S j)) as [->|]; [|lia].
          replace (S j - 1)%nat with j in Hp by lia.
          rewrite Ha in Hp. injection Hp as <-. congruence. }
        eapply wpx_of_eq; [by apply (cleanupOne_removes g a ea)|].
        assert (Hdel : getChildren g (destroyed a ea s')
                       = delete j (getChildren g s')).
        { rewrite getChildren_destroyed.
          by apply splice_out_delete; [apply (wf_nodup s' Hwf g)|]. }
        split.
        -- split; [by apply wf_destroyed|]. right. exists (k - 1)%nat.
           split; [lia|]. rewrite Hdel. split.
           { rewrite list_lookup_delete_ge by lia.
             by replace (S (k - 1)) with k by lia. }
           split.
           { by rewrite ents_destroyed, lookup_alter_ne. }
           intros _. exists p, ep. split.
           { rewrite list_lookup_delete_ge by lia.
             by replace (S (k - 1 - 1)) with (k - 1)%nat by lia. }
           split; [|done].
           rewrite ents_destroyed, lookup_alter_ne; [done|].
           intros ->.
           pose proof (NoDup_lookup _ _ _ _ (wf_nodup s' Hwf g) Ha Hp). lia.
        -- rewrite Hdel, length_delete by eauto. lia.
      * eapply wpx_of_eq; [by apply (cleanupOne_on_screen g a ea)|].
        split; [|done]. split; [done|]. right. exists k.
        split; [lia|]. split; [done|]. split; [done|]. intros _. eauto.
  - split; [done|]. right. exists i. split; [lia|]. split; [done|].
    split; [done|]. intros Hlt. destruct i as [|i]; [lia|].
    replace (S i - 1)%nat with i by lia. exact Hkept.
  - lia.
  - intros [] s' (j & [Hwf HJ] & Hnone). split; [done|].
    destruct HJ as [?|(k & Hjk & Hk & _)]; [done|].
    apply lookup_lt_Some in Hk. apply lookup_ge_None in Hnone. lia.
Qed.

(** The cleanup of a copied group visits, and removes, every off-screen
    child. *)
Lemma cleanupGroup_removes_copy g s i o e :
  wf s → getChildren g s !! i = Some o → ents s !! o = Some e →
  offScreen g e = true →
  wp (cleanupGroup false g) (λ _ s', wf s' ∧ inactive o s') s.
Proof.
  intros H Hi He Hoff. unfold cleanupGroup, forOf, wpx at 1.
  rewrite <-(take_drop_middle _ _ _ Hi), forEach_app.
  pose proof (wf_nodup s H g) as Hnd.
  rewrite <-(take_drop_middle _ _ _ Hi) in Hnd.
  apply NoDup_app in Hnd as (_ & Hnot & _).
  fold (wpx (λ _, False)
          (forEach (take i (getChildren g s)) (cleanupOne g)
           >> forEach (o :: drop (S i) (getChildren g s)) (cleanupOne g))
          (λ _ s', wf s' ∧ inactive o s') s).
  apply wpx_bind.
  eapply wpx_mono;
    [apply (wpx_forEach _
              (λ s', wf s' ∧ o ∈ getChildren g s' ∧ ents s' !! o = Some e))|].
  - split; [done|]. split; [by apply list_elem_of_lookup_2 in Hi | done].
  - intros a s' Ha (Hwf & Hmem & Hoe).
    assert (Hao : a ≠ o) by (intros ->; apply (Hnot o Ha); by left).
    unfold cleanupOne. wp_steps; try done.
    destruct (safeDestroy_outcomes (Some a) s') as (s'' & Heq & Hout).
    eapply wpx_of_eq; [done|].
    split; [exact (wpx_inv _ _ _ _ _ _ (wf_safeDestroy _ s' Hwf) Heq)|].
    assert (Hother : Some a ≠ Some o) by congruence.
    destruct (safeDestroy_other _ o _ _ Hout Hother) as (He' & Hm' & _).
    split; [by apply Hm' | by rewrite He'].
  - intros [] s1 (Hwf1 & Hmem1 & Hoe1). cbn [forEach]. apply wpx_bind.
    eapply wpx_of_eq; [by apply (cleanupOne_removes g o e)|].
    apply wpx_forEach.
    + split; [apply wf_destroyed; [done | by apply (member_of s1 g o)]|].
      exists (set_active false e).
      by destruct (destroyed_gone s1 g o e Hwf1 Hoe1) as (_ & _ & ->).
    + intros a s2 _ [Hwf2 Hin2].
      eapply wpx_mono;
        [apply (cleanupOne_keeps g a o (length (getChildren g s2)));
           done|].
      by intros [] s3 [? _].
Qed.

Lemma cleanupGroup_removes live g s i o e :
  wf s → getChildren g s !! i = Some o → ents s !! o = Some e →
  offScreen g e = true → live = false ∨ kept_before g s i →
  wp (cleanupGroup live g) (λ _ s', wf s' ∧ inactive o s') s.
Proof.
  intros H Hi He Hoff Hor. destruct live.
  - destruct Hor as [?|Hk]; [done|]. by eapply cleanupGroup_removes_live.
  - by eapply cleanupGroup_removes_copy.
Qed.
(** The cleanup of another group leaves an off-screen child, and the
    child before it, in place. *)
Lemma cleanupGroup_before live g' g s i o e :
  g ≠ g' →
  wf s → getChildren g s !! i = Some o → ents s !! o = Some e →
  live = false ∨ kept_before g s i →
  wp (cleanupGroup live g')
     (λ _ s', wf s' ∧ getChildren g s' !! i = Some o
              ∧ ents s' !! o = Some e
              ∧ (live = false ∨ kept_before g s' i)) s.
Proof.
  intros Hgg H Hi He Hor.
  eapply wpx_mono; [by apply (cleanupGroup_frame live g' g s)|].
  intros [] s' (Hwf & Hl & Hents). split; [done|].
  rewrite Hl. split; [done|]. split.
  { rewrite Hents; [done|]. by apply list_elem_of_lookup_2 in Hi. }
  destruct Hor as [?|Hk]; [by left | right].
  destruct i as [|j]; [done|]. cbn [kept_before] in *.
  destruct Hk as (p & ep & Hp & Hep & Hoff). exists p, ep.
  rewrite Hl. split; [done|]. split; [|done].
  rewrite Hents; [done|]. by apply list_elem_of_lookup_2 in Hp.
Qed.

Lemma cleanupObjects_removes live s g i o e :
  wf s → getChildren g s !! i = Some o → ents s !! o = Some e →
  offScreen g e = true → live = false ∨ kept_before g s i →
  wp (cleanupObjects live) (λ _ s', wf s' ∧ inactive o s') s.
Proof.
  intros H Hi He Hoff Hor. unfold cleanupObjects.
  destruct g.
  - (* enemies: third loop *)
    wp_call (cleanupGroup_before live PlayerBullets Enemies s i o e);
      try done.
    intros [] s1 (H1 & Hi1 & He1 & Hor1).
    wp_call (cleanupGroup_before live EnemyBullets Enemies s1 i o e);
      try done.
    intros [] s2 (H2 & Hi2 & He2 & Hor2).
    wp_call (cleanupGroup_removes live Enemies s2 i o e); try done.
    intros [] s3 [H3 Hin3]. by apply cleanupGroup_keeps.
  - (* player bullets: first loop *)
    wp_call (cleanupGroup_removes live PlayerBullets s i o e); try done.
    intros [] s1 [H1 Hin1].
    wp_call (cleanupGroup_keeps live EnemyBullets o s1); try done.
    intros [] s2 [H2 Hin2].
    wp_call (cleanupGroup_keeps live Enemies o s2); try done.
    intros [] s3 [H3 Hin3]. by apply cleanupGroup_keeps.
  - (* enemy bullets: second loop *)
    wp_call (cleanupGroup_before live PlayerBullets EnemyBullets s i o e);
      try done.
    intros [] s1 (H1 & Hi1 & He1 & Hor1).
    wp_call (cleanupGroup_removes live EnemyBullets s1 i o e); try done.
    intros [] s2 [H2 Hin2].
    wp_call (cleanupGroup_keeps live Enemies o s2); try done.
    intros [] s3 [H3 Hin3]. by apply cleanupGroup_keeps.
  - (* hearts: fourth loop *)
    wp_call (cleanupGroup_before live PlayerBullets Hearts s i o e);
      try done.
    intros [] s1 (H1 & Hi1 & He1 & Hor1).
    wp_call (cleanupGroup_before live EnemyBullets Hearts s1 i o e);
      try done.
    intros [] s2 (H2 & Hi2 & He2 & Hor2).
    wp_call (cleanupGroup_before live Enemies Hearts s2 i o e); try done.
    intros [] s3 (H3 & Hi3 & He3 & Hor3).
    by apply (cleanupGroup_removes live Hearts s3 i o e).
Qed.

(** A round of the cleanup on a child either destroys it, when it is
    off screen, or changes nothing. *)
Lemma cleanupOne_member g a s :
  wf s → a ∈ getChildren g s →
  ∃ ea, ents s !! a = Some ea ∧ active ea = true ∧ a ≠ worm s
        ∧ (offScreen g ea = true
           ∧ cleanupOne g a s = Ok tt (destroyed a ea s)
           ∨ offScreen g ea = false ∧ cleanupOne g a s = Ok tt s).
Proof.
  intros H Ha.
  destruct (member_of s g a H Ha) as (Hw & ea & Hea & _ & Hact).
  exists ea. split; [done|]. split; [done|]. split; [done|].
  destruct (offScreen g ea) eqn:Hoff.
  - left. split; [done|]. by apply cleanupOne_removes.
  - right. split; [done|]. by apply (cleanupOne_on_screen g a ea).
Qed.

Lemma destroyed_at g s j a ea :
  wf s → getChildren g s !! j = Some a → ents s !! a = Some ea →
  a ≠ worm s →
  wf (destroyed a ea s)
  ∧ getChildren g (destroyed a ea s) = delete j (getChildren g s)
  ∧ inactive a (destroyed a ea s)
  ∧ (∀ x, x ≠ a → ents (destroyed a ea s) !! x = ents s !! x)
  ∧ (length (getChildren g (destroyed a ea s))
     ≤ length (getChildren g s))%nat.
Proof.
  intros H Ha Hea Hw.
  assert (Hdel : getChildren g (destroyed a ea s) = delete j (getChildren g s)).
  { rewrite getChildren_destroyed.
    by apply splice_out_delete; [apply (wf_nodup s H g)|]. }
  split; [by apply wf_destroyed|]. split; [done|]. split.
  { exists (set_active false ea).
    by destruct (destroyed_gone s g a ea H Hea) as (_ & _ & ->). }
  split.
  { intros x Hx. by rewrite ents_destroyed, lookup_alter_ne. }
  rewrite Hdel, length_delete by eauto. lia.
Qed.

(** The pass over the live children of a group, at two neighbours [p]
    and [o], the second off screen: it removes [o] and keeps [p], or it
    removes [p] and, having skipped [o], keeps [o]. *)
Lemma cleanupGroup_live_pair g s i p o e :
  wf s → getChildren g s !! i = Some p → getChildren g s !! S i = Some o →
  ents s !! o = Some e → offScreen g e = true →
  wp (cleanupGroup true g) (λ _, pair_outcome g p o e) s.
Proof.
  intros H Hp Ho He Hoff. unfold cleanupGroup, forOf.
  set (J := λ (j : nat) (s' : State),
         wf s' ∧
         ((∃ k, (j ≤ k)%nat ∧ getChildren g s' !! k = Some p
                ∧ getChildren g s' !! S k = Some o ∧ ents s' !! o = Some e)
          ∨ (getChildren g s' !! j = Some o ∧ ents s' !! o = Some e
             ∧ ∃ k, (k < j)%nat ∧ getChildren g s' !! k = Some p)
          ∨ (inactive o s'
             ∧ ∃ k, (k < j)%nat ∧ getChildren g s' !! k = Some p)
          ∨ (inactive p s'
             ∧ ∃ k, (k < j)%nat ∧ getChildren g s' !! k = Some o
                    ∧ ents s' !! o = Some e))).
  eapply wpx_mono;
    [apply (wpx_forOfFrom_ix _ J (getChildren g) (cleanupOne g))|].
  - intros n j a s' [Hwf HJ] Ha Hn.
    assert (Hmem : a ∈ getChildren g s')
      by by apply list_elem_of_lookup_2 in Ha.
    pose proof (wf_nodup s' Hwf g) as Hnd.
    destruct (cleanupOne_member g a s' Hwf Hmem)
      as (ea & Hea & Hact & Haw & Hcases).
    destruct (destroyed_at g s' j a ea Hwf Ha Hea Haw)
      as (Dwf & Ddel & Dina & Dents & Dlen).
    destruct HJ as [(k & Hjk & Hkp & Hko & Hoe)
                   |[(Hjo & Hoe & k & Hkj & Hkp)
                    |[(Hino & k & Hkj & Hkp)
                     |(Hinp & k & Hkj & Hko & Hoe)]]].
    + (* both ahead *)
      assert (Hao : a ≠ o).
      { intros ->.
        pose proof (NoDup_lookup _ _ _ _ Hnd Ha Hko). lia. }
      destruct Hcases as [[Haoff Heq]|[Haoff Heq]];
        (eapply wpx_of_eq; [exact Heq|]).
      * split; [|lia]. split; [done|].
        destruct (decide (k = j)) as [->|Hne].
        -- (* the pass removes [p]; [o] moves under the index *)
           rewrite Hkp in Ha. injection Ha as <-.
           right. right. right. split; [done|]. exists j.
           split; [lia|]. split.
           { rewrite Ddel, list_lookup_delete_ge by lia. done. }
           by rewrite Dents.
        -- assert (Hap : a ≠ p).
           { intros ->. apply Hne.
             by apply (NoDup_lookup _ _ _ _ Hnd Hkp Ha). }
           destruct (decide (k = S j)) as [->|Hne2].
           ++ (* [p] moves under the index and is skipped *)
              right. left. split.
              { rewrite Ddel, list_lookup_delete_ge by lia. done. }
              split; [by rewrite Dents|]. exists j. split; [lia|].
              rewrite Ddel, list_lookup_delete_ge by lia. done.
           ++ left. exists (k - 1)%nat. split; [lia|].
              rewrite Ddel. split.
              { rewrite list_lookup_delete_ge by lia.
                by replace (S (k - 1)) with k by lia. }
              split.
              { rewrite list_lookup_delete_ge by lia.
                by replace (S (S (k - 1))) with (S k) by lia. }
              by rewrite Dents.
      * split; [|done]. split; [done|].
        destruct (decide (k = j)) as [->|Hne].
        -- (* the pass keeps [p]; [o] is next *)
           right. left. split; [done|]. split; [done|].
           exists j. split; [lia | done].
        -- left. exists k. split; [lia|]. done.
    + (* [o] is under the index *)
      rewrite Hjo in Ha. injection Ha as <-.
      rewrite Hoe in Hea. injection Hea as <-.
      destruct Hcases as [[Haoff Heq]|[Haoff Heq]]; [|congruence].
      eapply wpx_of_eq; [exact Heq|].
      split; [|lia]. split; [done|].
      right. right. left. split; [done|]. exists k. split; [lia|].
      rewrite Ddel, list_lookup_delete_lt by lia. done.
    + (* [o] is gone *)
      destruct Hcases as [[Haoff Heq]|[Haoff Heq]];
        (eapply wpx_of_eq; [exact Heq|]).
      * split; [|lia]. split; [done|].
        right. right. left. split; [by apply inactive_destroyed|].
        exists k. split; [lia|].
        rewrite Ddel, list_lookup_delete_lt by lia. done.
      * split; [|done]. split; [done|].
        right. right. left. split; [done|]. exists k. split; [lia | done].
    + (* [p] is gone, [o] is behind the index *)
      assert (Hao : a ≠ o).
      { intros ->.
        pose proof (NoDup_lookup _ _ _ _ Hnd Ha Hko). lia. }
      destruct Hcases as [[Haoff Heq]|[Haoff Heq]];
        (eapply wpx_of_eq; [exact Heq|]).
      * split; [|lia]. split; [done|].
        right. right. right. split; [by apply inactive_destroyed|].
        exists k. split; [lia|]. split.
        { rewrite Ddel, list_lookup_delete_lt by lia. done. }
        by rewrite Dents.
      * split; [|done]. split; [done|].
        right. right. right. split; [done|]. exists k.
        split; [lia|]. done.
  - split; [done|]. left. exists i. split; [lia|]. done.
  - lia.
  - intros [] s' (j & [Hwf HJ] & Hnone). split; [done|].
    apply lookup_ge_None in Hnone.
    destruct HJ as [(k & Hjk & Hkp & _)
                   |[(Hjo & _)
                    |[(Hino & k & Hkj & Hkp)
                     |(Hinp & k & Hkj & Hko & Hoe)]]].
    + apply lookup_lt_Some in Hkp. lia.
    + apply lookup_lt_Some in Hjo. lia.
    + left. split; [done|]. by apply list_elem_of_lookup_2 in Hkp.
    + right. split; [done|]. split; [|done].
      by apply list_elem_of_lookup_2 in Hko.
Qed.

(** The pass over another group keeps an inactive object inactive and a
    child of this group in place. *)
Lemma cleanupGroup_apart live g' g s x y ey :
  g ≠ g' → wf s → inactive x s → y ∈ getChildren g s →
  ents s !! y = Some ey →
  wp (cleanupGroup live g')
     (λ _ s', wf s' ∧ inactive x s' ∧ y ∈ getChildren g s'
              ∧ ents s' !! y = Some ey) s.
Proof.
  intros Hgg H Hx Hy Hey.
  pose proof (wpx_conj _ _ _ _ _ _
                (cleanupGroup_keeps live g' x s H Hx)
                (cleanupGroup_frame live g' g s H Hgg)) as Hwp.
  eapply wpx_weaken; [exact Hwp | by intros s' [? _] |].
  intros [] s' [[Hwf Hin] (_ & Hl & Hents)].
  split; [done|]. split; [done|]. rewrite Hl. split; [done|].
  by rewrite Hents.
Qed.

Lemma pair_outcome_apart live g' g p o e s :
  g ≠ g' → pair_outcome g p o e s →
  wp (cleanupGroup live g') (λ _, pair_outcome g p o e) s.
Proof.
  intros Hgg [H [[Hino Hp]|(Hinp & Ho & He)]].
  - destruct (member_of s g p H Hp) as (_ & ep & Hep & _).
    eapply wpx_mono;
      [by apply (cleanupGroup_apart live g' g s o p ep)|].
    intros [] s' (Hwf & ? & ? & _). split; [done|]. by left.
  - eapply wpx_mono;
      [by apply (cleanupGroup_apart live g' g s p o e)|].
    intros [] s' (Hwf & ? & ? & ?). split; [done|]. by right.
Qed.

(** The pass over another group leaves two neighbours in place. *)
Lemma cleanupGroup_pair_before live g' g s i p o e :
  g ≠ g' → wf s → getChildren g s !! i = Some p →
  getChildren g s !! S i = Some o → ents s !! o = Some e →
  wp (cleanupGroup live g')
     (λ _ s', wf s' ∧ getChildren g s' !! i = Some p
              ∧ getChildren g s' !! S i = Some o
              ∧ ents s' !! o = Some e) s.
Proof.
  intros Hgg H Hp Ho He.
  eapply wpx_mono; [by apply (cleanupGroup_frame live g' g s)|].
  intros [] s' (Hwf & Hl & Hents). split; [done|].
  rewrite Hl. split; [done|]. split; [done|].
  rewrite Hents; [done|]. by apply list_elem_of_lookup_2 in Ho.
Qed.

Lemma cleanupObjects_live_pair s g i p o e :
  wf s → getChildren g s !! i = Some p → getChildren g s !! S i = Some o →
  ents s !! o = Some e → offScreen g e = true →
  wp (cleanupObjects true) (λ _, pair_outcome g p o e) s.
Proof.
  intros H Hp Ho He Hoff. unfold cleanupObjects.
  destruct g.
  - (* enemies: third loop *)
    wp_call (cleanupGroup_pair_before true PlayerBullets Enemies s i p o e);
      try done.
    intros [] s1 (H1 & Hp1 & Ho1 & He1).
    wp_call (cleanupGroup_pair_before true EnemyBullets Enemies s1 i p o e);
      try done.
    intros [] s2 (H2 & Hp2 & Ho2 & He2).
    wp_call (cleanupGroup_live_pair Enemies s2 i p o e); try done.
    intros [] s3 H3. by apply pair_outcome_apart.
  - (* player bullets: first loop *)
    wp_call (cleanupGroup_live_pair PlayerBullets s i p o e); try done.
    intros [] s1 H1.
    wp_call (pair_outcome_apart true EnemyBullets PlayerBullets p o e s1);
      try done.
    intros [] s2 H2.
    wp_call (pair_outcome_apart true Enemies PlayerBullets p o e s2);
      try done.
    intros [] s3 H3. by apply pair_outcome_apart.
  - (* enemy bullets: second loop *)
    wp_call (cleanupGroup_pair_before true PlayerBullets EnemyBullets s i p o
               e); try done.
    intros [] s1 (H1 & Hp1 & Ho1 & He1).
    wp_call (cleanupGroup_live_pair EnemyBullets s1 i p o e); try done.
    intros [] s2 H2.
    wp_call (pair_outcome_apart true Enemies EnemyBullets p o e s2);
      try done.
    intros [] s3 H3. by apply pair_outcome_apart.
  - (* hearts: fourth loop *)
    wp_call (cleanupGroup_pair_before true PlayerBullets Hearts s i p o e);
      try done.
    intros [] s1 (H1 & Hp1 & Ho1 & He1).
    wp_call (cleanupGroup_pair_before true EnemyBullets Hearts s1 i p o e);
      try done.
    intros [] s2 (H2 & Hp2 & Ho2 & He2).
    wp_call (cleanupGroup_pair_before true Enemies Hearts s2 i p o e);
      try done.
    intros [] s3 (H3 & Hp3 & Ho3 & He3).
    by apply (cleanupGroup_live_pair Hearts s3 i p o e).
Qed.

(** C6, as the code has it: the cleanup pass removes an active player
    projectile with y < -80, x < -80 or x > 980, an enemy projectile with
    y > 705, x < -200 or x > 1100, an enemy with x > 1060 and a pickup
    with x > 960 (the test [offScreen] of its group), when the pass runs
    over a copy of the group's children, or, over the live children,
    when the pass does not remove the child before it in the group;
    when the pass over the live children removes the child before it,
    it skips the child, which stays in its group as it was.  Children of
    groups are active. *)
Theorem cleanup_removes_off_screen (live : bool) (s : State) (g : Group)
    (i o : nat) (e : Entity) :
  wf s → getChildren g s !! i = Some o → ents s !! o = Some e →
  offScreen g e = true →
  ∃ s', cleanupObjects live s = Ok tt s'
        ∧ (live = false ∨ kept_through g s s' i →
           is_active s' o = false ∧ ∀ g', o ∉ getChildren g' s')
        ∧ (live = true → lost_before g s s' i →
           is_active s' o = true ∧ o ∈ getChildren g s'
           ∧ ents s' !! o = Some e).
Proof.
  intros H Hi He Hoff.
  assert (Hgone : ∀ s', wf s' → inactive o s' →
            is_active s' o = false ∧ ∀ g', o ∉ getChildren g' s').
  { intros s' Hwf Hin. split; [by apply inactive_is_inactive|].
    intros g'. by apply inactive_not_member. }
  destruct live; [destruct i as [|j]|].
  - (* the first child *)
    destruct (wpx_returns _ _ _
                (cleanupObjects_removes true s g 0 o e H Hi He Hoff
                   (or_intror I)))
      as ([] & s' & Heq & Hwf & Hin).
    exists s'. split; [done|]. split; [auto | by intros _ []].
  - (* a child with a neighbour before it *)
    destruct (lookup_lt_is_Some_2 (getChildren g s) j) as [p Hp].
    { apply lookup_lt_Some in Hi. lia. }
    destruct (wpx_returns _ _ _
                (cleanupObjects_live_pair s g j p o e H Hp Hi He Hoff))
      as ([] & s' & Heq & Hwf & Hout).
    exists s'. split; [done|]. split.
    + intros [?|(p' & Hp' & Hact)]; [done|].
      assert (p' = p) by congruence. subst p'.
      destruct Hout as [[Hino _]|(Hinp & _)]; [auto|].
      apply inactive_is_inactive in Hinp. congruence.
    + intros _ (p' & Hp' & Hact).
      assert (p' = p) by congruence. subst p'.
      destruct Hout as [[_ Hmem]|(_ & Hmem & Hoe)].
      * destruct (member_of s' g p Hwf Hmem) as (_ & ep & Hep & _ & Ha).
        unfold is_active in Hact. rewrite Hep in Hact. congruence.
      * destruct (member_of s' g o Hwf Hmem) as (_ & eo & Heo & _ & Ha).
        split; [|done]. unfold is_active. rewrite Heo. done.
  - (* the pass over a copy *)
    destruct (wpx_returns _ _ _
                (cleanupObjects_removes false s g i o e H Hi He Hoff
                   (or_introl eq_refl)))
      as ([] & s' & Heq & Hwf & Hin).
    exists s'. split; [done|]. split; [auto | by intros [=]].
Qed.

Lemma below_screen_eq :
  run true [PointerDown; Moved 1 450 10000] started = Ok tt below_screen.
Proof. vm_compute. reflexivity. Qed.

Lemma consistent_below_screen : consistent below_screen.
Proof.
  destruct (consistent_run true [PointerDown; Moved 1 450 10000] started
              consistent_started) as (s' & Heq & Hs').
  rewrite below_screen_eq in Heq. by injection Heq as <-.
Qed.

(** C6, as it is stated, fails: a player projectile far below the screen
    stays, whether the pass runs over the live children or over a copy. *)
Lemma cleanup_keeps_bullet_below :
  ¬ cleanup_removes_all_beyond true ∧ ¬ cleanup_removes_all_beyond false.
Proof.
  assert (Hb : ents below_screen !! 1%nat
               = Some (set_pos 450 10000 (newObject 450 380)))
    by (vm_compute; reflexivity).
  assert (Hm : (1%nat : nat) ∈ getChildren PlayerBullets below_screen)
    by (vm_compute; left).
  assert (Hy : beyond_margin PlayerBullets
                 (set_pos 450 10000 (newObject 450 380)))
    by (vm_compute; tauto).
  split; intros Hclaim;
    destruct (Hclaim below_screen PlayerBullets 1%nat _
                consistent_below_screen Hm Hb eq_refl Hy)
      as (s' & Heq & Hact).
  - assert (Hr : cleanupObjects true below_screen = Ok tt below_screen)
      by (vm_compute; reflexivity).
    rewrite Hr in Heq. injection Heq as <-. by vm_compute in Hact.
  - assert (Hr : cleanupObjects false below_screen = Ok tt below_screen)
      by (vm_compute; reflexivity).
    rewrite Hr in Heq. injection Heq as <-. by vm_compute in Hact.
Qed.

(** * The claims at concrete scenes *)

Lemma consistent_set_health v s :
  consistent s → 0 ≤ v ≤ maxHealth s → consistent (set_health v s).
Proof.
  intros [H1 H2 H3 H4 H5 [p H6]] Hv. split; try done.
  - wf_framed.
  - exists p. ti_framed.
Qed.

Lemma consistent_final live evs s :
  consistent s → consistent (final (run live evs s)).
Proof.
  intros H. destruct (consistent_run live evs s H) as (s' & Heq & Hs').
  by rewrite Heq.
Qed.

Lemma consistent_last_life : consistent last_life.
Proof. apply consistent_final, consistent_started. Qed.

Lemma consistent_one_above : consistent one_above.
Proof. apply consistent_final, consistent_started. Qed.

Lemma consistent_three_above : consistent three_above.
Proof. apply consistent_final, consistent_started. Qed.

Lemma consistent_enemy_out : consistent enemy_out.
Proof. apply consistent_final, consistent_started. Qed.

Lemma consistent_wave_cleared : consistent wave_cleared.
Proof. apply consistent_final, consistent_started. Qed.

Lemma consistent_heart_out : consistent heart_out.
Proof.
  apply consistent_set_health; [apply consistent_final, consistent_started|].
  by vm_compute.
Qed.


(** Over the live children the pass skips the child that follows a
    removed one: of two projectiles above the screen the second stays;
    over a copy both go. *)
Lemma live_cleanup_skips_next :
  playerBullets two_above = [1; 2]%nat
  ∧ playerBullets (final (cleanupObjects true two_above)) = [2%nat]
  ∧ is_active (final (cleanupObjects true two_above)) 2 = true
  ∧ playerBullets (final (cleanupObjects false two_above)) = [].
Proof.
  split; [vm_compute; reflexivity|]. split; [vm_compute; reflexivity|].
  split; vm_compute; reflexivity.
Qed.

Lemma worm_never_removed_witness :
  consistent last_life
  ∧ ∃ s', run true [OverlapBulletEnemy (Some 5%nat) (Some 0%nat);
                    DestroyRequest (Some 0%nat);
                    OverlapEnemyWorm (Some 0%nat) (Some 3%nat)] last_life
          = Ok tt s'
          ∧ is_active s' (worm last_life) = true.
Proof.
  split; [exact consistent_last_life|].
  destruct (worm_never_removed true
              [OverlapBulletEnemy (Some 5%nat) (Some 0%nat);
               DestroyRequest (Some 0%nat);
               OverlapEnemyWorm (Some 0%nat) (Some 3%nat)]
              last_life consistent_last_life)
    as [(s' & Heq & _ & _ & Ha & _) _].
  exists s'. split; [exact Heq | exact Ha].
Defined.

Lemma lives_never_increase_witness :
  consistent last_life
  ∧ ∃ s', run true [OverlapEnemyWorm (Some 3%nat) (Some 0%nat);
                    OverlapEnemyBulletWorm None (Some 0%nat)] last_life
          = Ok tt s'
          ∧ 0 ≤ lives s' ≤ lives last_life.
Proof.
  split; [exact consistent_last_life|].
  destruct (lives_never_increase true
              [OverlapEnemyWorm (Some 3%nat) (Some 0%nat);
               OverlapEnemyBulletWorm None (Some 0%nat)]
              last_life consistent_last_life)
    as (s' & Heq & _ & Hl & _).
  exists s'. split; [exact Heq | exact Hl].
Defined.

Lemma health_only_heals_witness :
  consistent heart_out
  ∧ ∃ s', heal 28 heart_out = Ok tt s' ∧ health s' = 100.
Proof.
  split; [exact consistent_heart_out|].
  destruct (health_only_heals true [] [] heart_out consistent_heart_out)
    as (_ & _ & _ & _ & Hheal & _).
  destruct (Hheal 28) as (s' & Heq & Hh).
  exists s'. split; [exact Heq|]. rewrite Hh. vm_compute. reflexivity.
Defined.

Lemma cleanup_removes_off_screen_witness :
  wf three_above
  ∧ getChildren PlayerBullets three_above !! 2%nat = Some 3%nat
  ∧ ents three_above !! 3%nat = Some (set_pos 450 (-100) (newObject 450 380))
  ∧ offScreen PlayerBullets (set_pos 450 (-100) (newObject 450 380)) = true
  ∧ ∃ s', cleanupObjects true three_above = Ok tt s'
          ∧ kept_through PlayerBullets three_above s' 2
          ∧ is_active s' 3 = false.
Proof.
  assert (H2 : getChildren PlayerBullets three_above !! 2%nat = Some 3%nat)
    by (vm_compute; reflexivity).
  assert (H3 : ents three_above !! 3%nat
               = Some (set_pos 450 (-100) (newObject 450 380)))
    by (vm_compute; reflexivity).
  assert (H4 : offScreen PlayerBullets
                 (set_pos 450 (-100) (newObject 450 380)) = true)
    by (vm_compute; reflexivity).
  assert (Hfinal : cleanupObjects true three_above
                   = Ok tt (final (cleanupObjects true three_above)))
    by (vm_compute; reflexivity).
  split; [exact (cs_wf _ consistent_three_above)|].
  split; [exact H2|]. split; [exact H3|]. split; [exact H4|].
  destruct (cleanup_removes_off_screen true three_above PlayerBullets 2 3 _
              (cs_wf _ consistent_three_above) H2 H3 H4)
    as (s' & Heq & Hrem & _).
  assert (Hk : kept_through PlayerBullets three_above s' 2).
  { exists 2%nat. split; [vm_compute; reflexivity|].
    rewrite Hfinal in Heq. injection Heq as <-. vm_compute. reflexivity. }
  exists s'. split; [exact Heq|]. split; [exact Hk|].
  exact (proj1 (Hrem (or_intror Hk))).
Defined.

Lemma wave_progression_witness :
  consistent wave_cleared ∧ gameStarted wave_cleared = true
  ∧ isGameOver wave_cleared = false
  ∧ ∃ s', checkWave 2 1 4 wave_cleared = Ok tt s'
          ∧ wave s' = 2 ∧ enemiesPerWave s' = 5.
Proof.
  assert (H2 : gameStarted wave_cleared = true) by (vm_compute; reflexivity).
  assert (H3 : isGameOver wave_cleared = false) by (vm_compute; reflexivity).
  split; [exact consistent_wave_cleared|]. split; [exact H2|].
  split; [exact H3|].
  destruct (wave_progression wave_cleared 2 1 4 0 0
              consistent_wave_cleared H2 H3)
    as (_ & _ & Hadv & _).
  destruct Hadv as (s' & Heq & Hw & He & _).
  { vm_compute. discriminate. }
  { vm_compute. reflexivity. }
  exists s'. split; [exact Heq|]. split.
  - rewrite Hw. vm_compute. reflexivity.
  - rewrite He. vm_compute. reflexivity.
Defined.

Lemma invulnerability_window_witness :
  consistent started ∧ invulnerable started = false
  ∧ accepts_hit started (OverlapEnemyBulletWorm None (Some 0%nat)) = true
  ∧ ∃ s1, step true (OverlapEnemyBulletWorm None (Some 0%nat)) started
          = Ok tt s1
          ∧ invulnerable s1 = true
          ∧ (∃ s2, run true [ClockUpdate 300 []; ClockUpdate 399 []] s1
                   = Ok tt s2 ∧ invulnerable s2 = true)
          ∧ ∃ s3, run true ([ClockUpdate 300 []; ClockUpdate 399 []]
                            ++ [ClockUpdate 1 []]) s1 = Ok tt s3
                  ∧ invulnerable s3 = false.
Proof.
  assert (H2 : invulnerable started = false) by (vm_compute; reflexivity).
  assert (H3 : accepts_hit started (OverlapEnemyBulletWorm None (Some 0%nat))
               = true) by (vm_compute; reflexivity).
  split; [exact consistent_started|]. split; [exact H2|]. split; [exact H3|].
  destruct (invulnerability_window true started
              (OverlapEnemyBulletWorm None (Some 0%nat))
              [ClockUpdate 300 []; ClockUpdate 399 []] 1 [] None None
              consistent_started H2 H3)
    as (s1 & Heq & Hi & Hin & Hout).
  exists s1. split; [exact Heq|]. split; [exact Hi|]. split.
  - destruct Hin as (s2 & Heq2 & Hi2 & _); [vm_compute; reflexivity|].
    exists s2. split; [exact Heq2 | exact Hi2].
  - destruct Hout as (s3 & Heq3 & Hi3);
      [vm_compute; split; [reflexivity | discriminate]|].
    exists s3. split; [exact Heq3 | exact Hi3].
Defined.

Lemma destroy_is_safe_witness :
  is_active faulty (worm faulty) = true
  ∧ callDestroy 9 faulty = Threw "engine fault" faulty
  ∧ safeDestroy (Some 9%nat) faulty
    = Ok tt (warned ["safeDestroy error"; "engine fault"] faulty).
Proof.
  assert (H1 : is_active faulty (worm faulty) = true)
    by (vm_compute; reflexivity).
  split; [exact H1|].
  destruct (destroy_is_safe None faulty H1) as (_ & _ & _ & Hthrow).
  apply (Hthrow 9%nat
           {| active := true; pos_x := 0; pos_y := 0;
              body := false; hasHit := None; isShooter := None;
              tint := None; onDestroy := None;
              destroyFn := Throws "engine fault" |} "engine fault").
  - vm_compute. discriminate.
  - vm_compute. reflexivity.
  - reflexivity.
  - reflexivity.
Defined.

Lemma heart_collected_anyway_witness :
  consistent heart_out ∧ (2%nat : nat) ∈ hearts heart_out
  ∧ (None : option nat) ≠ Some 2%nat
  ∧ ∃ s', onBulletHeart None (Some 2%nat) heart_out = Ok tt s'
          ∧ is_active s' 2 = false ∧ health s' = 100.
Proof.
  assert (H2 : (2%nat : nat) ∈ hearts heart_out) by (vm_compute; left).
  assert (H3 : (None : option nat) ≠ Some 2%nat) by discriminate.
  split; [exact consistent_heart_out|]. split; [exact H2|].
  split; [exact H3|].
  destruct (heart_collected_anyway heart_out None 2
              consistent_heart_out H2 H3)
    as [(s' & Heq & Ha & _ & Hh) _].
  exists s'. split; [exact Heq|]. split; [exact Ha|].
  rewrite Hh. vm_compute. reflexivity.
Defined.

(** * The ledger of a run *)

Lemma ledger_refl s : ledger s s.
Proof.
  split; try done; try lia.
  split; [lia|]. rewrite Z.sub_diag. apply Z.divide_0_r.
Qed.

Lemma lg_frame s0 s s' :
  score s' = score s → wave s' = wave s →
  enemiesPerWave s' = enemiesPerWave s → nextId s' = nextId s →
  nextTimer s' = nextTimer s → gameStarted s' = gameStarted s →
  (∀ o, is_active s' o = is_active s o) →
  ledger s0 s → ledger s0 s'.
Proof.
  intros E1 E2 E3 E4 E5 E6 E7 [].
  split; rewrite ?E1, ?E2, ?E3, ?E4, ?E5, ?E6; try done.
  intros o. rewrite E7. auto.
Qed.

Lemma active_alter f o (m : gmap nat Entity) o' :
  (∀ e, active (f e) = active e) →
  match alter f o m !! o' with Some e => active e | None => false end
  = match m !! o' with Some e => active e | None => false end.
Proof.
  intros Hf. destruct (decide (o = o')) as [->|];
    [rewrite lookup_alter_eq | by rewrite lookup_alter_ne].
  destruct (m !! o'); cbn; auto.
Qed.

Ltac lg_framed :=
  match goal with
  | H : ledger _ ?s |- ledger _ _ =>
      apply (lg_frame _ s);
      [reflexivity | reflexivity | reflexivity | reflexivity | reflexivity
      | reflexivity
      | intros ?; unfold is_active; fields;
        rewrite ?active_alter by done; reflexivity
      | exact H]
  end.

Lemma is_active_destroyed o e s o' :
  is_active (destroyed o e s) o' = true → is_active s o' = true ∧ o' ≠ o.
Proof.
  unfold is_active. rewrite ents_destroyed.
  destruct (decide (o = o')) as [->|];
    [rewrite lookup_alter_eq | rewrite lookup_alter_ne by done].
  - by destruct (ents s !! o').
  - intros H. split; [done | congruence].
Qed.

Lemma lg_destroyed s0 o e s : ledger s0 s → ledger s0 (destroyed o e s).
Proof.
  intros [H1 H2 H3 H4 H5 H6 H7 H8].
  split; try (unfold destroyed; destruct (onDestroy e); fields; done).
  intros x Hx Ha. apply H7; [done|]. by apply is_active_destroyed in Ha as [Ha _].
Qed.

Lemma is_active_created_in g px py s o :
  o ≠ nextId s → is_active (created_in g px py s) o = is_active s o.
Proof.
  intros Ho. unfold is_active. destruct g; fields;
    by rewrite lookup_insert_ne.
Qed.

Lemma lg_created_in s0 g px py s :
  ledger s0 s → ledger s0 (created_in g px py s).
Proof.
  intros [H1 H2 H3 H4 H5 H6 H7 H8].
  split; try (destruct g; fields; done); try (destruct g; fields; lia).
  intros o Ho. rewrite is_active_created_in by lia. by apply H7.
Qed.

Section Ledger.
Context (s0 : State).

Lemma lg_safeDestroy obj s :
ledger s0 s → wpp (safeDestroy obj) (λ _, ledger s0) s.
Proof.
intros H. destruct (safeDestroy_outcomes obj s) as (s' & Heq & Hout).
eapply wpx_of_eq; [done|].
destruct Hout; try done; try lg_framed. by apply lg_destroyed.
Qed.

Lemma lg_warn args s : ledger s0 s → wpp (warn args) (λ _, ledger s0) s.
Proof. intros H. unfold warn. wp_step. lg_framed. Qed.

Lemma lg_updateUI s : ledger s0 s → wpp updateUI (λ _, ledger s0) s.
Proof. intros H. unfold updateUI. wp_steps; [done|]. lg_framed. Qed.

Lemma lg_addScore s :
ledger s0 s → wpp (addScore 10) (λ _, ledger s0) s.
Proof.
intros H. unfold addScore. wp_step. apply lg_updateUI.
destruct H as [[H1 H1'] H2 H3 H4 H5 H6 H7 H8]. split; fields; try done.
split; [lia|].
replace (score s + 10 - score s0) with (score s - score s0 + 10) by lia.
apply Z.divide_add_r; [done | apply Z.divide_refl].
Qed.

Lemma lg_heal k s : ledger s0 s → wpp (heal k) (λ _, ledger s0) s.
Proof.
intros H. unfold heal. wp_steps; [done|]. apply lg_updateUI. lg_framed.
Qed.

Lemma lg_groupCreate g px py s :
ledger s0 s → wpp (groupCreate g px py) (λ _, ledger s0) s.
Proof.
intros. eapply wpx_of_eq; [apply groupCreate_eq|]. by apply lg_created_in.
Qed.

Lemma lg_tintWorm c s : ledger s0 s → wpp (tintWorm c) (λ _, ledger s0) s.
Proof. intros H. unfold tintWorm. wp_steps; [lg_framed | done]. Qed.

Lemma lg_addEvent d lp cb s :
ledger s0 s → wpp (addEvent d lp cb) (λ _, ledger s0) s.
Proof.
intros [H1 H2 H3 H4 H5 H6 H7 H8]. unfold wpx, addEvent.
split; fields; try done. lia.
Qed.

Lemma lg_random s : ledger s0 s → wpp random (λ _, ledger s0) s.
Proof.
intros H. unfold wpx, random. destruct (rnd s); [done|]. lg_framed.
Qed.

Lemma lg_Between lo hi s :
ledger s0 s → wpp (Between lo hi) (λ _, ledger s0) s.
Proof.
intros H. unfold Between. wp_call lg_random; [done|].
intros r s' H'. by wp_step.
Qed.

Lemma lg_groupClear g s :
ledger s0 s → wpp (groupClear g) (λ _, ledger s0) s.
Proof.
intros H. unfold groupClear. wp_step. apply wpx_bind.
eapply wpx_mono; [apply (wpx_forEach _ (ledger s0)); [done|]|].
- intros a s' _ Hs'. unfold wpx, callDestroy, gameObjectDestroy.
  destruct (ents s' !! a) as [e|] eqn:He; cbn; [|done].
  destruct (destroyFn e); try done. by apply (lg_destroyed s0 a e s').
- intros [] s' Hs'. wp_step. destruct g; lg_framed.
Qed.

Lemma lg_endGame s : ledger s0 s → wpp endGame (λ _, ledger s0) s.
Proof.
intros H. unfold endGame. wp_steps; [done|].
wp_call lg_groupClear.
{ destruct H as [H1 H2 H3 H4 H5 H6 H7 H8]. by split. }
intros [] s1 H1. wp_call lg_groupClear; [done|]. intros [] s2 H2.
wp_call lg_groupClear; [done|]. intros [] s3 H3.
wp_step. lg_framed.
Qed.

Lemma lg_loseLife s : ledger s0 s → wpp loseLife (λ _, ledger s0) s.
Proof.
intros H. unfold loseLife. wp_steps; [done|].
wp_call lg_tintWorm; [lg_framed|]. intros [] s1 H1.
wp_call lg_addEvent; [done|]. intros t s2 H2.
wp_steps; fields.
- apply lg_endGame. lg_framed.
- apply lg_updateUI. lg_framed.
Qed.

Lemma lg_shootAt s : ledger s0 s → wpp shootAt (λ _, ledger s0) s.
Proof.
intros H. unfold shootAt. wp_steps; try done.
wp_call lg_groupCreate; [done|]. intros ? ? ?. by wp_step.
Qed.

Lemma lg_spawnHeart s : ledger s0 s → wpp spawnHeart (λ _, ledger s0) s.
Proof.
intros H. unfold spawnHeart.
wp_call lg_Between; [done|]. intros py s1 H1.
wp_call lg_groupCreate; [done|]. intros ? ? ?. by wp_step.
Qed.

Lemma lg_spawnWave s : ledger s0 s → wpp spawnWave (λ _, ledger s0) s.
Proof.
intros H. unfold spawnWave. wp_steps; [done|].
wp_call lg_addEvent; [lg_framed|]. intros ? ? ?.
wp_call lg_addEvent; [done|]. intros ? ? ?. by wp_step.
Qed.

Lemma lg_cleanupObjects live s :
ledger s0 s → wpp (cleanupObjects live) (λ _, ledger s0) s.
Proof.
assert (Hg : ∀ g s1, ledger s0 s1 →
          wpp (cleanupGroup live g) (λ _, ledger s0) s1).
{ intros g s1 H1. unfold cleanupGroup. apply wpp_forOf; [done|].
  intros a s' Hs'. unfold cleanupOne. wp_steps; try done.
  by apply lg_safeDestroy. }
intros H. unfold cleanupObjects.
wp_call Hg; [done|]. intros [] s1 H1.
wp_call Hg; [done|]. intros [] s2 H2.
wp_call Hg; [done|]. intros [] s3 H3.
by apply Hg.
Qed.

Lemma lg_onBulletEnemy a b s :
ledger s0 s → wpp (onBulletEnemy a b) (λ _, ledger s0) s.
Proof.
intros H. unfold onBulletEnemy. wp_steps; [done| |].
- by apply lg_warn.
- wp_call lg_safeDestroy; [done|]. intros [] s1 H1.
  wp_call lg_safeDestroy; [done|]. intros [] s2 H2.
  by apply lg_addScore.
Qed.

Lemma lg_safeDestroy_if obj s :
ledger s0 s →
wpp (let* s1 := get in
     if truthy_active s1 obj then safeDestroy obj else ret tt)
    (λ _, ledger s0) s.
Proof. intros H. wp_steps; [by apply lg_safeDestroy | done]. Qed.

Lemma lg_onBulletEnemyBullet a b s :
ledger s0 s → wpp (onBulletEnemyBullet a b) (λ _, ledger s0) s.
Proof.
intros H. unfold onBulletEnemyBullet.
wp_call lg_safeDestroy_if; [done|]. intros [] s1 H1.
by apply lg_safeDestroy_if.
Qed.

Lemma lg_onEnemyBulletWorm a b s :
ledger s0 s → wpp (onEnemyBulletWorm a b) (λ _, ledger s0) s.
Proof.
intros H. unfold onEnemyBulletWorm.
wp_call lg_safeDestroy_if; [done|]. intros [] s1 H1.
wp_steps; [done | by apply lg_loseLife].
Qed.

Lemma lg_onEnemyWorm a b s :
ledger s0 s → wpp (onEnemyWorm a b) (λ _, ledger s0) s.
Proof.
intros H. unfold onEnemyWorm. wp_steps; try done.
wp_call lg_loseLife; [lg_framed|]. intros [] s1 H1.
by apply lg_safeDestroy.
Qed.

Lemma lg_onBulletHeart a b s :
ledger s0 s → wpp (onBulletHeart a b) (λ _, ledger s0) s.
Proof.
intros H. unfold onBulletHeart.
wp_call lg_safeDestroy_if; [done|]. intros [] s1 H1.
wp_steps; [|done].
wp_call lg_safeDestroy; [done|]. intros [] s2 H2. by apply lg_heal.
Qed.

Lemma lg_onPointerDown s :
ledger s0 s → wpp onPointerDown (λ _, ledger s0) s.
Proof.
intros H. unfold onPointerDown. wp_steps; [done | by apply lg_shootAt].
Qed.

Lemma lg_invulnerableOff s :
ledger s0 s → wpp invulnerableOff (λ _, ledger s0) s.
Proof.
intros H. unfold invulnerableOff. wp_steps. apply lg_tintWorm. lg_framed.
Qed.

Lemma lg_spawnTick t cell count s :
ledger s0 s → wpp (spawnTick t cell count) (λ _, ledger s0) s.
Proof.
intros H. unfold spawnTick. wp_steps; [lg_framed|].
wp_call lg_Between; [done|]. intros py s1 H1.
wp_call lg_groupCreate; [done|]. intros enemy s2 H2.
wp_step.
wp_call lg_random; [lg_framed|]. intros r s3 H3.
wp_step. apply wpx_bind.
eapply (wpx_mono _ _ (λ _, ledger s0)).
- wp_steps; [|lg_framed].
  wp_call lg_Between; [lg_framed|]. intros d s4 H4.
  wp_call lg_addEvent; [done|]. intros tm s5 H5.
  wp_step. lg_framed.
- intros [] s4 H4. wp_step. lg_framed.
Qed.

Lemma lg_enemyShoot t enemy s :
ledger s0 s → wpp (enemyShoot t enemy) (λ _, ledger s0) s.
Proof.
intros H. unfold enemyShoot. wp_steps; [lg_framed| |done].
wp_call lg_groupCreate; [done|]. intros ? ? ?. by wp_step.
Qed.

Lemma lg_checkWave t cell count s :
ledger s0 s → wpp (checkWave t cell count) (λ _, ledger s0) s.
Proof.
intros H. unfold checkWave. wp_steps; [lg_framed| |done].
wp_call lg_addEvent; [|intros ? ? ?; by wp_step].
destruct H as [H1 H2 H3 H4 H5 H6 H7 H8]. split; fields; try done; try lia.
all: intros Hq; try specialize (H3 Hq); try specialize (H4 Hq); lia.
Qed.

Lemma lg_nextWave s : ledger s0 s → wpp nextWave (λ _, ledger s0) s.
Proof.
intros H. unfold nextWave. wp_steps; [by apply lg_spawnWave | done].
Qed.

Lemma lg_heartTick s : ledger s0 s → wpp heartTick (λ _, ledger s0) s.
Proof.
intros H. unfold heartTick. wp_steps; [done | by apply lg_spawnHeart].
Qed.

Lemma lg_fire t cb s : ledger s0 s → wpp (fire t cb) (λ _, ledger s0) s.
Proof.
intros H. destruct cb; cbn [fire];
  auto using lg_invulnerableOff, lg_spawnTick, lg_checkWave, lg_nextWave,
    lg_enemyShoot, lg_heartTick.
Qed.

Lemma lg_stepTimer delta t s :
ledger s0 s → wpp (stepTimer delta t) (λ _, ledger s0) s.
Proof.
intros H. unfold stepTimer. wp_steps; [|lg_framed|done].
wp_call lg_fire; [lg_framed|]. intros [] s1 H1.
wp_step. destruct (timers s1 !! t) as [ev'|]; [|done].
destruct (loop ev'); lg_framed.
Qed.

Lemma lg_clockUpdate delta s :
ledger s0 s → wpp (clockUpdate delta) (λ _, ledger s0) s.
Proof.
intros H. unfold clockUpdate. wp_step.
apply wpx_forEach; [done|]. intros t s' _ Hs'. by apply lg_stepTimer.
Qed.

Lemma lg_update live time inp s :
ledger s0 s → wpp (update live time inp) (λ _, ledger s0) s.
Proof.
intros H. unfold update. wp_steps; try done.
all: apply wpx_bind;
  eapply (wpx_mono _ _ (λ _, ledger s0));
  [| intros [] s1 H1; wp_call lg_cleanupObjects; [done|];
     intros [] s2 H2; by apply lg_updateUI].
all: wp_steps; try done.
all: wp_call lg_shootAt; [done|]; intros [] s1 H1; wp_step; lg_framed.
Qed.

Lemma lg_step live ev s :
ledger s0 s → wpp (step live ev) (λ _, ledger s0) s.
Proof.
intros H. destruct ev; cbn [step];
  auto using lg_onBulletEnemy, lg_onBulletEnemyBullet,
    lg_onEnemyBulletWorm, lg_onEnemyWorm, lg_onBulletHeart,
    lg_onPointerDown, lg_update, lg_safeDestroy.
- wp_step. apply lg_clockUpdate. lg_framed.
- wp_step. lg_framed.
Qed.

Lemma lg_run live evs s :
ledger s0 s → wpp (run live evs) (λ _, ledger s0) s.
Proof.
intros H. unfold run. apply wpx_forEach; [done|].
intros ev s' Hev Hs'. by apply lg_step.
Qed.
End Ledger.
(** * A run that is over *)








Section Halted.
Context (s0 : State).














End Halted.
(** * What every run keeps *)

Lemma run_ledger live evs s :
  wf s → ∃ s', run live evs s = Ok tt s' ∧ wf s' ∧ ledger s s'.
Proof.
  intros H.
  destruct (wpx_returns _ _ _
              (wp_and _ _ _ _ (wf_run live evs s H)
                 (lg_run s live evs s (ledger_refl s))))
    as ([] & s' & Heq & Hwf & Hlg).
  by exists s'.
Qed.


Lemma active_member_free s g o :
  wf s → is_active s o = false → o ∉ getChildren g s.
Proof.
  intros H Ha Hin.
  destruct (member_of s g o H Hin) as (_ & e & He & _ & Hae).
  unfold is_active in Ha. rewrite He in Ha. congruence.
Qed.

(** Along every sequence of events the score never goes down, and it
    moves by tens only. *)
Theorem score_only_grows (live : bool) (evs : list Event) (s : State) :
  wf s →
  ∃ s', run live evs s = Ok tt s'
        ∧ score s ≤ score s' ∧ Z.divide 10 (score s' - score s).
Proof.
  intros H. destruct (run_ledger live evs s H) as (s' & Heq & _ & Hlg).
  exists s'. split; [done|]. apply (lg_score _ _ Hlg).
Qed.

(** Along every sequence of events the wave never goes back; a quota of
    at most 12 enemies never goes back and never exceeds 12; and when
    the quota is min(12, wave + 3), as it is when the run starts, it
    stays so: after every run from the start the wave is at least 1 and
    its quota is min(12, wave + 3). *)
Theorem wave_and_quota_advance (live : bool) (evs : list Event) (s : State) :
  wf s →
  (∃ s', run live evs s = Ok tt s'
         ∧ wave s ≤ wave s'
         ∧ (enemiesPerWave s ≤ 12 →
            enemiesPerWave s ≤ enemiesPerWave s' ≤ 12)
         ∧ (enemiesPerWave s = Z.min 12 (wave s + 3) →
            enemiesPerWave s' = Z.min 12 (wave s' + 3)))
  ∧ ∃ s', run live evs started = Ok tt s'
          ∧ 1 ≤ wave s' ∧ enemiesPerWave s' = Z.min 12 (wave s' + 3).
Proof.
  intros H. split.
  - destruct (run_ledger live evs s H) as (s' & Heq & _ & Hlg).
    exists s'. split; [done|]. split; [apply (lg_wave _ _ Hlg)|].
    split; [apply (lg_quota_bounds _ _ Hlg) | apply (lg_quota _ _ Hlg)].
  - destruct (run_ledger live evs started (cs_wf _ consistent_started))
      as (s' & Heq & _ & Hlg).
    exists s'. split; [done|].
    assert (Hw : wave started = 1) by (vm_compute; reflexivity).
    assert (Hq : enemiesPerWave started = 4) by (vm_compute; reflexivity).
    pose proof (lg_wave _ _ Hlg) as H1.
    pose proof (lg_quota _ _ Hlg) as H2.
    rewrite Hw in H1. split; [done|]. apply H2. by rewrite Hw, Hq.
Qed.


(** An object that is inactive stays inactive and outside every group
    along every sequence of events, and its handle is not handed out
    again. *)
Theorem removed_stays_removed (live : bool) (evs : list Event) (s : State)
    (o : nat) :
  wf s → (o < nextId s)%nat → is_active s o = false →
  ∃ s', run live evs s = Ok tt s'
        ∧ is_active s' o = false ∧ (∀ g, o ∉ getChildren g s')
        ∧ (nextId s ≤ nextId s')%nat.
Proof.
  intros H Ho Ha. destruct (run_ledger live evs s H) as (s' & Heq & Hwf & Hlg).
  exists s'. split; [done|].
  assert (Ha' : is_active s' o = false).
  { destruct (is_active s' o) eqn:E; [|done].
    rewrite (lg_dead _ _ Hlg o Ho E) in Ha. done. }
  split; [done|]. split; [|apply (lg_nextId _ _ Hlg)].
  intros g. by apply active_member_free.
Qed.

(** No event starts the run: while it has not been started, after every
    sequence of events it is still not started, and a click and a frame
    update change nothing. *)
Theorem input_ignored_until_started (live : bool) (evs : list Event)
    (s : State) :
  wf s → gameStarted s = false →
  ∃ s', run live evs s = Ok tt s'
        ∧ gameStarted s' = false
        ∧ onPointerDown s' = Ok tt s'
        ∧ ∀ time inp, update live time inp s' = Ok tt s'.
Proof.
  intros H Hst. destruct (run_ledger live evs s H) as (s' & Heq & Hwf & Hlg).
  exists s'. split; [done|].
  assert (Hst' : gameStarted s' = false).
  { destruct (gameStarted s') eqn:E; [|done].
    rewrite (lg_started _ _ Hlg E) in Hst. done. }
  split; [done|]. split.
  - unfold onPointerDown, bind, get. by rewrite Hst'.
  - intros time inp. unfold update, bind, get. by rewrite Hst'.
Qed.

Lemma random_eq s :
  random s = Ok (hd 0%Q (rnd s)) (set_rnd (tl (rnd s)) s).
Proof.
  unfold random. destruct s. cbn.
  match goal with |- context [match ?l with _ => _ end] => by destruct l end.
Qed.

Lemma wpx_random_bind {B : Type} (E : State → Prop) (k : Q → M B)
    (Q : B → State → Prop) s :
  wpx E (k (hd 0%Q (rnd s))) Q (set_rnd (tl (rnd s)) s) →
  wpx E (bind random k) Q s.
Proof. unfold wpx, bind. by rewrite random_eq. Qed.

Lemma unit_interval_hd rs : Forall unit_interval rs → unit_interval (hd 0%Q rs).
Proof. intros [|r rs' Hr _]; [by split | done]. Qed.

Lemma Between_range lo hi r :
  unit_interval r → lo ≤ hi →
  lo ≤ Qfloor (r * inject_Z (hi - lo + 1) + inject_Z lo) ≤ hi.
Proof.
  intros [H0 H1] Hle.
  assert (Hn : (1 <= inject_Z (hi - lo + 1))%Q).
  { change 1%Q with (inject_Z 1). rewrite <- Zle_Qle. lia. }
  assert (Hp : (0 <= r * inject_Z (hi - lo + 1))%Q)
    by (apply Qmult_le_0_compat; lra).
  assert (Hq : (r * inject_Z (hi - lo + 1) < 1 * inject_Z (hi - lo + 1))%Q)
    by (apply Qmult_lt_compat_r; lra).
  split.
  - rewrite <- (Qfloor_Z lo) at 1. apply Qfloor_resp_le. lra.
  - apply Z.lt_succ_r. rewrite Zlt_Qlt.
    eapply Qle_lt_trans; [apply Qfloor_le|].
    replace (Z.succ hi) with ((hi - lo + 1) + lo) by lia.
    rewrite (inject_Z_plus (hi - lo + 1) lo). lra.
Qed.
(** * Spawning *)

Lemma lt_random_zero r : unit_interval r → lt_random r 0%Q = false.
Proof.
  intros [H0 _]. unfold lt_random. destruct (Qlt_le_dec r 0); [|done].
  exfalso. lra.
Qed.

(** The delay between two spawns is never below 300 ms, so the floor of
    220 ms in its formula is never reached; it is at most 840 ms from
    wave 1 on, does not grow with the wave, and is 300 ms from wave 10
    on. *)
Theorem spawn_delay_bounds (w w' : Z) :
  300 ≤ spawnDelay w
  ∧ spawnDelay w = 900 - Z.min (w * 60) 600
  ∧ (1 ≤ w → spawnDelay w ≤ 840)
  ∧ (10 ≤ w → spawnDelay w = 300)
  ∧ (w ≤ w' → spawnDelay w' ≤ spawnDelay w).
Proof. unfold spawnDelay. lia. Qed.

(** What the callback of the spawn timer does. *)
Lemma spawnTick_spec (t cell : nat) (count : Z) (s : State) :
  Forall unit_interval (rnd s) →
  (isGameOver s = false → spawnedAt cell s < count →
   ∃ s' e, spawnTick t cell count s = Ok tt s'
     ∧ enemies s' = enemies s ++ [nextId s]
     ∧ nextId s' = S (nextId s)
     ∧ ents s' !! nextId s = Some e
     ∧ active e = true ∧ pos_x e = -40 ∧ 60 ≤ pos_y e ≤ 286
     ∧ hasHit e = Some false
     ∧ spawnedAt cell s' = spawnedAt cell s + 1
     ∧ (wave s < 3 → isShooter e = Some false)
     ∧ (isShooter e = Some false
        ∧ onDestroy e = None ∧ timers s' = timers s
        ∨ isShooter e = Some true ∧ 3 ≤ wave s
          ∧ onDestroy e = Some (nextTimer s)
          ∧ ∃ d, 700 ≤ d ≤ 2201
                 ∧ timers s'
                   = <[nextTimer s := mkTimer d true 0
                                        (EnemyShoot (nextId s))]>
                       (timers s)))
  ∧ (isGameOver s = true ∨ count ≤ spawnedAt cell s →
     spawnTick t cell count s = Ok tt (removeTimer t s)).
Proof.
  intros Hr. split.
  - intros Hov Hq.
    pose proof (unit_interval_hd _ Hr) as Hr1.
    assert (Hr' : Forall unit_interval (tail (rnd s)))
      by (destruct Hr; [constructor | done]).
    pose proof (unit_interval_hd _ Hr') as Hr2.
    assert (Hr'' : Forall unit_interval (tail (tail (rnd s))))
      by (destruct Hr'; [constructor | done]).
    pose proof (unit_interval_hd _ Hr'') as Hr3.
    pose proof (Between_range 60 285 _ Hr1 ltac:(lia)) as Hpy0.
    pose proof (Between_range 1200 2200 _ Hr3 ltac:(lia)) as Hd.
    set (r1 := hd 0%Q (rnd s)) in *.
    set (r2 := hd 0%Q (tail (rnd s))) in *.
    set (r3 := hd 0%Q (tail (tail (rnd s)))) in *.
    change (285 - 60 + 1) with (Z.max 120 (scale_height - 220) - 60 + 1)
      in Hpy0.
    set (py := Qfloor (r1 * inject_Z (Z.max 120 (scale_height - 220) - 60 + 1)
                       + inject_Z 60)) in *.
    set (d := Qfloor (r3 * inject_Z (2200 - 1200 + 1) + inject_Z 1200)) in *.
    assert (Hpy : 60 ≤ py ≤ 286) by lia.
    enough (Hwp : wp (spawnTick t cell count)
              (λ _ s', ∃ e,
                 enemies s' = enemies s ++ [nextId s]
                 ∧ nextId s' = S (nextId s)
                 ∧ ents s' !! nextId s = Some e
                 ∧ active e = true ∧ pos_x e = -40 ∧ 60 ≤ pos_y e ≤ 286
                 ∧ hasHit e = Some false
                 ∧ spawnedAt cell s' = spawnedAt cell s + 1
                 ∧ (wave s < 3 → isShooter e = Some false)
                 ∧ (isShooter e = Some false
                    ∧ onDestroy e = None ∧ timers s' = timers s
                    ∨ isShooter e = Some true ∧ 3 ≤ wave s
                      ∧ onDestroy e = Some (nextTimer s)
                      ∧ ∃ d, 700 ≤ d ≤ 2201
                             ∧ timers s'
                               = <[nextTimer s := mkTimer d true 0
                                                    (EnemyShoot (nextId s))]>
                                   (timers s))) s).
    { destruct (wpx_returns _ _ _ Hwp) as ([] & s' & Heq & e & He).
      by exists s', e. }
    unfold spawnTick. wp_step. rewrite Hov.
    replace (count <=? spawnedAt cell s) with false
      by (symmetry; apply Z.leb_gt; lia).
    cbn [orb]. unfold Between.
    apply wpx_bind, wpx_random_bind. wp_step. fold r1 py.
    wp_sym_step. wp_step. apply wpx_random_bind. wp_step. fields. fold r2.
    apply wpx_bind.
    destruct (lt_random r2 (if 3 <=? wave s then 0.45%Q else 0%Q)) eqn:Hsh.
    + assert (Hw : 3 ≤ wave s).
      { destruct (3 <=? wave s) eqn:E; [by apply Z.leb_le|].
        by rewrite lt_random_zero in Hsh. }
      apply wpx_bind, wpx_random_bind. wp_step. fields. fold r3 d.
      wp_sym_step. wp_step. wp_step. fields.
      eexists. split; [done|]. split; [done|].
      split.
      { rewrite !lookup_alter_eq, lookup_insert_eq. cbn. done. }
      fields. repeat (split; [done|]).
      split.
      { unfold spawnedAt. fields. by rewrite lookup_insert_eq. }
      split; [lia|]. right. repeat (split; [done|]).
      exists (d - Z.min ((wave s - 3) * 50) 500). split; [lia | done].
    + wp_step. wp_step. fields.
      eexists. split; [done|]. split; [done|].
      split.
      { rewrite !lookup_alter_eq, lookup_insert_eq. cbn. done. }
      fields. repeat (split; [done|]).
      split.
      { unfold spawnedAt. fields. by rewrite lookup_insert_eq. }
      split; [|by left].
      intros _. done.
  - intros Hg. unfold spawnTick, bind, get.
    replace (isGameOver s || (count <=? spawnedAt cell s)) with true; [done|].
    symmetry. destruct Hg as [->|Hq]; [done|].
    apply orb_true_iff. right. by apply Z.leb_le.
Qed.

(** The callback of the spawn timer, while the quota is open and the run
    is on, spawns one enemy: at x = -40, with y from 60 to 286, active,
    [hasHit] false, as the last child of [enemies], and counts it.
    Before wave 3 the enemy is no shooter; an enemy that is no shooter
    has no shoot timer; a shooter has one, looping, with a delay from 700
    to 2201 ms, which its destroy handler holds.  (286 and 2201 are one
    above the second argument of [Between], for the sum that it rounds
    up, see there.)  When the quota is met or the run is over the timer
    removes itself, and nothing else happens. *)
Theorem spawn_tick_spawns (t cell : nat) (count : Z) (s : State) :
  Forall unit_interval (rnd s) →
  (isGameOver s = false → spawnedAt cell s < count →
   ∃ s' e, spawnTick t cell count s = Ok tt s'
     ∧ enemies s' = enemies s ++ [nextId s]
     ∧ nextId s' = S (nextId s)
     ∧ ents s' !! nextId s = Some e
     ∧ active e = true ∧ pos_x e = -40 ∧ 60 ≤ pos_y e ≤ 286
     ∧ hasHit e = Some false
     ∧ spawnedAt cell s' = spawnedAt cell s + 1
     ∧ (wave s < 3 → isShooter e = Some false)
     ∧ (isShooter e = Some false
        ∧ onDestroy e = None ∧ timers s' = timers s
        ∨ isShooter e = Some true ∧ 3 ≤ wave s
          ∧ onDestroy e = Some (nextTimer s)
          ∧ ∃ d, 700 ≤ d ≤ 2201
                 ∧ timers s'
                   = <[nextTimer s := mkTimer d true 0
                                        (EnemyShoot (nextId s))]>
                       (timers s)))
  ∧ (isGameOver s = true ∨ count ≤ spawnedAt cell s →
     spawnTick t cell count s = Ok tt (removeTimer t s)).
Proof. apply spawnTick_spec. Qed.
(** * The overlaps *)

Ltac destroyed_fields :=
  unfold destroyed;
  repeat match goal with
         | |- context [onDestroy ?e] => destruct (onDestroy e)
         end;
  fields; try done.

Lemma updateUI_eq s :
  0 ≤ lives s →
  updateUI s
  = Ok tt (set_livesText (lives s)
             (set_healthText (Z.max 0 (health s))
                (set_scoreText (score s) s))).
Proof.
  intros Hl. unfold updateUI, bind, get, modify. fields.
  by replace (lives s <? 0) with false by (symmetry; apply Z.ltb_ge; lia).
Qed.

(** Two children, one destroyed after the other. *)
Lemma destroy_pair s g g' x y :
  wf s → x ∈ getChildren g s → y ∈ getChildren g' s → x ≠ y →
  ∃ ex ey s2,
    ents s !! x = Some ex ∧ active ex = true
    ∧ ents s !! y = Some ey ∧ active ey = true
    ∧ y ≠ worm s
    ∧ safeDestroy (Some x) s = Ok tt (destroyed x ex s)
    ∧ safeDestroy (Some y) (destroyed x ex s) = Ok tt s2
    ∧ s2 = destroyed y ey (destroyed x ex s)
    ∧ is_active s2 x = false ∧ is_active s2 y = false
    ∧ (∀ h, (x ∉ getChildren h s2) ∧ (y ∉ getChildren h s2))
    ∧ (∀ o, o ≠ x → o ≠ y → ents s2 !! o = ents s !! o)
    ∧ score s2 = score s ∧ lives s2 = lives s ∧ health s2 = health s
    ∧ wf s2
    ∧ ∀ tm, onDestroy ey = Some tm → timers s2 !! tm = None.
Proof.
  intros H Hx Hy Hne.
  destruct (safeDestroy_member s g x H Hx) as (ex & Hex & Hax & Heq1).
  destruct (member_of s g x H Hx) as (Hwx & _).
  destruct (member_of s g' y H Hy) as (Hwy & ey & Hey & _ & Hay).
  set (s1 := destroyed x ex s) in *.
  assert (H1 : wf s1) by by apply wf_destroyed.
  assert (Hy1 : y ∈ getChildren g' s1).
  { unfold s1. rewrite getChildren_destroyed. by apply splice_out_elem_ne. }
  destruct (safeDestroy_member s1 g' y H1 Hy1) as (ey1 & Hey1 & _ & Heq2).
  assert (ey1 = ey); [|subst ey1].
  { unfold s1 in Hey1. rewrite ents_destroyed, lookup_alter_ne in Hey1 by done.
    congruence. }
  exists ex, ey, (destroyed y ey s1).
  assert (Hents : ents (destroyed y ey s1)
                  = alter (set_active false) y
                      (alter (set_active false) x (ents s)))
    by (unfold s1; by rewrite !ents_destroyed).
  assert (Hch : ∀ h, getChildren h (destroyed y ey s1)
                     = splice_out y (splice_out x (getChildren h s)))
    by (intros h; unfold s1; by rewrite !getChildren_destroyed).
  repeat (split; [done|]).
  split.
  { unfold is_active. rewrite Hents.
    rewrite lookup_alter_ne, lookup_alter_eq, Hex by done. done. }
  split.
  { unfold is_active. rewrite Hents.
    rewrite lookup_alter_eq, lookup_alter_ne, Hey by done. done. }
  split.
  { intros h. rewrite !Hch. split.
    - intros Hin%splice_out_subseteq.
      by apply (splice_out_not_elem x _ (wf_nodup s H h)).
    - apply splice_out_not_elem, splice_out_NoDup, (wf_nodup s H). }
  split.
  { intros o Hox Hoy. rewrite Hents. by rewrite !lookup_alter_ne. }
  split; [unfold s1; destroyed_fields|].
  split; [unfold s1; destroyed_fields|].
  split; [unfold s1; destroyed_fields|].
  split.
  { apply wf_destroyed; [done|]. unfold s1. destroyed_fields. }
  intros tm Htm. unfold destroyed at 1. rewrite Htm. fields.
  by rewrite lookup_delete_eq.
Qed.

(** A player projectile that meets an enemy, both children of their
    groups: both are removed, the score and its text go up by 10, the
    lives and the health stay, no other object changes, and the shoot
    timer of a shooter goes with it. *)
Theorem bullet_kills_enemy (s : State) (b e : nat) :
  wf s → b ∈ playerBullets s → e ∈ enemies s →
  ∃ s', onBulletEnemy (Some b) (Some e) s = Ok tt s'
        ∧ score s' = score s + 10 ∧ scoreText s' = score s + 10
        ∧ is_active s' b = false ∧ is_active s' e = false
        ∧ (∀ g, (b ∉ getChildren g s') ∧ (e ∉ getChildren g s'))
        ∧ lives s' = lives s ∧ health s' = health s
        ∧ (∀ o, o ≠ b → o ≠ e → ents s' !! o = ents s !! o)
        ∧ ∀ en tm, ents s !! e = Some en → onDestroy en = Some tm →
                   timers s' !! tm = None.
Proof.
  intros H Hb He.
  assert (Hne : b ≠ e).
  { intros ->. by apply (wf_disjoint s H PlayerBullets Enemies e). }
  destruct (destroy_pair s PlayerBullets Enemies b e H Hb He Hne)
    as (eb & ee & s2 & Heb & Hab & Hee & Hae & Hw & Heq1 & Heq2 & _
        & Ha1 & Ha2 & Hch & Hents & Hsc & Hl & Hh & Hwf2 & Htm).
  eexists. split.
  { unfold onBulletEnemy, bind, get. cbn [truthy_active]. unfold is_active.
    rewrite Heb, Hee, Hab, Hae. cbn [negb orb].
    rewrite decide_False by congruence.
    rewrite Heq1, Heq2. unfold addScore, bind, modify.
    rewrite updateUI_eq by (fields; rewrite Hl; apply (wf_lives s H)).
    reflexivity. }
  unfold is_active in *. fields.
  split; [lia|]. split; [lia|]. split; [done|]. split; [done|].
  split.
  { intros g. specialize (Hch g). by destruct g. }
  split; [done|]. split; [done|]. split; [done|].
  intros en tm Hen Hd. apply Htm. congruence.
Qed.

(** A player projectile intercepts an enemy projectile: both are
    removed, and the score, the lives and the health stay.  Each operand
    is removed on its own account: the enemy projectile goes also when
    the other operand is inactive or null. *)
Theorem bullets_cancel_out (s : State) (b eb : nat) (pb : option nat) :
  wf s → eb ∈ enemyBullets s →
  (b ∈ playerBullets s →
   ∃ s', onBulletEnemyBullet (Some b) (Some eb) s = Ok tt s'
         ∧ is_active s' b = false ∧ is_active s' eb = false
         ∧ (∀ g, (b ∉ getChildren g s') ∧ (eb ∉ getChildren g s'))
         ∧ score s' = score s ∧ lives s' = lives s ∧ health s' = health s
         ∧ ∀ o, o ≠ b → o ≠ eb → ents s' !! o = ents s !! o)
  ∧ (truthy_active s pb = false →
     ∃ s', onBulletEnemyBullet pb (Some eb) s = Ok tt s'
           ∧ is_active s' eb = false ∧ (∀ g, eb ∉ getChildren g s')
           ∧ ∀ o, o ≠ eb → ents s' !! o = ents s !! o).
Proof.
  intros H He. split.
  - intros Hb.
    assert (Hne : b ≠ eb).
    { intros ->. by apply (wf_disjoint s H PlayerBullets EnemyBullets eb). }
    destruct (destroy_pair s PlayerBullets EnemyBullets b eb H Hb He Hne)
      as (e1 & e2 & s2 & He1 & Ha1 & He2 & Ha2 & Hw & Heq1 & Heq2 & Hs2
          & Hi1 & Hi2 & Hch & Hents & Hsc & Hl & Hh & Hwf2 & _).
    exists s2. split; [|done].
    unfold onBulletEnemyBullet, bind, get. cbn [truthy_active].
    unfold is_active at 1. rewrite He1, Ha1, Heq1.
    unfold is_active. rewrite ents_destroyed, lookup_alter_ne, He2, Ha2 by done.
    done.
  - intros Hpb.
    destruct (safeDestroy_member s EnemyBullets eb H He)
      as (e2 & He2 & Ha2 & Heq).
    exists (destroyed eb e2 s). split.
    { unfold onBulletEnemyBullet, bind, get. rewrite Hpb.
      cbn [truthy_active ret]. unfold is_active. by rewrite He2, Ha2. }
    destruct (destroyed_gone s EnemyBullets eb e2 H He2) as (Hi & _ & _).
    split; [done|]. split.
    + intros g. apply (destroyed_gone s g eb e2 H He2).
    + intros o Ho. by rewrite ents_destroyed, lookup_alter_ne.
Qed.
(** * Starting a run *)

Lemma groupClear_field {X : Type} (f : State → X) g s :
  (∀ o e s', f (destroyed o e s') = f s') →
  (∀ s', f (set_children g [] s') = f s') →
  wpp (groupClear g) (λ _ s', f s' = f s) s.
Proof.
  intros Hd Hc. unfold groupClear. wp_step. apply wpx_bind.
  eapply wpx_mono;
    [apply (wpx_forEach _ (λ s', f s' = f s)); [done|]|].
  - intros a s' _ Hs'. unfold wpx, callDestroy, gameObjectDestroy.
    destruct (ents s' !! a) as [e|] eqn:He; cbn; [|done].
    destruct (destroyFn e); try done.
    fold (destroyed a e s'). by rewrite Hd.
  - intros [] s' Hs'. wp_step. by rewrite Hc.
Qed.

(** The fields that the destruction of an object leaves alone. *)
Lemma groupClear_spec g s :
  wf s →
  wp (groupClear g)
     (λ _ s', wf s' ∧ getChildren g s' = [] ∧ stable s s'
              ∧ (gameStarted s', invulnerable s', score s', wave s',
                 enemiesPerWave s', nextTimer s', rnd s', spawned s',
                 scoreText s', healthText s', livesText s')
                = (gameStarted s, invulnerable s, score s, wave s,
                   enemiesPerWave s, nextTimer s, rnd s, spawned s,
                   scoreText s, healthText s, livesText s)) s.
Proof.
  intros H.
  pose proof (groupClear_field
                (λ s', (gameStarted s', invulnerable s', score s', wave s',
                        enemiesPerWave s', nextTimer s', rnd s', spawned s',
                        scoreText s', healthText s', livesText s')) g s)
    as Hf.
  cbv beta in Hf.
  specialize (Hf ltac:(intros; destroyed_fields) ltac:(intros; by destruct g)).
  eapply wpx_mono;
    [apply (wp_and _ _ _ _
              (wp_and _ _ _ _ (wf_groupClear g s H) (groupClear_stable g s))
              Hf)|].
  cbv beta. intros [] s' ((Hwf & Hnil & Hst) & Hf'). done.
Qed.

(** [startGame] on any scene: the run is on, the score 0, the health
    full, the lives 3, the wave 1 with a quota of 4; the four groups are
    empty; the worm is the same; three timers are new: the heart timer,
    looping, with a delay from 7000 to 10001 ms (10001 for the sum that
    [Between] rounds up, see there), the spawn timer of wave 1 with
    840 ms and the wave check with 500 ms; the texts are not redrawn. *)
Theorem start_resets_the_run (s : State) :
  wf s → Forall unit_interval (rnd s) →
  ∃ s' d, startGame s = Ok tt s' ∧ wf s'
    ∧ gameStarted s' = true ∧ isGameOver s' = false
    ∧ invulnerable s' = false
    ∧ score s' = 0 ∧ health s' = maxHealth s ∧ lives s' = 3
    ∧ wave s' = 1 ∧ enemiesPerWave s' = 4
    ∧ (∀ g, getChildren g s' = [])
    ∧ worm s' = worm s ∧ is_active s' (worm s) = true
    ∧ nextTimer s' = S (S (S (nextTimer s)))
    ∧ 7000 ≤ d ≤ 10001
    ∧ timers s' !! nextTimer s = Some (mkTimer d true 0 HeartTick)
    ∧ timers s' !! S (nextTimer s)
      = Some (mkTimer 840 true 0 (SpawnTick (S (nextTimer s)) 4))
    ∧ timers s' !! S (S (nextTimer s))
      = Some (mkTimer 500 true 0 (CheckWave (S (nextTimer s)) 4))
    ∧ spawnedAt (S (nextTimer s)) s' = 0
    ∧ scoreText s' = scoreText s ∧ healthText s' = healthText s
    ∧ livesText s' = livesText s.
Proof.
  intros H Hr.
  pose proof (Between_range 7000 10000 _ (unit_interval_hd _ Hr) ltac:(lia))
    as Hd.
  set (d := Qfloor (hd 0%Q (rnd s) * inject_Z (10000 - 7000 + 1)
                    + inject_Z 7000)) in *.
  assert (Hd1 : 7000 ≤ d ≤ 10001) by lia.
  enough (Hwp : wp startGame
    (λ _ s', wf s'
       ∧ gameStarted s' = true ∧ isGameOver s' = false
       ∧ invulnerable s' = false
       ∧ score s' = 0 ∧ health s' = maxHealth s ∧ lives s' = 3
       ∧ wave s' = 1 ∧ enemiesPerWave s' = 4
       ∧ (∀ g, getChildren g s' = [])
       ∧ worm s' = worm s ∧ is_active s' (worm s) = true
       ∧ nextTimer s' = S (S (S (nextTimer s)))
       ∧ 7000 ≤ d ≤ 10001
       ∧ timers s' !! nextTimer s = Some (mkTimer d true 0 HeartTick)
       ∧ timers s' !! S (nextTimer s)
         = Some (mkTimer 840 true 0 (SpawnTick (S (nextTimer s)) 4))
       ∧ timers s' !! S (S (nextTimer s))
         = Some (mkTimer 500 true 0 (CheckWave (S (nextTimer s)) 4))
       ∧ spawnedAt (S (nextTimer s)) s' = 0
       ∧ scoreText s' = scoreText s ∧ healthText s' = healthText s
       ∧ livesText s' = livesText s) s).
  { destruct (wpx_returns _ _ _ Hwp) as ([] & s' & Heq & Hs').
    by exists s', d. }
  unfold startGame. wp_steps.
  match goal with |- wpx _ _ _ ?x => set (sa := x) end.
  assert (Ha : wf sa) by (unfold sa; wf_framed).
  wp_call (groupClear_spec Enemies sa Ha). intros [] s1 (H1 & E1 & S1 & F1).
  wp_call (groupClear_spec PlayerBullets s1 H1).
  intros [] s2 (H2 & E2 & S2 & F2).
  wp_call (groupClear_spec EnemyBullets s2 H2).
  intros [] s3 (H3 & E3 & S3 & F3).
  wp_call (groupClear_spec Hearts s3 H3).
  intros [] s4 (H4 & E4 & S4 & F4).
  pose proof (stable_trans _ _ _ S1
                (stable_trans _ _ _ S2 (stable_trans _ _ _ S3 S4))) as S.
  assert (F : (gameStarted s4, invulnerable s4, score s4, wave s4,
               enemiesPerWave s4, nextTimer s4, rnd s4, spawned s4,
               scoreText s4, healthText s4, livesText s4)
              = (gameStarted sa, invulnerable sa, score sa, wave sa,
                 enemiesPerWave sa, nextTimer sa, rnd sa, spawned sa,
                 scoreText sa, healthText sa, livesText sa))
    by congruence.
  clear F1 F2 F3 F4. unfold sa in F. fields.
  injection F as G1 G2 G3 G4 G5 G6 G7 G8 G9 G10 G11.
  destruct S as [T1 T2 T3 T4 T5 T6 T7]. unfold sa in *. fields.
  assert (Hall : ∀ g, getChildren g s4 = []).
  { intros g.
    destruct g;
      [ apply (st_empty _ _ S4 Enemies), (st_empty _ _ S3 Enemies),
          (st_empty _ _ S2 Enemies), E1
      | apply (st_empty _ _ S4 PlayerBullets),
          (st_empty _ _ S3 PlayerBullets), E2
      | apply (st_empty _ _ S4 EnemyBullets), E3
      | exact E4 ]. }
  unfold Between. apply wpx_bind, wpx_random_bind. wp_step.
  wp_sym_step. unfold spawnWave. wp_step. fields.
  rewrite G1, T5. cbn [negb orb]. wp_step. wp_sym_step. wp_sym_step.
  wp_step. fields.
  rewrite ?G1, ?G2, ?G3, ?G4, ?G5, ?G6, ?G7, ?G8, ?G9, ?G10, ?G11,
    ?T1, ?T2, ?T3, ?T4, ?T5.
  fold d.
  split; [wf_framed|].
  repeat (split; [done|]).
  split.
  { pose proof (wf_worm _ H4) as Hw. unfold is_active in *. fields.
    by rewrite T1 in Hw. }
  split; [done|]. split; [done|].
  split.
  { rewrite lookup_insert_ne, lookup_insert_ne, lookup_insert_eq by lia.
    done. }
  split.
  { rewrite lookup_insert_ne, lookup_insert_eq by lia. done. }
  split.
  { by rewrite lookup_insert_eq. }
  split.
  { unfold spawnedAt. fields. by rewrite lookup_insert_eq. }
  done.
Qed.
(** Losing a life keeps the score.  While lives remain, one is taken
    and the lives text is redrawn.  The last one ends the run: the run
    is over and not started, the panel with the title, the score of that
    moment and the restart button is drawn after what was on display,
    and the lives text is not redrawn. *)
Theorem last_life_draws_the_panel (s : State) :
  wf s → isGameOver s = false →
  ∃ s', loseLife s = Ok tt s'
    ∧ score s' = score s
    ∧ (1 < lives s →
       lives s' = lives s - 1 ∧ isGameOver s' = false
       ∧ gameStarted s' = gameStarted s ∧ display s' = display s
       ∧ livesText s' = lives s - 1)
    ∧ (lives s ≤ 1 →
       lives s' = 0 ∧ isGameOver s' = true ∧ gameStarted s' = false
       ∧ display s'
         = display s ++ [GameOverPanel; GameOverTitle; FinalScore (score s);
                         RestartButton]
       ∧ livesText s' = livesText s).
Proof.
  intros H Hov.
  enough (Hwp : wp loseLife
    (λ _ s', score s' = score s
    ∧ (1 < lives s →
       lives s' = lives s - 1 ∧ isGameOver s' = false
       ∧ gameStarted s' = gameStarted s ∧ display s' = display s
       ∧ livesText s' = lives s - 1)
    ∧ (lives s ≤ 1 →
       lives s' = 0 ∧ isGameOver s' = true ∧ gameStarted s' = false
       ∧ display s'
         = display s ++ [GameOverPanel; GameOverTitle; FinalScore (score s);
                         RestartButton]
       ∧ livesText s' = livesText s)) s).
  { destruct (wpx_returns _ _ _ Hwp) as ([] & s' & Heq & Hs'). by exists s'. }
  pose proof (wf_worm s H) as Hw.
  unfold loseLife, tintWorm. wp_step. rewrite Hov. wp_step. wp_sym_step.
  wp_step. unfold is_active in *. fields. rewrite Hw. wp_step. wp_sym_step. wp_step. wp_step. fields.
  destruct (lives s - 1 <=? 0) eqn:E;
    [apply Z.leb_le in E | apply Z.leb_gt in E].
  - wp_step. fields.
    match goal with |- wpx _ _ _ ?x => set (sb := x) end.
    assert (Hb : wf sb).
    { assert (Hx : wf (alter_entity (set_tint (Some 16737894)) (worm s) s))
        by by apply wf_alter_entity.
      apply (wf_frame (alter_entity (set_tint (Some 16737894)) (worm s) s));
        [unfold sb; fields; reflexivity ..
        | intros []; unfold sb; fields; reflexivity
        | unfold sb; fields; lia | exact Hx]. }
    unfold endGame. wp_step.
    replace (isGameOver sb) with false by (unfold sb; by fields).
    wp_step. wp_step.
    match goal with |- wpx _ _ _ ?x => set (sc := x) end.
    assert (Hc : wf sc).
    { apply (wf_frame sb);
        [unfold sc, sb; fields; reflexivity ..
        | intros []; unfold sc, sb; fields; reflexivity
        | unfold sc, sb; fields; lia | exact Hb]. }
    wp_call (groupClear_spec PlayerBullets sc Hc).
    intros [] s1 (H1 & E1 & S1 & F1).
    wp_call (groupClear_spec EnemyBullets s1 H1).
    intros [] s2 (H2 & E2 & S2 & F2).
    wp_call (groupClear_spec Hearts s2 H2).
    intros [] s3 (H3 & E3 & S3 & F3).
    pose proof (stable_trans _ _ _ S1 (stable_trans _ _ _ S2 S3)) as S.
    assert (F : (gameStarted s3, invulnerable s3, score s3, wave s3,
                 enemiesPerWave s3, nextTimer s3, rnd s3, spawned s3,
                 scoreText s3, healthText s3, livesText s3)
                = (gameStarted sc, invulnerable sc, score sc, wave sc,
                   enemiesPerWave sc, nextTimer sc, rnd sc, spawned sc,
                   scoreText sc, healthText sc, livesText sc))
      by congruence.
    clear F1 F2 F3. unfold sc, sb in F. fields.
    injection F as G1 G2 G3 G4 G5 G6 G7 G8 G9 G10 G11.
    destruct S as [T1 T2 T3 T4 T5 T6 T7]. unfold sc, sb in *. fields.
    wp_step. fields. rewrite ?G1, ?G3, ?G11, ?T3, ?T5, ?T6.
    split; [done|]. split; [lia|]. done.
  - unfold updateUI. wp_steps; fields; [lia|].
    split; [done|]. split; [done|]. lia.
Qed.
(** * Shooters and hearts *)

(** The callback of a shooter's timer: while the shooter is active and
    the run is on it adds one enemy projectile, 8 to the right of the
    shooter, and keeps its timer; once the shooter is inactive or the
    run over it removes its timer and adds nothing.  Destroying a
    shooter removes the timer that its destroy handler holds. *)
Theorem shooter_fires_while_alive (t enemy : nat) (s : State) :
  (∀ e, ents s !! enemy = Some e → active e = true → isGameOver s = false →
        ∃ s', enemyShoot t enemy s = Ok tt s'
              ∧ enemyBullets s' = enemyBullets s ++ [nextId s]
              ∧ ents s'
                = <[nextId s := newObject (pos_x e + 8) (pos_y e)]> (ents s)
              ∧ timers s' = timers s ∧ nextId s' = S (nextId s))
  ∧ (is_active s enemy = false ∨ isGameOver s = true →
     enemyShoot t enemy s = Ok tt (removeTimer t s))
  ∧ (wf s → enemy ∈ enemies s →
     ∀ e, ents s !! enemy = Some e → onDestroy e = Some t →
          ∃ s', safeDestroy (Some enemy) s = Ok tt s'
                ∧ timers s' = delete t (timers s)
                ∧ is_active s' enemy = false).
Proof.
  split; [|split].
  - intros e He Ha Hov. eexists. split.
    { unfold enemyShoot, bind, get, is_active. rewrite He, Ha, Hov.
      cbn [negb orb]. reflexivity. }
    by fields.
  - intros Hg. unfold enemyShoot, bind, get.
    replace (negb (is_active s enemy) || isGameOver s) with true; [done|].
    symmetry. destruct Hg as [->| ->]; [done | apply orb_true_r].
  - intros H Hin e He Ht.
    destruct (safeDestroy_member s Enemies enemy H Hin) as (e' & He' & _ & Heq).
    assert (e' = e) by congruence. subst e'.
    exists (destroyed enemy e s). split; [done|]. split.
    + unfold destroyed. rewrite Ht. by fields.
    + apply (destroyed_gone s Enemies enemy e H He).
Qed.

(** The callback of the heart timer, while the run is on, adds one
    heart at x = -20 with y between 80 and 365; before the start and
    after the end it does nothing. *)
Theorem heart_drifts_in (s : State) :
  Forall unit_interval (rnd s) →
  (gameStarted s = true → isGameOver s = false →
   ∃ s' y, heartTick s = Ok tt s'
           ∧ 80 ≤ y ≤ 365
           ∧ hearts s' = hearts s ++ [nextId s]
           ∧ ents s' = <[nextId s := newObject (-20) y]> (ents s)
           ∧ nextId s' = S (nextId s)
           ∧ timers s' = timers s ∧ health s' = health s)
  ∧ (gameStarted s = false ∨ isGameOver s = true → heartTick s = Ok tt s).
Proof.
  intros Hr. split.
  - intros Hst Hov.
    pose proof (Between_range 80 365 _ (unit_interval_hd _ Hr) ltac:(lia))
      as Hy.
    eexists. eexists. split.
    { unfold heartTick, bind, get. rewrite Hst, Hov. cbn [negb orb].
      unfold spawnHeart, Between, bind. rewrite random_eq. cbn [ret].
      unfold groupCreate. reflexivity. }
    split; [exact Hy|]. by fields.
  - intros Hg. unfold heartTick, bind, get.
    replace (negb (gameStarted s) || isGameOver s) with true; [done|].
    symmetry. destruct Hg as [->| ->]; [done | apply orb_true_r].
Qed.
(** * The frame update *)

Lemma cleanupObjects_field {X : Type} (f : State → X) live s :
  (∀ o e s', f (destroyed o e s') = f s') →
  (∀ args s', f (warned args s') = f s') →
  wpp (cleanupObjects live) (λ _ s', f s' = f s) s.
Proof.
  intros Hd Hw.
  assert (Hg : ∀ g s1, f s1 = f s →
            wpp (cleanupGroup live g) (λ _ s', f s' = f s) s1).
  { intros g s1 H1. unfold cleanupGroup. apply wpp_forOf; [done|].
    intros a s' Hs'. unfold cleanupOne. wp_steps; try done.
    destruct (safeDestroy_outcomes (Some a) s') as (s'' & Heq & Hout).
    eapply wpx_of_eq; [done|].
    destruct Hout; rewrite ?Hd, ?Hw; done. }
  unfold cleanupObjects.
  wp_call Hg; [done|]. intros [] s1 H1.
  wp_call Hg; [done|]. intros [] s2 H2.
  wp_call Hg; [done|]. intros [] s3 H3.
  by apply Hg.
Qed.

Lemma cleanupGroup_on_screen live g' g o e s :
  wf s → o ∈ getChildren g s → ents s !! o = Some e →
  offScreen g e = false →
  wp (cleanupGroup live g')
     (λ _ s', wf s' ∧ o ∈ getChildren g s' ∧ ents s' !! o = Some e) s.
Proof.
  intros H Ho He Hon. unfold cleanupGroup.
  apply (wpx_forOf_mem _
           (λ s', wf s' ∧ o ∈ getChildren g s' ∧ ents s' !! o = Some e));
    [done|].
  intros n a s' Ha (Hs' & Ho' & He') Hn.
  destruct (decide (a = o)) as [->|Hne].
  - destruct (decide (g' = g)) as [->|Hgg].
    + eapply wpx_of_eq; [apply (cleanupOne_on_screen g o e s' He' Hon)|].
      done.
    + exfalso. destruct live.
      * by apply (wf_disjoint s' Hs' g g' o).
      * apply (wf_disjoint s H g g' o); [done | done | done].
  - unfold cleanupOne. wp_steps; try done.
    destruct (safeDestroy_outcomes (Some a) s') as (s'' & Heq & Hout).
    eapply wpx_of_eq; [done|].
    pose proof (wpx_inv _ _ _ _ _ _ (wf_safeDestroy _ s' Hs') Heq) as Hwf.
    pose proof (safeDestroy_length g' _ _ _ Hout).
    split; [|lia]. split; [done|].
    destruct (safeDestroy_other (Some a) o s' s'' Hout) as (E1 & E2 & _);
      [congruence|].
    split; [by apply E2 | by rewrite E1].
Qed.

Lemma cleanupObjects_on_screen live s g o e :
  wf s → o ∈ getChildren g s → ents s !! o = Some e →
  offScreen g e = false →
  wp (cleanupObjects live)
     (λ _ s', wf s' ∧ o ∈ getChildren g s' ∧ ents s' !! o = Some e) s.
Proof.
  intros H Ho He Hon. unfold cleanupObjects.
  wp_call (cleanupGroup_on_screen live PlayerBullets g o e s); try done.
  intros [] s1 (H1 & Ho1 & He1).
  wp_call (cleanupGroup_on_screen live EnemyBullets g o e s1); try done.
  intros [] s2 (H2 & Ho2 & He2).
  wp_call (cleanupGroup_on_screen live Enemies g o e s2); try done.
  intros [] s3 (H3 & Ho3 & He3).
  by apply cleanupGroup_on_screen.
Qed.

(** The cleanup pass never removes a child that is inside the margins
    of its group: it stays a child, with its fields as they were; and
    the pass creates nothing and leaves the counters alone. *)
Theorem cleanup_keeps_on_screen (live : bool) (s : State) (g : Group)
    (o : nat) (e : Entity) :
  wf s → o ∈ getChildren g s → ents s !! o = Some e →
  offScreen g e = false →
  ∃ s', cleanupObjects live s = Ok tt s'
        ∧ o ∈ getChildren g s' ∧ ents s' !! o = Some e
        ∧ nextId s' = nextId s ∧ score s' = score s
        ∧ lives s' = lives s ∧ health s' = health s.
Proof.
  intros H Ho He Hon.
  pose proof (cleanupObjects_on_screen live s g o e H Ho He Hon) as Hwp.
  pose proof (cleanupObjects_field
                (λ s', (nextId s', score s', lives s', health s')) live s)
    as Hf.
  cbv beta in Hf.
  specialize (Hf ltac:(intros; destroyed_fields) ltac:(intros; done)).
  destruct (wpx_returns _ _ _ (wp_and _ _ _ _ Hwp Hf))
    as ([] & s' & Heq & (_ & Ho' & He') & [= F1 F2 F3 F4]).
  by exists s'.
Qed.

(** A frame update of a run that is on, the worm with its body.  A
    fresh press of the space key shoots, and so does a held key when
    more than 160 ms have gone since the last shot: one projectile is
    created and the time of the shot is kept.  Otherwise nothing is
    created and the time of the last shot stays.  In every case the
    three texts are redrawn from the counters, which the update does
    not change. *)
Theorem held_space_respects_cooldown (live : bool) (time : Z) (inp : Input)
    (s : State) :
  wf s → gameStarted s = true → isGameOver s = false →
  has_body s (worm s) = true →
  ∃ s', update live time inp s = Ok tt s'
    ∧ (spaceJustDown inp = true
       ∨ spaceDown inp = true
         ∧ PLAYER_SHOOT_COOLDOWN < time - lastPlayerShotAt s →
       nextId s' = S (nextId s) ∧ lastPlayerShotAt s' = time)
    ∧ (spaceJustDown inp = false →
       spaceDown inp = false
       ∨ time - lastPlayerShotAt s ≤ PLAYER_SHOOT_COOLDOWN →
       nextId s' = nextId s ∧ lastPlayerShotAt s' = lastPlayerShotAt s)
    ∧ scoreText s' = score s' ∧ healthText s' = Z.max 0 (health s')
    ∧ livesText s' = lives s'
    ∧ score s' = score s ∧ lives s' = lives s ∧ health s' = health s.
Proof.
  intros H Hst Hov Hbody.
  pose proof (wf_worm s H) as Hw.
  assert (Hrest : ∀ s1,
    wpp (cleanupObjects live >> updateUI)
        (λ _ s',
           nextId s' = nextId s1
           ∧ lastPlayerShotAt s' = lastPlayerShotAt s1
           ∧ scoreText s' = score s' ∧ healthText s' = Z.max 0 (health s')
           ∧ livesText s' = lives s'
           ∧ score s' = score s1 ∧ lives s' = lives s1
           ∧ health s' = health s1) s1).
  { intros s1.
    pose proof (cleanupObjects_field
                  (λ s', (nextId s', lastPlayerShotAt s', score s',
                          lives s', health s')) live s1) as Hf.
    cbv beta in Hf.
    specialize (Hf ltac:(intros; destroyed_fields) ltac:(intros; done)).
    wp_call Hf. intros [] s2 [= F1 F2 F3 F4 F5].
    unfold updateUI. wp_steps; [done|]. fields. by rewrite F1, F2, F3, F4, F5. }
  assert (Hshoot : ∀ s1, gameStarted s1 = true → isGameOver s1 = false →
            is_active s1 (worm s1) = true →
            wpp (shootAt >> modify (set_lastPlayerShotAt time))
                (λ _ s', nextId s' = S (nextId s1)
                         ∧ lastPlayerShotAt s' = time
                         ∧ score s' = score s1 ∧ lives s' = lives s1
                         ∧ health s' = health s1) s1).
  { intros s1 Hst1 Hov1 Hw1. unfold shootAt. apply wpx_bind. wp_step.
    rewrite Hst1, Hov1, Hw1. cbn [negb orb].
    unfold is_active in Hw1.
    destruct (ents s1 !! worm s1) as [w|]; [|done].
    wp_sym_step. wp_step. wp_step. by destruct s1. }
  enough (Hwpp : wpp (update live time inp)
    (λ _ s',
       (spaceJustDown inp = true
        ∨ spaceDown inp = true
          ∧ PLAYER_SHOOT_COOLDOWN < time - lastPlayerShotAt s →
        nextId s' = S (nextId s) ∧ lastPlayerShotAt s' = time)
       ∧ (spaceJustDown inp = false →
          spaceDown inp = false
          ∨ time - lastPlayerShotAt s ≤ PLAYER_SHOOT_COOLDOWN →
          nextId s' = nextId s ∧ lastPlayerShotAt s' = lastPlayerShotAt s)
       ∧ scoreText s' = score s' ∧ healthText s' = Z.max 0 (health s')
       ∧ livesText s' = lives s'
       ∧ score s' = score s ∧ lives s' = lives s ∧ health s' = health s) s).
  { destruct (wpx_returns _ _ _
                (wp_and _ _ _ _ (wf_update live time inp s H) Hwpp))
      as ([] & s' & Heq & _ & Hs').
    by exists s'. }
  unfold update. wp_step. rewrite Hst, Hov, Hbody. cbn [negb orb andb].
  apply wpx_bind.
  destruct (spaceJustDown inp) eqn:Hj; cbn [andb].
  - eapply wpx_mono; [by apply Hshoot|]. cbv beta.
    intros [] s1 (N1 & L1 & C1 & C2 & C3).
    eapply wpx_mono; [apply Hrest|]. cbv beta.
    intros [] s2 (N2 & L2 & U1 & U2 & U3 & D1 & D2 & D3).
    split; [intros _; split; congruence|].
    split; [done|]. repeat (split; [congruence|]). congruence.
  - destruct (spaceDown inp) eqn:Hd; cbn [andb];
      [destruct (PLAYER_SHOOT_COOLDOWN <? time - lastPlayerShotAt s) eqn:Hc;
       [apply Z.ltb_lt in Hc | apply Z.ltb_ge in Hc]|].
    + eapply wpx_mono; [by apply Hshoot|]. cbv beta.
      intros [] s1 (N1 & L1 & C1 & C2 & C3).
      eapply wpx_mono; [apply Hrest|]. cbv beta.
      intros [] s2 (N2 & L2 & U1 & U2 & U3 & D1 & D2 & D3).
      split; [intros _; split; congruence|].
      split; [intros _ [?|?]; [done | lia]|].
      repeat (split; [congruence|]). congruence.
    + wp_step. eapply wpx_mono; [apply Hrest|]. cbv beta.
      intros [] s2 (N2 & L2 & U1 & U2 & U3 & D1 & D2 & D3).
      split; [intros [?|[_ ?]]; [done | lia]|].
      split; [done|]. done.
    + wp_step. eapply wpx_mono; [apply Hrest|]. cbv beta.
      intros [] s2 (N2 & L2 & U1 & U2 & U3 & D1 & D2 & D3).
      split; [intros [?|[? _]]; done|].
      split; [done|]. done.
Qed.
(** * Spawn points and the cleanup *)

(** The spawn points lie inside the cleanup margins: the enemy that the
    spawn timer has just spawned, and the heart that the heart timer has
    just added, are still active children after a cleanup pass. *)
Theorem newcomers_survive_cleanup (live : bool) (t cell : nat) (count : Z)
    (s : State) :
  wf s → Forall unit_interval (rnd s) → isGameOver s = false →
  (spawnedAt cell s < count →
   ∃ s1 s2, spawnTick t cell count s = Ok tt s1
            ∧ cleanupObjects live s1 = Ok tt s2
            ∧ nextId s ∈ enemies s2 ∧ is_active s2 (nextId s) = true)
  ∧ (gameStarted s = true →
     ∃ s1 s2, heartTick s = Ok tt s1
              ∧ cleanupObjects live s1 = Ok tt s2
              ∧ nextId s ∈ hearts s2 ∧ is_active s2 (nextId s) = true).
Proof.
  intros H Hr Hov. split.
  - intros Hq.
    destruct (proj1 (spawnTick_spec t cell count s Hr) Hov Hq)
      as (s1 & e & Heq & Hen & _ & He & Ha & Hx & _).
    pose proof (wpx_inv _ _ _ _ _ _ (wf_spawnTick t cell count s H) Heq) as H1.
    assert (Hin : nextId s ∈ getChildren Enemies s1).
    { cbn [getChildren]. rewrite Hen. apply elem_of_app. right. by left. }
    assert (Hon : offScreen Enemies e = false).
    { cbn [offScreen]. rewrite Hx. done. }
    destruct (wpx_returns _ _ _
                (cleanupObjects_on_screen live s1 Enemies _ e H1 Hin He Hon))
      as ([] & s2 & Heq2 & _ & Hin2 & He2).
    exists s1, s2. split; [done|]. split; [done|]. split; [done|].
    unfold is_active. by rewrite He2.
  - intros Hst.
    assert (Heq : heartTick s
                  = Ok tt (created_in Hearts (-20)
                             (Qfloor (hd 0%Q (rnd s)
                                      * inject_Z (scale_height - 140 - 80 + 1)
                                      + inject_Z 80))
                             (set_rnd (tail (rnd s)) s))).
    { unfold heartTick, bind, get. rewrite Hst, Hov. cbn [negb orb].
      unfold spawnHeart, Between, bind. rewrite random_eq. reflexivity. }
    pose proof (wpx_inv _ _ _ _ _ _ (wf_heartTick s H) Heq) as H1.
    set (s1 := created_in Hearts _ _ _) in *.
    assert (Hin : nextId s ∈ getChildren Hearts s1).
    { unfold s1. fields. apply elem_of_app. right. by left. }
    assert (He : ents s1 !! nextId s
                 = Some (newObject (-20)
                           (Qfloor (hd 0%Q (rnd s)
                                    * inject_Z (scale_height - 140 - 80 + 1)
                                    + inject_Z 80)))).
    { unfold s1. fields. by rewrite lookup_insert_eq. }
    destruct (wpx_returns _ _ _
                (cleanupObjects_on_screen live s1 Hearts _ _ H1 Hin He
                   eq_refl))
      as ([] & s2 & Heq2 & _ & Hin2 & He2).
    exists s1, s2. split; [done|]. split; [done|]. split; [done|].
    unfold is_active. by rewrite He2.
Qed.

(** A click while the run is on creates one projectile, 14 above the
    worm, as the last child of [playerBullets], and changes nothing
    else; unless the worm is far outside the screen, the projectile is
    still an active child after a cleanup pass. *)
Theorem click_shoots_from_worm (live : bool) (s : State) (w : Entity) :
  wf s → gameStarted s = true → isGameOver s = false →
  ents s !! worm s = Some w →
  ∃ s1, onPointerDown s = Ok tt s1
        ∧ playerBullets s1 = playerBullets s ++ [nextId s]
        ∧ ents s1 = <[nextId s := newObject (pos_x w) (pos_y w - 14)]> (ents s)
        ∧ nextId s1 = S (nextId s)
        ∧ timers s1 = timers s ∧ score s1 = score s
        ∧ (-80 ≤ pos_x w ≤ scale_width + 80 → -66 ≤ pos_y w →
           ∃ s2, cleanupObjects live s1 = Ok tt s2
                 ∧ nextId s ∈ playerBullets s2
                 ∧ is_active s2 (nextId s) = true).
Proof.
  intros H Hst Hov Hw.
  assert (Heq : onPointerDown s
                = Ok tt (created_in PlayerBullets (pos_x w) (pos_y w - 14) s)).
  { pose proof (wf_worm s H) as Ha.
    unfold onPointerDown, bind, get. rewrite Hst, Hov. cbn [negb orb].
    unfold shootAt, bind, get. rewrite Hst, Hov, Ha. cbn [negb orb].
    rewrite Hw. reflexivity. }
  pose proof (wpx_inv _ _ _ _ _ _ (wf_onPointerDown s H) Heq) as H1.
  set (s1 := created_in PlayerBullets _ _ s) in *.
  exists s1. split; [done|].
  assert (He : ents s1 !! nextId s
               = Some (newObject (pos_x w) (pos_y w - 14)))
    by (unfold s1; fields; by rewrite lookup_insert_eq).
  assert (Hin : nextId s ∈ getChildren PlayerBullets s1).
  { unfold s1. fields. apply elem_of_app. right. by left. }
  repeat (split; [by unfold s1|]).
  intros Hx Hy.
  assert (Hon : offScreen PlayerBullets (newObject (pos_x w) (pos_y w - 14))
                = false).
  { cbn [offScreen newObject pos_x pos_y].
    repeat (apply orb_false_iff; split); apply Z.ltb_ge; lia. }
  destruct (wpx_returns _ _ _
              (cleanupObjects_on_screen live s1 PlayerBullets _ _ H1 Hin He
                 Hon))
    as ([] & s2 & Heq2 & _ & Hin2 & He2).
  exists s2. split; [done|]. split; [done|].
  unfold is_active. by rewrite He2.
Qed.

(** * The further properties at concrete scenes *)

Lemma wp_final {A : Type} (m : M A) (Q : State → Prop) s :
  wp m (λ _, Q) s → Q (final (m s)).
Proof. unfold wpx, final. by destruct (m s). Qed.

Lemma wf_started : wf started.
Proof. exact (cs_wf _ consistent_started). Qed.

Lemma wf_last_life : wf last_life.
Proof. exact (cs_wf _ consistent_last_life). Qed.

Lemma wf_game_over : wf game_over.
Proof. exact (cs_wf _ (consistent_final _ _ _ consistent_last_life)). Qed.

Lemma wf_set_wave_rnd w rs s : wf s → wf (set_rnd rs (set_wave w s)).
Proof. intros H. wf_framed. Qed.

Lemma wf_shooter_out : wf shooter_out.
Proof.
  unfold shooter_out. apply (wp_final (spawnTick 1 1 4) wf), wf_spawnTick.
  apply wf_set_wave_rnd, wf_started.
Qed.

Lemma wf_crossfire : wf crossfire.
Proof.
  unfold crossfire. apply (wp_final (enemyShoot 3 1 >> onPointerDown) wf).
  apply wpx_bind.
  eapply wpx_mono; [apply wf_enemyShoot, wf_shooter_out|].
  intros [] s' Hs'. by apply wf_onPointerDown.
Qed.

Lemma rnd_started : Forall unit_interval (rnd started).
Proof.
  assert (E : rnd started = []) by (vm_compute; reflexivity).
  rewrite E. constructor.
Qed.
Lemma score_only_grows_witness :
  wf last_life
  ∧ ∃ s', run true [OverlapBulletEnemy (Some 5%nat) (Some 3%nat)] last_life
          = Ok tt s'
          ∧ score last_life ≤ score s'
          ∧ Z.divide 10 (score s' - score last_life).
Proof.
  split; [exact wf_last_life|].
  exact (score_only_grows true
           [OverlapBulletEnemy (Some 5%nat) (Some 3%nat)] last_life
           wf_last_life).
Defined.

Lemma wave_and_quota_advance_witness :
  wf wave_cleared
  ∧ ∃ s', run true [ClockUpdate 500 []] wave_cleared = Ok tt s'
          ∧ wave wave_cleared ≤ wave s'.
Proof.
  split; [exact (cs_wf _ consistent_wave_cleared)|].
  destruct (wave_and_quota_advance true [ClockUpdate 500 []] wave_cleared
              (cs_wf _ consistent_wave_cleared))
    as [(s' & Heq & Hw & _) _].
  exists s'. split; [exact Heq | exact Hw].
Defined.


Lemma removed_stays_removed_witness :
  wf game_over ∧ (1 < nextId game_over)%nat
  ∧ is_active game_over 1 = false
  ∧ ∃ s', run true [ClockUpdate 840 []] game_over = Ok tt s'
          ∧ is_active s' 1 = false.
Proof.
  assert (H2 : (1 < nextId game_over)%nat) by (vm_compute; lia).
  assert (H3 : is_active game_over 1 = false) by (vm_compute; reflexivity).
  split; [exact wf_game_over|]. split; [exact H2|]. split; [exact H3|].
  destruct (removed_stays_removed true [ClockUpdate 840 []] game_over 1
              wf_game_over H2 H3)
    as (s' & Heq & Ha & _).
  exists s'. split; [exact Heq | exact Ha].
Defined.

Lemma input_ignored_until_started_witness :
  wf created ∧ gameStarted created = false
  ∧ ∃ s', run true [PointerDown; ClockUpdate 16 []] created = Ok tt s'
          ∧ gameStarted s' = false.
Proof.
  split; [exact wf_created|]. split; [reflexivity|].
  destruct (input_ignored_until_started true
              [PointerDown; ClockUpdate 16 []] created wf_created eq_refl)
    as (s' & Heq & Hst & _).
  exists s'. split; [exact Heq | exact Hst].
Defined.

Lemma spawn_delay_bounds_witness :
  1 ≤ 10 ∧ spawnDelay 10 ≤ spawnDelay 1 ∧ spawnDelay 10 = 300.
Proof.
  destruct (spawn_delay_bounds 1 10) as (_ & _ & _ & _ & Hm).
  destruct (spawn_delay_bounds 10 10) as (_ & _ & _ & H10 & _).
  split; [lia|]. split; [apply Hm; lia | apply H10; lia].
Defined.

Lemma spawn_tick_spawns_witness :
  Forall unit_interval (rnd started) ∧ isGameOver started = false
  ∧ spawnedAt 1 started < 4
  ∧ ∃ s', spawnTick 1 1 4 started = Ok tt s'
          ∧ enemies s' = enemies started ++ [nextId started].
Proof.
  assert (H2 : isGameOver started = false) by (vm_compute; reflexivity).
  assert (H3 : spawnedAt 1 started < 4) by (vm_compute; reflexivity).
  split; [exact rnd_started|]. split; [exact H2|]. split; [exact H3|].
  destruct (spawn_tick_spawns 1 1 4 started rnd_started) as [Hs _].
  destruct (Hs H2 H3) as (s' & e & Heq & Hen & _).
  exists s'. split; [exact Heq | exact Hen].
Defined.

Lemma bullet_kills_enemy_witness :
  wf last_life ∧ (5%nat : nat) ∈ playerBullets last_life
  ∧ (3%nat : nat) ∈ enemies last_life
  ∧ ∃ s', onBulletEnemy (Some 5%nat) (Some 3%nat) last_life = Ok tt s'
          ∧ score s' = score last_life + 10.
Proof.
  assert (H2 : (5%nat : nat) ∈ playerBullets last_life) by (vm_compute; left).
  assert (H3 : (3%nat : nat) ∈ enemies last_life) by (vm_compute; left).
  split; [exact wf_last_life|]. split; [exact H2|]. split; [exact H3|].
  destruct (bullet_kills_enemy last_life 5 3 wf_last_life H2 H3)
    as (s' & Heq & Hsc & _).
  exists s'. split; [exact Heq | exact Hsc].
Defined.

Lemma bullets_cancel_out_witness :
  wf crossfire ∧ (2%nat : nat) ∈ enemyBullets crossfire
  ∧ (3%nat : nat) ∈ playerBullets crossfire
  ∧ ∃ s', onBulletEnemyBullet (Some 3%nat) (Some 2%nat) crossfire = Ok tt s'
          ∧ is_active s' 3 = false ∧ is_active s' 2 = false.
Proof.
  assert (H2 : (2%nat : nat) ∈ enemyBullets crossfire) by (vm_compute; left).
  assert (H3 : (3%nat : nat) ∈ playerBullets crossfire) by (vm_compute; left).
  split; [exact wf_crossfire|]. split; [exact H2|]. split; [exact H3|].
  destruct (bullets_cancel_out crossfire 3 2 None wf_crossfire H2) as [Hb _].
  destruct (Hb H3) as (s' & Heq & Ha & Hb' & _).
  exists s'. split; [exact Heq|]. split; [exact Ha | exact Hb'].
Defined.

Lemma start_resets_the_run_witness :
  wf game_over ∧ Forall unit_interval (rnd game_over)
  ∧ ∃ s', startGame game_over = Ok tt s'
          ∧ isGameOver s' = false ∧ lives s' = 3
          ∧ ∀ g, getChildren g s' = [].
Proof.
  assert (H2 : Forall unit_interval (rnd game_over)).
  { assert (E : rnd game_over = []) by (vm_compute; reflexivity).
    rewrite E. constructor. }
  split; [exact wf_game_over|]. split; [exact H2|].
  destruct (start_resets_the_run game_over wf_game_over H2)
    as (s' & d & Heq & _ & _ & Hov & _ & _ & _ & Hl & _ & _ & Hg & _).
  exists s'. split; [exact Heq|]. split; [exact Hov|].
  split; [exact Hl | exact Hg].
Defined.

Lemma last_life_draws_the_panel_witness :
  wf last_life ∧ isGameOver last_life = false ∧ lives last_life ≤ 1
  ∧ ∃ s', loseLife last_life = Ok tt s'
          ∧ isGameOver s' = true
          ∧ display s'
            = display last_life ++ [GameOverPanel; GameOverTitle;
                                    FinalScore (score last_life);
                                    RestartButton].
Proof.
  assert (H2 : isGameOver last_life = false) by (vm_compute; reflexivity).
  assert (H3 : lives last_life ≤ 1) by (vm_compute; discriminate).
  split; [exact wf_last_life|]. split; [exact H2|]. split; [exact H3|].
  destruct (last_life_draws_the_panel last_life wf_last_life H2)
    as (s' & Heq & _ & _ & Hlast).
  destruct (Hlast H3) as (_ & Hov & _ & Hd & _).
  exists s'. split; [exact Heq|]. split; [exact Hov | exact Hd].
Defined.

Lemma shooter_fires_while_alive_witness :
  wf shooter_out ∧ (1%nat : nat) ∈ enemies shooter_out
  ∧ ∃ s', safeDestroy (Some 1%nat) shooter_out = Ok tt s'
          ∧ timers s' = delete 3%nat (timers shooter_out)
          ∧ is_active s' 1 = false.
Proof.
  assert (H2 : (1%nat : nat) ∈ enemies shooter_out) by (vm_compute; left).
  split; [exact wf_shooter_out|]. split; [exact H2|].
  destruct (shooter_fires_while_alive 3 1 shooter_out) as (_ & _ & Hd).
  apply (Hd wf_shooter_out H2
           (set_onDestroy (Some 3%nat)
              (set_isShooter (Some true)
                 (set_hasHit (Some false) (newObject (-40) 173))))).
  - vm_compute. reflexivity.
  - reflexivity.
Defined.

Lemma heart_drifts_in_witness :
  Forall unit_interval (rnd started) ∧ gameStarted started = true
  ∧ isGameOver started = false
  ∧ ∃ s', heartTick started = Ok tt s'
          ∧ hearts s' = hearts started ++ [nextId started].
Proof.
  assert (H2 : gameStarted started = true) by (vm_compute; reflexivity).
  assert (H3 : isGameOver started = false) by (vm_compute; reflexivity).
  split; [exact rnd_started|]. split; [exact H2|]. split; [exact H3|].
  destruct (heart_drifts_in started rnd_started) as [Hs _].
  destruct (Hs H2 H3) as (s' & y & Heq & _ & Hh & _).
  exists s'. split; [exact Heq | exact Hh].
Defined.

Lemma cleanup_keeps_on_screen_witness :
  wf one_above ∧ (1%nat : nat) ∈ getChildren PlayerBullets one_above
  ∧ ents one_above !! 1%nat = Some (newObject 450 380)
  ∧ offScreen PlayerBullets (newObject 450 380) = false
  ∧ ∃ s', cleanupObjects true one_above = Ok tt s'
          ∧ (1%nat : nat) ∈ getChildren PlayerBullets s'.
Proof.
  assert (H2 : (1%nat : nat) ∈ getChildren PlayerBullets one_above)
    by (vm_compute; left).
  assert (H3 : ents one_above !! 1%nat = Some (newObject 450 380))
    by (vm_compute; reflexivity).
  assert (H4 : offScreen PlayerBullets (newObject 450 380) = false)
    by (vm_compute; reflexivity).
  split; [exact (cs_wf _ consistent_one_above)|].
  split; [exact H2|]. split; [exact H3|]. split; [exact H4|].
  destruct (cleanup_keeps_on_screen true one_above PlayerBullets 1 _
              (cs_wf _ consistent_one_above) H2 H3 H4)
    as (s' & Heq & Hin & _).
  exists s'. split; [exact Heq | exact Hin].
Defined.

Lemma held_space_respects_cooldown_witness :
  wf started ∧ gameStarted started = true ∧ isGameOver started = false
  ∧ has_body started (worm started) = true
  ∧ ∃ s', update true 100 (mkInput false true) started = Ok tt s'
          ∧ nextId s' = nextId started.
Proof.
  assert (H2 : gameStarted started = true) by (vm_compute; reflexivity).
  assert (H3 : isGameOver started = false) by (vm_compute; reflexivity).
  assert (H4 : has_body started (worm started) = true)
    by (vm_compute; reflexivity).
  split; [exact wf_started|]. split; [exact H2|]. split; [exact H3|].
  split; [exact H4|].
  destruct (held_space_respects_cooldown true 100 (mkInput false true)
              started wf_started H2 H3 H4)
    as (s' & Heq & _ & Hno & _).
  exists s'. split; [exact Heq|].
  apply Hno; [reflexivity|]. right. vm_compute. discriminate.
Defined.

Lemma newcomers_survive_cleanup_witness :
  wf started ∧ Forall unit_interval (rnd started)
  ∧ isGameOver started = false ∧ spawnedAt 1 started < 4
  ∧ ∃ s1 s2, spawnTick 1 1 4 started = Ok tt s1
             ∧ cleanupObjects true s1 = Ok tt s2
             ∧ nextId started ∈ enemies s2.
Proof.
  assert (H3 : isGameOver started = false) by (vm_compute; reflexivity).
  assert (H4 : spawnedAt 1 started < 4) by (vm_compute; reflexivity).
  split; [exact wf_started|]. split; [exact rnd_started|].
  split; [exact H3|]. split; [exact H4|].
  destruct (newcomers_survive_cleanup true 1 1 4 started wf_started
              rnd_started H3) as [Hs _].
  destruct (Hs H4) as (s1 & s2 & Heq1 & Heq2 & Hin & _).
  exists s1, s2. split; [exact Heq1|]. split; [exact Heq2 | exact Hin].
Defined.

Lemma click_shoots_from_worm_witness :
  wf started ∧ gameStarted started = true ∧ isGameOver started = false
  ∧ ents started !! worm started = Some (newObject 450 394)
  ∧ ∃ s1, onPointerDown started = Ok tt s1
          ∧ playerBullets s1 = playerBullets started ++ [nextId started].
Proof.
  assert (H2 : gameStarted started = true) by (vm_compute; reflexivity).
  assert (H3 : isGameOver started = false) by (vm_compute; reflexivity).
  assert (H4 : ents started !! worm started = Some (newObject 450 394))
    by (vm_compute; reflexivity).
  split; [exact wf_started|]. split; [exact H2|]. split; [exact H3|].
  split; [exact H4|].
  destruct (click_shoots_from_worm true started _ wf_started H2 H3 H4)
    as (s1 & Heq & Hpb & _).
  exists s1. split; [exact Heq | exact Hpb].
Defined.

(** * The overlaps of a group with the worm, as the engine delivers them *)

Lemma hasHit_alter (f : Entity → Entity) o (m : gmap nat Entity) x :
  (∀ e, hasHit (f e) = hasHit e) →
  hasHit <$> alter f o m !! x = hasHit <$> m !! x.
Proof.
  intros Hf. destruct (decide (o = x)) as [->|];
    [rewrite lookup_alter_eq | by rewrite lookup_alter_ne].
  destruct (m !! x); cbn; [by rewrite Hf | done].
Qed.

Lemma endGame_field {X : Type} (f : State → X) s :
  (∀ o e s', f (destroyed o e s') = f s') →
  (∀ g s', f (set_children g [] s') = f s') →
  (∀ b s', f (set_isGameOver b s') = f s') →
  (∀ b s', f (set_gameStarted b s') = f s') →
  (∀ d s', f (set_display d s') = f s') →
  wpp endGame (λ _ s', f s' = f s) s.
Proof.
  intros Hd Hc Ho Hs Hy. unfold endGame. wp_steps; [done|].
  wp_call (groupClear_field f PlayerBullets); [done | done|].
  intros [] s1 H1.
  wp_call (groupClear_field f EnemyBullets); [done | done|].
  intros [] s2 H2.
  wp_call (groupClear_field f Hearts); [done | done|].
  intros [] s3 H3.
  wp_step. by rewrite Hy, H3, H2, H1, Hs, Ho.
Qed.

(** Losing a life logs nothing and leaves every [hasHit] as it is. *)
Lemma loseLife_keeps x s :
  wpp loseLife
      (λ _ s', console s' = console s
               ∧ hasHit <$> ents s' !! x = hasHit <$> ents s !! x) s.
Proof.
  pose proof (λ s0, endGame_field
                (λ s', (console s', hasHit <$> ents s' !! x)) s0) as Hend.
  cbv beta in Hend.
  assert (Hend' : ∀ s0, wpp endGame
            (λ _ s', (console s', hasHit <$> ents s' !! x)
                     = (console s0, hasHit <$> ents s0 !! x)) s0).
  { intros s0. apply Hend; try done.
    - intros o e s'. f_equal; [destroyed_fields|].
      rewrite ents_destroyed. by apply hasHit_alter.
    - intros g s'. by destruct g. }
  unfold loseLife, tintWorm.
  wp_sym; fields; try done.
  all: try (eapply wpx_mono; [apply Hend'|]; cbv beta;
             intros [] s' [= E1 E2]; rewrite E1, E2; fields;
             split; [done|]; rewrite ?hasHit_alter by done; done).
  all: unfold updateUI; wp_steps; fields; try done.
  all: split; [done|]; rewrite ?hasHit_alter by done; done.
Qed.

(** With more than one life left, losing one leaves the groups and every
    object but the worm as they are. *)
Lemma loseLife_spares s :
  isGameOver s = false → 1 < lives s →
  wpp loseLife
      (λ _ s', (∀ g, getChildren g s' = getChildren g s)
               ∧ ∀ o, o ≠ worm s → ents s' !! o = ents s !! o) s.
Proof.
  intros Hov Hl. unfold loseLife, tintWorm.
  wp_sym; fields; try done.
  all: try (apply Z.leb_le in Heqb1; lia).
  all: unfold updateUI; wp_steps; fields; try done.
  all: split; [by intros [] |].
  all: intros o Ho; by rewrite ?lookup_alter_ne.
Qed.

Lemma safeDestroy_worm s :
  safeDestroy (Some (worm s)) s = Ok tt (warned blocked_warning s).
Proof. unfold safeDestroy, bind, get. by rewrite decide_True. Qed.

(** C5 fails on the code: the overlap of [enemies] with the worm is one
    of a group with a sprite, and the engine hands its callback the worm
    first.  On the contact of an enemy with the vulnerable worm, the run
    on, the callback takes one life, but it reads and sets [hasHit] of the
    worm, and its [safeDestroy] is called on the worm and blocked: the
    enemy is not marked and not removed, it stays an active child as it
    was.  From then on the worm's [hasHit] is true, and whatever happens,
    the contact of any enemy with the worm changes nothing: no enemy
    takes a life again. *)
Theorem enemy_contact_marks_the_worm (s : State) (e : nat) :
  consistent s → e ∈ enemies s →
  hasHit <$> ents s !! worm s ≠ Some (Some true) →
  invulnerable s = false → isGameOver s = false →
  ∃ s1, overlapGroupSprite onEnemyWorm e s = Ok tt s1
        ∧ lives s1 = lives s - 1
        ∧ hasHit <$> ents s1 !! worm s = Some (Some true)
        ∧ e ∈ enemies s1 ∧ ents s1 !! e = ents s !! e
        ∧ is_active s1 e = true
        ∧ console s1 = console s ++ [blocked_warning]
        ∧ ∀ live evs e',
            ∃ s2, run live evs s1 = Ok tt s2
                  ∧ lives s2 ≤ lives s1
                  ∧ overlapGroupSprite onEnemyWorm e' s2 = Ok tt s2.
Proof.
  intros H He Hh Hinv Hov. pose proof (cs_wf s H) as Hwf.
  pose proof (wf_worm s Hwf) as Hw.
  destruct (member_of s Enemies e Hwf He) as (Hne & e0 & He0 & _ & Ha0).
  set (sm := alter_entity (set_hasHit (Some true)) (worm s) s).
  assert (Hwm : wf sm) by by apply wf_alter_entity.
  destruct (wpx_returns _ _ _
              (wp_and _ _ _ _ (loseLife_takes_one sm Hwm Hov)
                 (loseLife_keeps (worm s) sm)))
    as ([] & s' & Heq & (Hwf' & Hl & Hen & Hww & Hents) & Hc & Hhh).
  assert (Hhit : hasHit <$> ents s' !! worm s = Some (Some true)).
  { rewrite Hhh. unfold sm. fields. rewrite lookup_alter_eq.
    unfold is_active in Hw. by destruct (ents s !! worm s). }
  assert (Hrun : onEnemyWorm (Some (worm s)) (Some e) s
                 = Ok tt (warned blocked_warning s')).
  { unfold onEnemyWorm, bind, get, modify. rewrite Hw. cbn [negb].
    rewrite bool_decide_eq_false_2 by done. rewrite Hinv, Hov. cbn [orb].
    fold sm. rewrite Heq.
    replace (worm s) with (worm s') by (rewrite Hww; done).
    apply safeDestroy_worm. }
  exists (warned blocked_warning s'). split; [exact Hrun|].
  assert (Hlives : 1 ≤ lives s).
  { pose proof (wf_lives s Hwf). pose proof (cs_zero s H) as [Hz _].
    destruct (decide (lives s = 0)) as [E|]; [|lia].
    rewrite (Hz E) in Hov. done. }
  assert (Hee : ents s' !! e = ents s !! e).
  { rewrite (Hents e He). unfold sm. fields. by rewrite lookup_alter_ne. }
  split; [unfold warned; fields; rewrite Hl; unfold sm; fields; lia|].
  split; [done|].
  split; [unfold warned; fields; rewrite Hen; unfold sm; fields; done|].
  split; [done|].
  split; [unfold is_active, warned; fields; by rewrite Hee, He0|].
  split; [unfold warned; fields; by rewrite Hc|].
  intros live evs e'.
  destruct (consistent_run true
              [OverlapEnemyWorm (Some (worm s)) (Some e)] s H)
    as (s1 & Heq1 & Hc1).
  rewrite step_as_run in Heq1. cbn [step] in Heq1.
  rewrite Hrun in Heq1. injection Heq1 as <-.
  destruct (hit_persists live evs (worm s) (Some e') _ Hc1 Hhit)
    as (s2 & Heq2 & Hc2 & _ & Hl2 & Hno).
  destruct (run_returns _ _ _ _ None None live evs _ (cs_wf _ Hc1)
              (consistent_combat _ Hc1) (or_introl eq_refl)
              (cs_window _ Hc1))
    as (s2' & Heq2' & _ & Hci & _).
  assert (s2' = s2) by congruence. subst s2'.
  exists s2. split; [done|]. split; [done|].
  unfold overlapGroupSprite, bind, get.
  replace (worm s2) with (worm s); [done|].
  rewrite (ci_worm _ _ _ _ _ _ Hci). unfold warned. fields.
  rewrite Hww. done.
Qed.

(** An enemy projectile that touches the worm is not removed by the
    contact: the overlap of [enemyBullets] with the worm is one of a group
    with a sprite, the callback gets the worm first, and its
    [safeDestroy] is called on the worm, blocked and logged.  The worm
    loses one life, never below 0, unless it is invulnerable or the run
    is over; and unless that loss ends the run the projectile stays a
    child of its group, as it was. *)
Theorem enemy_bullet_stays (s : State) (eb : nat) :
  wf s → eb ∈ enemyBullets s →
  ∃ s', overlapGroupSprite onEnemyBulletWorm eb s = Ok tt s'
        ∧ console s' = console s ++ [blocked_warning]
        ∧ lives s'
          = (if invulnerable s || isGameOver s then lives s
             else Z.max 0 (lives s - 1))
        ∧ (invulnerable s || isGameOver s = true ∨ 1 < lives s →
           eb ∈ enemyBullets s' ∧ ents s' !! eb = ents s !! eb).
Proof.
  intros H He. pose proof (wf_worm s H) as Hw.
  destruct (member_of s EnemyBullets eb H He) as (Hne & _).
  set (s0 := warned blocked_warning s).
  assert (H0 : wf s0) by by apply wf_warned.
  assert (Hfirst : overlapGroupSprite onEnemyBulletWorm eb s
                   = (if invulnerable s || isGameOver s then Ok tt s0
                      else loseLife s0)).
  { unfold overlapGroupSprite, onEnemyBulletWorm, bind, get.
    cbn [truthy_active]. rewrite Hw, safeDestroy_worm. fold s0.
    unfold s0, warned. fields. by destruct (_ || _). }
  rewrite Hfirst.
  destruct (invulnerable s || isGameOver s) eqn:Hg.
  - exists s0. split; [done|]. split; [done|]. split; [done|]. by intros _.
  - apply orb_false_iff in Hg as [_ Hov].
    assert (Hov0 : isGameOver s0 = false) by done.
    destruct (wpx_returns _ _ _
                (wp_and _ _ _ _ (loseLife_takes_one s0 H0 Hov0)
                   (loseLife_keeps eb s0)))
      as ([] & s' & Heq & (Hwf' & Hl & _) & Hc & _).
    exists s'. split; [done|]. split; [by rewrite Hc|].
    split; [by rewrite Hl|].
    intros [?|Hmore]; [done|].
    pose proof (loseLife_spares s0 Hov0 Hmore) as Hsp.
    unfold wpx in Hsp. rewrite Heq in Hsp. destruct Hsp as [Hg Hents].
    split.
    + specialize (Hg EnemyBullets). cbn [getChildren] in Hg. by rewrite Hg.
    + by rewrite Hents.
Qed.

Lemma enemy_contact_marks_the_worm_witness :
  consistent enemy_out ∧ (1%nat : nat) ∈ enemies enemy_out
  ∧ hasHit <$> ents enemy_out !! worm enemy_out ≠ Some (Some true)
  ∧ invulnerable enemy_out = false ∧ isGameOver enemy_out = false
  ∧ ∃ s1, overlapGroupSprite onEnemyWorm 1 enemy_out = Ok tt s1
          ∧ lives s1 = lives enemy_out - 1
          ∧ (1%nat : nat) ∈ enemies s1 ∧ is_active s1 1 = true.
Proof.
  assert (H2 : (1%nat : nat) ∈ enemies enemy_out) by (vm_compute; left).
  assert (H3 : hasHit <$> ents enemy_out !! worm enemy_out
               ≠ Some (Some true))
    by (vm_compute; discriminate).
  assert (H4 : invulnerable enemy_out = false) by (vm_compute; reflexivity).
  assert (H5 : isGameOver enemy_out = false) by (vm_compute; reflexivity).
  split; [exact consistent_enemy_out|].
  split; [exact H2|]. split; [exact H3|]. split; [exact H4|].
  split; [exact H5|].
  destruct (enemy_contact_marks_the_worm enemy_out 1
              consistent_enemy_out H2 H3 H4 H5)
    as (s1 & Heq & Hl & _ & Hm & _ & Ha & _).
  exists s1. split; [exact Heq|]. split; [exact Hl|].
  split; [exact Hm | exact Ha].
Defined.

Lemma enemy_bullet_stays_witness :
  wf crossfire ∧ (2%nat : nat) ∈ enemyBullets crossfire
  ∧ 1 < lives crossfire
  ∧ ∃ s', overlapGroupSprite onEnemyBulletWorm 2 crossfire = Ok tt s'
          ∧ console s' = console crossfire ++ [blocked_warning]
          ∧ (2%nat : nat) ∈ enemyBullets s'.
Proof.
  assert (H2 : (2%nat : nat) ∈ enemyBullets crossfire) by (vm_compute; left).
  assert (H3 : 1 < lives crossfire) by (vm_compute; reflexivity).
  split; [exact wf_crossfire|]. split; [exact H2|]. split; [exact H3|].
  destruct (enemy_bullet_stays crossfire 2 wf_crossfire H2)
    as (s' & Heq & Hc & _ & Hst).
  exists s'. split; [exact Heq|]. split; [exact Hc|].
  exact (proj1 (Hst (or_intror H3))).
Defined.
